(** * signlanguageadmin: a model of the sign-video service and its scripts

    The development follows the three Python programs of the repository:
    - [voice_server.py]: the FastAPI application (S3 indexer, duplicate
      check, moderation and upload handlers, the translate endpoint);
    - [push_dataset_to_s3.py]: the bulk uploader (MongoDB connection loop,
      S3 upload, bulk upsert of the documents);
    - [populate_database.py]: the SQLite populator.

    A Python [str] is the list of its characters, a character its Unicode
    code point.  The methods that read the Unicode database ([lower],
    [upper], [capitalize], [strip], [split], [isalnum], [isalpha]) are
    written out on the ASCII range; beyond it they read the tables of the
    class [Unicode], which are inputs of the model, as the other external
    services are (the clock, the float and date formatters, the NLTK
    tokenizer, speech recognition, video probing). *)

From Stdlib Require Import ZArith NArith.
From Stdlib Require QArith.
From stdpp Require Import base option list strings gmap sorting pretty.

Local Open Scope nat_scope.

(** ** Python's [str] *)

(** A character is a code point; a [str] is the list of its characters. *)
Definition char := N.
Abbreviation str := (list char).

(** Literals: a quoted ASCII text stands for the [str] of its characters,
    and a quoted ASCII character for its code point. *)
Module Literal.

Inductive text := Nil | Cons (b : Byte.byte) (t : text).

Inductive letter := Letter (b : Byte.byte).

Definition is_ascii (b : Byte.byte) : bool := (Byte.to_N b <? 128)%N.

Fixpoint parse (l : list Byte.byte) : option text :=
  match l with
  | [] => Some Nil
  | b :: l' => if is_ascii b then Cons b <$> parse l' else None
  end.

Fixpoint print (t : text) : list Byte.byte :=
  match t with
  | Nil => []
  | Cons b t' => b :: print t'
  end.

Definition parse_letter (l : list Byte.byte) : option letter :=
  match l with
  | [b] => if is_ascii b then Some (Letter b) else None
  | _ => None
  end.

Definition print_letter (c : letter) : list Byte.byte :=
  match c with Letter b => [b] end.

Definition chr (b : Byte.byte) : char := Byte.to_N b.
Definition empty : str := [].
Definition cons (b : Byte.byte) (s : str) : str := chr b :: s.

End Literal.

Declare Scope py_scope.
Delimit Scope py_scope with py.
Declare Scope pychar_scope.
Delimit Scope pychar_scope with pychar.
Bind Scope pychar_scope with char.

#[local] Set Warnings "-via-type-remapping,-via-type-mismatch".
String Notation list Literal.parse Literal.print
  (via Literal.text mapping [Literal.empty => Literal.Nil, Literal.cons => Literal.Cons])
  : py_scope.
String Notation char Literal.parse_letter Literal.print_letter
  (via Literal.letter mapping [Literal.chr => Literal.Letter])
  : pychar_scope.
#[local] Set Warnings "via-type-remapping,via-type-mismatch".

Open Scope py_scope.

(** The [str] of a text of the proof assistant (decimal numbers are
    printed as such texts). *)
Definition of_string (s : string) : str :=
  (λ b, Byte.to_N b) <$> String.list_byte_of_string s.

(** The tables of the Unicode database, read for the characters beyond
    the ASCII range. *)
Class Unicode := {
  (** [c.isspace()] *)
  uni_isspace : char → bool;
  (** [c.isalpha()] *)
  uni_isalpha : char → bool;
  (** [c.isdecimal() or c.isdigit() or c.isnumeric()] *)
  uni_isnumber : char → bool;
  (** the lower case of a character that stands between [before] and
      [after]: one character or several, and for the capital sigma it
      depends on the characters around it *)
  uni_lower : str → char → str → str;
  (** the upper case of a character: one character or several *)
  uni_upper : char → str;
  (** the title case of a character *)
  uni_title : char → str
}.

(** ** Python's [str] methods used by the programs *)

Module PyStr.

Definition isascii (c : char) : bool := (c <? 128)%N.

Definition ascii_isspace (c : char) : bool :=
  (((9 <=? c) && (c <=? 13)) || ((28 <=? c) && (c <=? 32)))%N.

Definition ascii_isupper (c : char) : bool := ((65 <=? c) && (c <=? 90))%N.

Definition ascii_islower (c : char) : bool := ((97 <=? c) && (c <=? 122))%N.

Definition ascii_isdigit (c : char) : bool := ((48 <=? c) && (c <=? 57))%N.

Fixpoint all (p : char → bool) (s : str) : bool :=
  match s with
  | [] => true
  | c :: s' => p c && all p s'
  end.

(** [''.join(c for c in s if p(c))] *)
Fixpoint filter (p : char → bool) (s : str) : str :=
  match s with
  | [] => []
  | c :: s' => if p c then c :: filter p s' else filter p s'
  end.

Section methods.
Context `{tables : Unicode}.

(** [c.isspace()]: on the ASCII range TAB, LF, VT, FF, CR, the four
    separators FS, GS, RS, US and the space. *)
Definition isspace (c : char) : bool :=
  if isascii c then ascii_isspace c else uni_isspace c.

Definition isalpha_char (c : char) : bool :=
  if isascii c then ascii_isupper c || ascii_islower c else uni_isalpha c.

(** [c.isalnum()]: [c.isalpha()], [c.isdecimal()], [c.isdigit()] or
    [c.isnumeric()]. *)
Definition isalnum (c : char) : bool :=
  isalpha_char c || (if isascii c then ascii_isdigit c else uni_isnumber c).

(** The lower case of the character [c] of a string, between [before] and
    [after]. *)
Definition lower_char (before : str) (c : char) (after : str) : str :=
  if isascii c then [if ascii_isupper c then (c + 32)%N else c]
  else uni_lower before c after.

(** [c.upper()] *)
Definition upper_char (c : char) : str :=
  if isascii c then [if ascii_islower c then (c - 32)%N else c]
  else uni_upper c.

Definition title_char (c : char) : str :=
  if isascii c then upper_char c else uni_title c.

(** The lower case of the part [s] of a string that follows [before]. *)
Fixpoint lower_from (before s : str) : str :=
  match s with
  | [] => []
  | c :: s' => lower_char before c s' ++ lower_from (before ++ [c]) s'
  end.

(** [s.lower()] *)
Definition lower (s : str) : str := lower_from [] s.

(** [s.upper()] *)
Definition upper (s : str) : str := s ≫= upper_char.

(** [s.isalpha()]: every character alphabetic and at least one of them. *)
Definition isalpha (s : str) : bool :=
  match s with
  | [] => false
  | _ => all isalpha_char s
  end.

(** [s.capitalize()]: the first character in title case, the rest in
    lower case. *)
Definition capitalize (s : str) : str :=
  match s with
  | [] => []
  | c :: s' => title_char c ++ lower_from [c] s'
  end.

Fixpoint lstrip (s : str) : str :=
  match s with
  | [] => []
  | c :: s' => if isspace c then lstrip s' else s
  end.

Fixpoint rstrip (s : str) : str :=
  match s with
  | [] => []
  | c :: s' =>
      match rstrip s' with
      | [] => if isspace c then [] else [c]
      | r => c :: r
      end
  end.

(** [s.strip()] *)
Definition strip (s : str) : str := rstrip (lstrip s).

(** [s.split()]: the maximal runs of characters that are not white
    space.  [cur] is the run being read. *)
Fixpoint split_whitespace_from (cur : option str) (s : str) : list str :=
  match s with
  | [] => option_list cur
  | c :: s' =>
      if isspace c then option_list cur ++ split_whitespace_from None s'
      else split_whitespace_from (Some (from_option (λ w, w ++ [c]) [c] cur)) s'
  end.

Definition split_whitespace (s : str) : list str :=
  split_whitespace_from None s.

End methods.

(** [s.startswith(pre)] *)
Fixpoint startswith (s pre : str) : bool :=
  match pre, s with
  | [], _ => true
  | _ :: _, [] => false
  | a :: pre', b :: s' =>
      if N.eqb a b then startswith s' pre' else false
  end.

(** [s.endswith(suf)]: some tail of [s] is [suf]. *)
Fixpoint endswith (s suf : str) : bool :=
  if bool_decide (s = suf) then true
  else match s with
       | [] => false
       | _ :: s' => endswith s' suf
       end.

(** [s.replace(old, new)] for a non-empty [old]: one pass from the left,
    occurrences do not overlap.  [skip] counts the characters of the
    occurrence just replaced that are still to be passed over. *)
Fixpoint replace_from (old new : str) (skip : nat) (s : str) : str :=
  match s with
  | [] => []
  | c :: s' =>
      match skip with
      | S k => replace_from old new k s'
      | O =>
          if startswith s old
          then new ++ replace_from old new (length old - 1) s'
          else c :: replace_from old new 0 s'
      end
  end.

(** For the empty [old], Python puts [new] before every character and at
    the end. *)
Fixpoint intersperse (new s : str) : str :=
  match s with
  | [] => new
  | c :: s' => new ++ c :: intersperse new s'
  end.

Definition replace (s old new : str) : str :=
  match old with
  | [] => intersperse new s
  | _ => replace_from old new 0 s
  end.

(** [s.split(sep)] for a one-character separator: the list is never
    empty, and two separators in a row give an empty item. *)
Fixpoint split (s : str) (sep : char) : list str :=
  match s with
  | [] => [[]]
  | c :: s' =>
      if N.eqb c sep then [] :: split s' sep
      else match split s' sep with
           | w :: ws => (c :: w) :: ws
           | [] => [[c]]
           end
  end.

(** [l[-1]] and [l[0]] on a list of strings known to be non-empty. *)
Definition last_item (l : list str) : str := default [] (last l).
Definition first_item (l : list str) : str := default [] (head l).

(** The order of the keys in a listing of the store: by code points. *)
Fixpoint leb (s t : str) : bool :=
  match s, t with
  | [], _ => true
  | _ :: _, [] => false
  | a :: s', b :: t' => (a <? b)%N || (N.eqb a b && leb s' t')
  end.

Definition le (s t : str) : Prop := leb s t = true.

Global Instance le_dec : RelDecision le.
Proof. intros s t. unfold le. apply _. Defined.

End PyStr.


(** ** Exceptions and fallible results *)

Inductive exn :=
| KeyError (key : str)
| ClientError (code operation message : str)
| PyMongoError (message : str)
| Exception (message : str).

(** [str(e)] *)
Definition str_exn (e : exn) : str :=
  match e with
  | KeyError k => "'" ++ k ++ "'"
  | ClientError code op msg =>
      "An error occurred (" ++ code ++ ") when calling the " ++ op
        ++ " operation: " ++ msg
  | PyMongoError msg => msg
  | Exception msg => msg
  end.

Inductive result (A : Type) :=
| Ok (a : A)
| Raised (e : exn).
Arguments Ok {A} a.
Arguments Raised {A} e.

Global Instance result_ret : MRet result := λ A a, Ok a.
Global Instance result_bind : MBind result := λ A B f m,
  match m with
  | Ok a => f a
  | Raised e => Raised e
  end.

Definition is_Ok {A} (m : result A) : Prop :=
  match m with Ok _ => True | Raised _ => False end.

(** [d[k]] on a dictionary whose field may be absent. *)
Definition getitem {A} (field : str) (v : option A) : result A :=
  match v with
  | Some a => Ok a
  | None => Raised (KeyError field)
  end.

(** ** voice_server.py *)

(** Instants of time; their formatting is the library's. *)
Definition DateTime := Z.

(** The configuration and the library functions the server calls. *)
Record Env := {
  BUCKET_NAME : str;
  AWS_REGION : str;
  (** [t.strftime(fmt)] *)
  strftime : DateTime → str → str;
  (** [str(round(size / 1024, 1))], a float computation *)
  round_kb : Z → str;
  (** NLTK's [word_tokenize], which raises when its data is missing *)
  word_tokenize : str → result (list str);
  (** the failure of a HEAD request on a key for a reason other than the
      absence of the key (access denied, the network), if it fails so *)
  head_fault : str → option exn
}.

(** An entry of the approved index: the dictionary with the fields
    "word", "key", "url" and "type". *)
Record VideoEntry := {
  v_word : str;
  v_key : str;
  v_url : str;
  v_type : str
}.

(** An entry of the pending index: the dictionary with the fields "key",
    "filename", "url", "date" and "size". *)
Record PendingEntry := {
  p_key : str;
  p_filename : str;
  p_url : str;
  p_date : str;
  p_size : str
}.

Global Instance VideoEntry_eq_dec : EqDecision VideoEntry.
Proof. solve_decision. Defined.
Global Instance PendingEntry_eq_dec : EqDecision PendingEntry.
Proof. solve_decision. Defined.

(** The module-level variables of the server. *)
Record State := {
  S3_AVAILABLE : bool;
  video_index : gmap str VideoEntry;
  pending_index : gmap str PendingEntry
}.

(** An item of a listing page: the dictionary boto3 returns for an object,
    read with [obj['Key']], [obj['LastModified']] and [obj['Size']]. *)
Record ListedObject := {
  obj_Key : option str;
  obj_LastModified : option DateTime;
  obj_Size : option Z
}.

(** A page of [list_objects_v2]; the field 'Contents' is absent when the
    page lists nothing. *)
Record Page := { Contents : option (list ListedObject) }.

(** What iterating [paginator.paginate(...)] gives: pages one by one, until
    the listing ends or a request raises. *)
Inductive PageIter :=
| PagesEnd
| PagesYield (page : Page) (rest : PageIter)
| PagesRaise (e : exn).

(** The objects of the bucket: their content and modification time. *)
Record StoredObject := {
  Body : str;
  LastModified : DateTime
}.

Section voice_server.
Context `{tables : Unicode} (env : Env).

Definition get_public_url (key : str) : str :=
  "https://" ++ BUCKET_NAME env ++ ".s3." ++ AWS_REGION env
    ++ ".amazonaws.com/" ++ key.

(** The word of a key: the expression of lines 93-94, by name. *)
Definition derived_word (key : str) : str :=
  let filename := PyStr.last_item (PyStr.split key "/") in
  PyStr.strip (PyStr.replace (PyStr.lower (PyStr.replace filename ".mp4" "")) "_" " ").

(** The body of the inner loop of [index_s3_files] (lines 79-101), on the
    two local dictionaries [v_idx] and [p_idx]. *)
Definition index_object (obj : ListedObject)
    (idx : gmap str VideoEntry * gmap str PendingEntry)
    : result (gmap str VideoEntry * gmap str PendingEntry) :=
  let '(v_idx, p_idx) := idx in
  key ← getitem "Key" (obj_Key obj);
  if negb (PyStr.endswith key ".mp4") then mret (v_idx, p_idx)
  else if PyStr.startswith key "pending/" then
    let filename := PyStr.last_item (PyStr.split key "/") in
    modified ← getitem "LastModified" (obj_LastModified obj);
    size ← getitem "Size" (obj_Size obj);
    mret (v_idx,
          <[key := {| p_key := key;
                      p_filename := filename;
                      p_url := get_public_url key;
                      p_date := strftime env modified "%Y-%m-%d %H:%M";
                      p_size := round_kb env size ++ " KB" |}]> p_idx)
  else
    let filename := PyStr.last_item (PyStr.split key "/") in
    let word :=
      PyStr.strip (PyStr.replace (PyStr.lower (PyStr.replace filename ".mp4" "")) "_" " ") in
    if bool_decide (word ≠ "") then
      mret (<[word := {| v_word := word;
                         v_key := key;
                         v_url := get_public_url key;
                         v_type := if 1 <? length word then "word" else "letter" |}]> v_idx,
            p_idx)
    else mret (v_idx, p_idx).

(** [for obj in page['Contents']] *)
Fixpoint index_contents (objs : list ListedObject)
    (idx : gmap str VideoEntry * gmap str PendingEntry)
    : result (gmap str VideoEntry * gmap str PendingEntry) :=
  match objs with
  | [] => mret idx
  | obj :: rest => idx' ← index_object obj idx; index_contents rest idx'
  end.

(** [for page in paginator.paginate(Bucket=BUCKET_NAME)] *)
Fixpoint index_pages (pages : PageIter)
    (idx : gmap str VideoEntry * gmap str PendingEntry)
    : result (gmap str VideoEntry * gmap str PendingEntry) :=
  match pages with
  | PagesEnd => mret idx
  | PagesRaise e => Raised e
  | PagesYield page rest =>
      idx' ← match Contents page with
             | Some objs => index_contents objs idx
             | None => mret idx
             end;
      index_pages rest idx'
  end.

(** [index_s3_files]: the two dictionaries are built from empty ones and
    assigned to the globals after the loop; an exception leaves the
    globals as they were (it is logged). *)
Definition index_s3_files (st : State) (pages : PageIter) : State :=
  if negb (S3_AVAILABLE st) then st
  else
    match index_pages pages (∅, ∅) with
    | Ok (v_idx, p_idx) =>
        {| S3_AVAILABLE := S3_AVAILABLE st;
           video_index := v_idx;
           pending_index := p_idx |}
    | Raised e => st
    end.

(** The loop of [check_duplicate] over the keys of the pending index. *)
Fixpoint pending_has (keys : list str) (target_filename : str) : bool :=
  match keys with
  | [] => false
  | p_key :: rest =>
      if PyStr.endswith p_key ("/" ++ target_filename) then true
      else pending_has rest target_filename
  end.

Definition check_duplicate (st : State) (name : str) : option str :=
  let base_name := PyStr.replace (PyStr.lower (PyStr.strip name)) " " "_" in
  let search_word := PyStr.replace base_name "_" " " in
  if bool_decide (is_Some (video_index st !! search_word))
  then Some ("Video '" ++ search_word ++ "' already exists in Approved.")
  else
    let target_filename := base_name ++ ".mp4" in
    if pending_has (fst <$> map_to_list (pending_index st)) target_filename
    then Some ("Video '" ++ search_word ++ "' is already in Pending.")
    else None.

(** The name cleaning of the upload and rename handlers (lines 232-233,
    265-266 and 289-290, which are the same two statements). *)
Definition clean_name (name : str) : str :=
  let clean_name := PyStr.replace (PyStr.lower (PyStr.strip name)) " " "_" in
  PyStr.filter (λ c, PyStr.isalnum c || N.eqb c "_"%pychar) clean_name.

(** *** The object store

    The bucket is a finite map from keys to objects.  The client calls
    thread the bucket.  A copy, a deletion or an upload raises only for
    the reasons the service documents (a missing key, a copy of an object
    onto itself); a HEAD request can fail for other reasons too, which
    [admin_edit] does not tell from the absence of the key. *)
Definition S3 (A : Type) : Type :=
  gmap str StoredObject → result A * gmap str StoredObject.

Definition s3_ret {A} (a : A) : S3 A := λ bucket, (Ok a, bucket).

Definition s3_bind {A B} (m : S3 A) (f : A → S3 B) : S3 B := λ bucket,
  match m bucket with
  | (Ok a, bucket') => f a bucket'
  | (Raised e, bucket') => (Raised e, bucket')
  end.

(** [s3_client.head_object(Bucket=BUCKET_NAME, Key=key)] *)
Definition head_object (key : str) : S3 StoredObject := λ bucket,
  match head_fault env key with
  | Some e => (Raised e, bucket)
  | None =>
      match bucket !! key with
      | Some obj => (Ok obj, bucket)
      | None => (Raised (ClientError "404" "HeadObject" "Not Found"), bucket)
      end
  end.

(** [s3_client.copy_object(..., CopySource={..., 'Key': source}, Key=key)]:
    the store refuses to copy an object onto itself unchanged. *)
Definition copy_object (now : DateTime) (source key : str) : S3 () := λ bucket,
  match bucket !! source with
  | None =>
      (Raised (ClientError "NoSuchKey" "CopyObject" "The specified key does not exist."),
       bucket)
  | Some obj =>
      if bool_decide (source = key)
      then (Raised (ClientError "InvalidRequest" "CopyObject"
                      "This copy request is illegal because it is trying to copy an object to itself without changing the object's metadata, storage class, website redirect location or encryption attributes."),
            bucket)
      else (Ok (), <[key := {| Body := Body obj; LastModified := now |}]> bucket)
  end.

(** [s3_client.delete_object(Bucket=BUCKET_NAME, Key=key)]: deleting an
    absent key is not an error. *)
Definition delete_object (key : str) : S3 () := λ bucket,
  (Ok (), delete key bucket).

(** [s3_client.upload_file(path, BUCKET_NAME, key, ...)] *)
Definition s3_upload_file (now : DateTime) (body key : str) : S3 () := λ bucket,
  (Ok (), <[key := {| Body := body; LastModified := now |}]> bucket).

(** Pages hold at most [MaxKeys] objects. *)
Definition MaxKeys : nat := 1000.

(** Cuts a list into pages: [room] is the room left on the page [cur]. *)
Fixpoint chunks_from {A} (size room : nat) (cur l : list A) : list (list A) :=
  match l with
  | [] => match cur with [] => [] | _ => [cur] end
  | x :: l' =>
      match room with
      | O => cur :: chunks_from size (size - 1) [x] l'
      | S room' => chunks_from size room' (cur ++ [x]) l'
      end
  end.

Definition listed_object (bucket : gmap str StoredObject) (key : str)
    : option ListedObject :=
  obj ← bucket !! key;
  Some {| obj_Key := Some key;
          obj_LastModified := Some (LastModified obj);
          obj_Size := Some (Z.of_nat (length (Body obj))) |}.

(** [paginator.paginate(Bucket=BUCKET_NAME)] on the bucket: the objects
    by increasing key; an empty bucket gives one page without 'Contents'. *)
Definition paginate (bucket : gmap str StoredObject) : PageIter :=
  let keys := merge_sort PyStr.le (fst <$> map_to_list bucket) in
  match chunks_from MaxKeys MaxKeys [] (omap (listed_object bucket) keys) with
  | [] => PagesYield {| Contents := None |} PagesEnd
  | pages =>
      foldr (λ objs rest, PagesYield {| Contents := Some objs |} rest) PagesEnd pages
  end.

(** *** The handlers *)

Record Request := { cookies : gmap str str }.

Definition check_auth (request : Request) : bool :=
  bool_decide (cookies request !! "admin_session" = Some "active").

Inductive Response :=
| RedirectResponse (url : str) (status_code : nat)
| HTTPException (status_code : nat) (detail : str)
| JSONResponse (content : list (str * str)).

(** An uploaded file; reading it may fail. *)
Record UploadFile := { read : result str }.

Definition admin_action (request : Request) (key action : str) (now : DateTime)
    (w : State * gmap str StoredObject) : Response * (State * gmap str StoredObject) :=
  let '(st, bucket) := w in
  if negb (check_auth request) then (RedirectResponse "/login" 307, w)
  else if negb (S3_AVAILABLE st) then (HTTPException 500 "S3 Offline", w)
  else
    let calls : S3 () :=
      if bool_decide (action = "approve") then
        let filename := PyStr.last_item (PyStr.split key "/") in
        s3_bind (copy_object now key filename) (λ _, delete_object key)
      else if bool_decide (action = "reject") then delete_object key
      else s3_ret () in
    match calls bucket with
    | (Ok _, bucket') =>
        (RedirectResponse "/admin" 303, (index_s3_files st (paginate bucket'), bucket'))
    | (Raised e, bucket') =>
        (RedirectResponse ("/admin?error=" ++ str_exn e) 303, (st, bucket'))
    end.

Definition admin_delete (request : Request) (key : str)
    (w : State * gmap str StoredObject) : Response * (State * gmap str StoredObject) :=
  let '(st, bucket) := w in
  if negb (check_auth request) then (RedirectResponse "/login" 307, w)
  else if negb (S3_AVAILABLE st) then (HTTPException 500 "S3 Offline", w)
  else
    match delete_object key bucket with
    | (Ok _, bucket') =>
        (RedirectResponse "/admin?success=Deleted" 303,
         (index_s3_files st (paginate bucket'), bucket'))
    | (Raised e, bucket') =>
        (RedirectResponse ("/admin?error=" ++ str_exn e) 303, (st, bucket'))
    end.

Definition admin_edit (request : Request) (old_key new_name : str) (now : DateTime)
    (w : State * gmap str StoredObject) : Response * (State * gmap str StoredObject) :=
  let '(st, bucket) := w in
  if negb (check_auth request) then (RedirectResponse "/login" 307, w)
  else if negb (S3_AVAILABLE st) then (HTTPException 500 "S3 Offline", w)
  else
    let new_filename := clean_name new_name ++ ".mp4" in
    if bool_decide (new_filename = old_key) then (RedirectResponse "/admin" 303, w)
    else
      match head_object new_filename bucket with
      | (Ok _, bucket0) =>
          (RedirectResponse ("/admin?error=Name '" ++ new_name ++ "' already taken") 303,
           (st, bucket0))
      | (Raised _, bucket0) =>
          match s3_bind (copy_object now old_key new_filename)
                        (λ _, delete_object old_key) bucket0 with
          | (Ok _, bucket') =>
              (RedirectResponse "/admin?success=Renamed" 303,
               (index_s3_files st (paginate bucket'), bucket'))
          | (Raised e, bucket') =>
              (RedirectResponse ("/admin?error=" ++ str_exn e) 303, (st, bucket'))
          end
      end.

Definition admin_upload (request : Request) (file : UploadFile) (name : str)
    (now : DateTime) (w : State * gmap str StoredObject)
    : Response * (State * gmap str StoredObject) :=
  let '(st, bucket) := w in
  if negb (check_auth request) then (RedirectResponse "/login" 307, w)
  else if negb (S3_AVAILABLE st) then (HTTPException 500 "S3 Offline", w)
  else
    match check_duplicate st name with
    | Some err => (RedirectResponse ("/admin?error=" ++ err) 303, w)
    | None =>
        let filename := clean_name name ++ ".mp4" in
        match s3_bind (λ b, (read file, b))
                      (λ content, s3_upload_file now content filename) bucket with
        | (Ok _, bucket') =>
            (RedirectResponse "/admin?success=Uploaded" 303,
             (index_s3_files st (paginate bucket'), bucket'))
        | (Raised e, bucket') =>
            (RedirectResponse ("/admin?error=" ++ str_exn e) 303, (st, bucket'))
        end
    end.

Definition mobile_upload (file : UploadFile) (name : str) (now : DateTime)
    (w : State * gmap str StoredObject) : Response * (State * gmap str StoredObject) :=
  let '(st, bucket) := w in
  if negb (S3_AVAILABLE st) then (HTTPException 500 "S3 Offline", w)
  else
    match check_duplicate st name with
    | Some err => (HTTPException 400 err, w)
    | None =>
        let filename := clean_name name ++ ".mp4" in
        let key := "pending/" ++ filename in
        match s3_bind (λ b, (read file, b))
                      (λ content, s3_upload_file now content key) bucket with
        | (Ok _, bucket') =>
            (JSONResponse [("message", "Video uploaded for review!"); ("status", "pending")],
             ({| S3_AVAILABLE := S3_AVAILABLE st;
                 video_index := video_index st;
                 pending_index :=
                   <[key := {| p_key := key;
                               p_filename := filename;
                               p_url := get_public_url key;
                               p_date := strftime env now "%Y-%m-%d %H:%M";
                               p_size := "New" |}]> (pending_index st) |},
              bucket'))
        | (Raised e, bucket') => (HTTPException 500 (str_exn e), (st, bucket'))
        end
    end.

(** *** The translate endpoint *)

(** What the transcription of an uploaded audio came to (lines 324-380):
    the recognized text, or one of the failures the handler tells apart;
    [heard] is the text recognized before a failure of the clean-up. *)
Inductive Transcription :=
| Recognized (text : str)
| NoRecognizer
| UnknownValueError
| RequestError (e : str)
| TranscriptionFailed (heard : str) (e : exn).

Inductive TranslateResponse :=
| TranslateError (error : str) (videos : list VideoEntry)
| Translated (transcribed_text : str) (keywords : list str)
             (videos : list VideoEntry).

(** [for char in word] (lines 401-406), appending to [videos]. *)
Fixpoint translate_letters (index : gmap str VideoEntry) (word : str)
    (videos : list VideoEntry) : list VideoEntry :=
  match word with
  | [] => videos
  | c :: rest =>
      let char := [c] in
      translate_letters index rest
        match index !! char with
        | Some entry =>
            let v := {| v_word := PyStr.upper char;
                        v_key := v_key entry;
                        v_url := v_url entry;
                        v_type := "letter" |} in
            videos ++ [v]
        | None => videos
        end
  end.

(** [for word in lower_words] (lines 397-406), appending to [videos]. *)
Fixpoint translate_words (index : gmap str VideoEntry) (lower_words : list str)
    (videos : list VideoEntry) : list VideoEntry :=
  match lower_words with
  | [] => videos
  | word :: rest =>
      translate_words index rest
        match index !! word with
        | Some entry => videos ++ [entry]
        | None => translate_letters index word videos
        end
  end.

(** Lines 387-394: the key words of the text and their lower-case forms. *)
Definition keywords_of (processed : str) : list str :=
  match word_tokenize env processed with
  | Ok tokens => List.filter PyStr.isalpha tokens
  | Raised _ => List.filter PyStr.isalpha (PyStr.split_whitespace processed)
  end.

(** Lines 385-408. *)
Definition translate_text (st : State) (text : str) : TranslateResponse :=
  match text with
  | [] => Translated "" [] []
  | _ =>
      let processed := PyStr.capitalize text in
      let keywords := keywords_of processed in
      let lower_words := PyStr.lower <$> keywords in
      Translated processed keywords (translate_words (video_index st) lower_words [])
  end.

Definition truthy (s : option str) : bool :=
  match s with
  | None | Some [] => false
  | Some _ => true
  end.

Definition translate (st : State) (sentence : option str)
    (audio : option Transcription) : TranslateResponse :=
  let heard : TranslateResponse + str :=
    match audio with
    | None | Some NoRecognizer => inr ""
    | Some (Recognized text) => inr text
    | Some UnknownValueError =>
        if negb (truthy sentence)
        then inl (TranslateError "Could not understand audio. Please speak clearly." [])
        else inr ""
    | Some (RequestError _) =>
        if negb (truthy sentence)
        then inl (TranslateError "Speech service unavailable." [])
        else inr ""
    | Some (TranscriptionFailed heard e) =>
        if negb (truthy sentence)
        then inl (TranslateError ("Transcription failed: " ++ str_exn e) [])
        else inr heard
    end in
  match heard with
  | inl response => response
  | inr text =>
      let text :=
        match sentence with
        | Some (c :: s) =>
            match text with
            | [] => PyStr.strip (c :: s)
            | _ => text ++ " " ++ PyStr.strip (c :: s)
            end
        | _ => text
        end in
      translate_text st text
  end.

End voice_server.

(** ** Values and records of the two databases *)

(** Python floats are taken as the rationals they denote. *)
Definition float := QArith_base.Q.

Inductive PyVal :=
| VNone
| VStr (s : str)
| VFloat (x : float)
| VTimestamp (t : DateTime)
| VObjectId (n : nat).

Global Instance float_eq_dec : EqDecision float.
Proof. unfold float. solve_decision. Defined.
Global Instance PyVal_eq_dec : EqDecision PyVal.
Proof. unfold DateTime. solve_decision. Defined.

(** A video record, as a document of the collection or as a row of the
    table: the fields with their values, in order. *)
Definition VideoRecord := list (str * PyVal).

Fixpoint get_field (field : str) (r : VideoRecord) : option PyVal :=
  match r with
  | [] => None
  | (f, v) :: r' => if bool_decide (f = field) then Some v else get_field field r'
  end.

Definition fields (r : VideoRecord) : list str := fst <$> r.

(** The record has [word] and [language] in its fields "word" and
    "language". *)
Definition has_key (word language : str) (r : VideoRecord) : bool :=
  bool_decide (get_field "word" r = Some (VStr word))
  && bool_decide (get_field "language" r = Some (VStr language)).

(** ** push_dataset_to_s3.py *)

(** What one connection attempt (the client and its ping) comes to:
    [Refused] stands for a [PyMongoError], [Crashed] for any other
    exception, which [connect_mongo] does not catch. *)
Inductive Attempt :=
| Connected
| Refused (e : str)
| Crashed (e : exn).

(** What [connect_mongo] does that can be observed from outside. *)
Inductive Event :=
| Connect (attempt : nat)
| Wait (seconds : nat).

(** [for attempt in range(1, 4)]: [server] answers the attempts, [log]
    holds the events so far.  The result comes with the new value of the
    global [collection] (held or not). *)
Fixpoint connect_attempts (server : nat → Attempt) (attempts : list nat)
    (log : list Event) : result bool * bool * list Event :=
  match attempts with
  | [] => (Ok false, false, log)
  | attempt :: rest =>
      match server attempt with
      | Connected => (Ok true, true, log ++ [Connect attempt])
      | Crashed e => (Raised e, false, log ++ [Connect attempt])
      | Refused e =>
          connect_attempts server rest
            (log ++ [Connect attempt] ++ (if attempt <? 3 then [Wait 3] else []))
      end
  end.

Definition connect_mongo (collection : bool) (server : nat → Attempt)
    : result bool * bool * list Event :=
  if collection then (Ok true, true, [])
  else connect_attempts server (seq 1 3) [].

(** A file under the root folder: its path relative to the root, its
    content (reading may fail) and what [video_metadata] finds for it. *)
Record LocalFile := {
  parts : list str;
  content : result str;
  metadata : option float * option str
}.

(** The collection: its documents and the next object identifier. *)
Record Collection := {
  documents : list VideoRecord;
  next_id : nat
}.

(** [ReplaceOne(filter, doc, upsert=True)] with the filter on "word" and
    "language". *)
Record ReplaceOne := {
  filter_word : str;
  filter_language : str;
  replacement : VideoRecord
}.

(** The module-level variables of the script and the two services. *)
Record PushWorld := {
  S3_OK : bool;
  s3_bucket : gmap str StoredObject;
  collection : bool;
  mongo : Collection
}.

Section push_dataset.
Context `{tables : Unicode} (BUCKET : str).

(** [name.rfind(c)]; [None] stands for -1. *)
Fixpoint rfind (s : str) (c : char) : option nat :=
  match s with
  | [] => None
  | a :: s' =>
      match rfind s' c with
      | Some i => Some (S i)
      | None => if N.eqb a c then Some 0 else None
      end
  end.

(** [s[:i]] *)
Fixpoint slice_to (i : nat) (s : str) : str :=
  match i, s with
  | S i', c :: s' => c :: slice_to i' s'
  | _, _ => []
  end.

(** [Path.stem] of pathlib on a file name. *)
Definition stem (name : str) : str :=
  match rfind name "." with
  | Some i =>
      if (0 <? i) && (i <? length name - 1) then slice_to i name else name
  | None => name
  end.

(** [s3_exists]; the store answers a missing key with 404. *)
Definition s3_exists (w : PushWorld) (key : str) : bool :=
  if negb (S3_OK w) then false
  else bool_decide (is_Some (s3_bucket w !! key)).

Definition upload_file (now : DateTime) (local_path : LocalFile) (key : str)
    (dry_run : bool) (w : PushWorld) : option str * PushWorld :=
  if negb (S3_OK w) then (None, w)
  else if s3_exists w key
  then (Some ("https://" ++ BUCKET ++ ".s3.amazonaws.com/" ++ key), w)
  else if dry_run
  then (Some ("https://" ++ BUCKET ++ ".s3.amazonaws.com/" ++ key), w)
  else
    match content local_path with
    | Ok body =>
        (Some ("https://" ++ BUCKET ++ ".s3.amazonaws.com/" ++ key),
         {| S3_OK := S3_OK w;
            s3_bucket := <[key := {| Body := body; LastModified := now |}]> (s3_bucket w);
            collection := collection w;
            mongo := mongo w |})
    | Raised _ => (None, w)
    end.

(** [collection.find_one({"word": word, "language": language})] *)
Definition find_one (word language : str) (c : Collection) : option VideoRecord :=
  List.find (has_key word language) (documents c).

Definition from_float (x : option float) : PyVal :=
  match x with Some d => VFloat d | None => VNone end.

Definition from_str (x : option str) : PyVal :=
  match x with Some s => VStr s | None => VNone end.

(** The counters and the pending operations of the loop. *)
Record PushLoop := {
  mongo_ops : list ReplaceOne;
  total_uploaded : nat;
  total_skipped : nat
}.

(** The body of the loop of [push_dataset] (lines 159-198). *)
Definition push_file (now : DateTime) (dry_run mongo_ok : bool) (file_path : LocalFile)
    (acc : PushLoop * PushWorld) : PushLoop * PushWorld :=
  let '(loop, w) := acc in
  let language :=
    if 1 <? length (parts file_path)
    then PyStr.upper (PyStr.first_item (parts file_path))
    else "PSL" in
  let word := PyStr.lower (stem (PyStr.last_item (parts file_path))) in
  let key := language ++ "/" ++ word ++ ".mp4" in
  match upload_file now file_path key dry_run w with
  | (None, w') => (loop, w')
  | (Some url, w') =>
      if mongo_ok then
        match find_one word language (mongo w') with
        | Some _ =>
            ({| mongo_ops := mongo_ops loop;
                total_uploaded := total_uploaded loop;
                total_skipped := total_skipped loop + 1 |}, w')
        | None =>
            let '(duration, resolution) := metadata file_path in
            let doc := [("word", VStr word);
                        ("language", VStr language);
                        ("file_path", VStr url);
                        ("type", VStr (if 1 <? length word then "word" else "letter"));
                        ("duration", from_float duration);
                        ("resolution", from_str resolution)] in
            ({| mongo_ops := mongo_ops loop ++
                  [{| filter_word := word; filter_language := language;
                      replacement := doc |}];
                total_uploaded := total_uploaded loop + 1;
                total_skipped := total_skipped loop |}, w')
        end
      else
        ({| mongo_ops := mongo_ops loop;
            total_uploaded := total_uploaded loop + 1;
            total_skipped := total_skipped loop |}, w')
  end.

(** One [ReplaceOne] with [upsert=True] on the documents: the first
    document that matches is replaced and keeps its "_id"; without a
    match the replacement is inserted under a new "_id". *)
Fixpoint replace_first (op : ReplaceOne) (docs : list VideoRecord) : option (list VideoRecord) :=
  match docs with
  | [] => None
  | d :: rest =>
      if has_key (filter_word op) (filter_language op) d
      then Some ((("_id", default VNone (get_field "_id" d)) :: replacement op) :: rest)
      else cons d <$> replace_first op rest
  end.

Definition replace_one (op : ReplaceOne) (c : Collection) : Collection :=
  match replace_first op (documents c) with
  | Some docs => {| documents := docs; next_id := next_id c |}
  | None =>
      {| documents := documents c ++ [("_id", VObjectId (next_id c)) :: replacement op];
         next_id := S (next_id c) |}
  end.

(** [collection.bulk_write(ops)], in order.  [budget] is the number of
    operations the server applies before it fails with a [PyMongoError]
    ([None]: it does not fail); the error is caught and logged. *)
Fixpoint bulk_write (ops : list ReplaceOne) (budget : option nat) (c : Collection)
    : Collection :=
  match ops with
  | [] => c
  | op :: rest =>
      match budget with
      | Some O => c
      | Some (S n) => bulk_write rest (Some n) (replace_one op c)
      | None => bulk_write rest None (replace_one op c)
      end
  end.

(** [push_dataset]: [root] lists the files under the root folder ([None]
    when it is not a directory).  A crash of [connect_mongo] ends the
    script. *)
Definition push_dataset (now : DateTime) (server : nat → Attempt) (budget : option nat)
    (root : option (list LocalFile)) (dry_run : bool) (w : PushWorld)
    : result PushLoop * PushWorld :=
  match root with
  | None => (Ok {| mongo_ops := []; total_uploaded := 0; total_skipped := 0 |}, w)
  | Some tree =>
      let '(connected, held, _) := connect_mongo (collection w) server in
      let w := {| S3_OK := S3_OK w; s3_bucket := s3_bucket w;
                  collection := held; mongo := mongo w |} in
      match connected with
      | Raised e => (Raised e, w)
      | Ok mongo_ok =>
          let matching :=
            List.filter (λ f, PyStr.endswith (PyStr.last_item (parts f)) ".mp4") tree in
          let '(loop, w') :=
            foldl (λ acc file_path, push_file now dry_run mongo_ok file_path acc)
                  ({| mongo_ops := []; total_uploaded := 0; total_skipped := 0 |}, w)
                  matching in
          if mongo_ok && bool_decide (mongo_ops loop ≠ [])
          then (Ok loop,
                {| S3_OK := S3_OK w'; s3_bucket := s3_bucket w';
                   collection := collection w';
                   mongo := bulk_write (mongo_ops loop) budget (mongo w') |})
          else (Ok loop, w')
      end
  end.

End push_dataset.

(** ** populate_database.py *)

(** What [VideoFileClip] reads from a file. *)
Record Clip := {
  clip_duration : float;
  clip_w : nat;
  clip_h : nat
}.

(** A file of a video directory; [clip] is [None] when opening it as a
    video raises. *)
Record VideoFile := {
  filename : str;
  clip : option Clip
}.

(** Modelled from the spec: the declaration of the table [videos] is not in
    the repository; the data model says that word and language together
    identify a record, so the table is taken with a uniqueness constraint
    on the columns "word" and "language". *)
Definition videos_unique : list str := ["word"; "language"].

(** Two rows are in conflict when they agree on the columns of the
    constraint; a NULL agrees with nothing. *)
Definition conflicts (r1 r2 : VideoRecord) : bool :=
  forallb (λ column,
             match get_field column r1 with
             | Some v => negb (bool_decide (v = VNone))
                         && bool_decide (get_field column r2 = Some v)
             | None => false
             end) videos_unique.

(** [INSERT OR REPLACE INTO videos ...]: the rows in conflict with the new
    one are deleted, then the new row is inserted. *)
Definition insert_or_replace (row : VideoRecord) (table : list VideoRecord) : list VideoRecord :=
  List.filter (λ r, negb (conflicts r row)) table ++ [row].

Section populate_database.
Context `{tables : Unicode}.

(** The body of the inner loop of [populate_database] (lines 26-57). *)
Definition populate_file (now : DateTime) (language : str) (f : VideoFile)
    (table : list VideoRecord) : list VideoRecord :=
  if PyStr.endswith (filename f) ".mp4" then
    let word := PyStr.lower (PyStr.first_item (PyStr.split (filename f) ".")) in
    let video_type := if 1 <? length word then "word" else "letter" in
    let '(duration, resolution) :=
      match clip f with
      | Some c =>
          (Some (clip_duration c),
           Some (of_string (pretty (clip_w c)) ++ "x" ++ of_string (pretty (clip_h c))))
      | None => (None, None)
      end in
    insert_or_replace
      [("word", VStr word);
       ("language", VStr language);
       ("file_path", VStr ("/videos/" ++ language ++ "/" ++ filename f));
       ("type", VStr video_type);
       ("duration", from_float duration);
       ("resolution", from_str resolution);
       ("updated_at", VTimestamp now)]
      table
  else table.

(** [populate_database]: a directory is given by its listing, [None] when
    the path does not exist; [now] is the database's CURRENT_TIMESTAMP. *)
Definition populate_database (now : DateTime) (video_dirs : list (option (list VideoFile)))
    (languages : list str) (table : list VideoRecord) : list VideoRecord :=
  match video_dirs, languages with
  | [], _ | _, [] => table
  | _, _ =>
      foldl (λ table '(language, video_dir),
               match video_dir with
               | None => table
               | Some listing =>
                   foldl (λ table f, populate_file now language f table) table listing
               end)
            table (zip languages video_dirs)
  end.

End populate_database.

(** ** The persistent stores together *)

Record Stores := {
  sql_videos : list VideoRecord;
  mongo_videos : Collection
}.

Section stores.
Context `{tables : Unicode}.

(** A run of the populator on the stores. *)
Definition run_populate_database (now : DateTime)
    (video_dirs : list (option (list VideoFile))) (languages : list str)
    (s : Stores) : Stores :=
  {| sql_videos := populate_database now video_dirs languages (sql_videos s);
     mongo_videos := mongo_videos s |}.

(** A run of the dataset push on the stores, with the script's own
    variables and the bucket as they are at its start. *)
Definition run_push_dataset (BUCKET : str) (now : DateTime) (server : nat → Attempt)
    (budget : option nat) (root : option (list LocalFile)) (dry_run : bool)
    (S3_OK : bool) (bucket : gmap str StoredObject) (s : Stores) : Stores :=
  let w := {| S3_OK := S3_OK; s3_bucket := bucket; collection := false;
              mongo := mongo_videos s |} in
  {| sql_videos := sql_videos s;
     mongo_videos := mongo (snd (push_dataset BUCKET now server budget root dry_run w)) |}.

End stores.

(** * Properties *)

(** ** The string methods on examples *)

Example replace_mp4 : PyStr.replace "..mp4mp4" ".mp4" "" = ".mp4".
Proof. reflexivity. Qed.
Example replace_overlap : PyStr.replace "aaa" "aa" "b" = "ba".
Proof. reflexivity. Qed.
Example split_slash : PyStr.split "a//b/" "/" = ["a"; ""; "b"; ""].
Proof. reflexivity. Qed.
Example endswith_mp4 :
  PyStr.endswith "pending/a.mp4" ".mp4" = true ∧ PyStr.endswith "mp4" ".mp4" = false.
Proof. split; reflexivity. Qed.
Example stem_names :
  stem ".mp4" = ".mp4" ∧ stem "a.mp4" = "a" ∧ stem "..mp4" = "." ∧ stem "a.b.mp4" = "a.b".
Proof. repeat split; reflexivity. Qed.

(** On ASCII text the methods do not read the tables. *)
Example split_whitespace_runs `{tables : Unicode} :
  PyStr.split_whitespace "  a  bc d " = ["a"; "bc"; "d"].
Proof. reflexivity. Qed.
Example strip_both_ends `{tables : Unicode} : PyStr.strip "  a b  " = "a b".
Proof. reflexivity. Qed.
Example capitalize_mixed `{tables : Unicode} : PyStr.capitalize "hELLO wORLD" = "Hello world".
Proof. reflexivity. Qed.

(** A few lines of the tables, for the examples: the no-break space
    (U+00A0), the superscript two (U+00B2), É (U+00C9), ß (U+00DF),
    é (U+00E9), İ (U+0130) and the combining dot above (U+0307). *)
Definition sample_tables : Unicode := {|
  uni_isspace c := bool_decide (c = 160%N);
  uni_isalpha c := bool_decide (c ∈ [201; 223; 233; 304]%N);
  uni_isnumber c := bool_decide (c = 178%N);
  uni_lower _ c _ :=
    if bool_decide (c = 201%N) then [233%N]
    else if bool_decide (c = 304%N) then [105; 775]%N
    else [c];
  uni_upper c :=
    if bool_decide (c = 233%N) then [201%N]
    else if bool_decide (c = 223%N) then "SS"
    else [c];
  uni_title c :=
    if bool_decide (c = 233%N) then [201%N]
    else if bool_decide (c = 223%N) then "Ss"
    else [c]
|}.

Section sample_methods.
#[local] Existing Instance sample_tables.

Example lower_cafe : PyStr.lower ("CAF" ++ [201%N]) = "caf" ++ [233%N].
Proof. reflexivity. Qed.
Example lower_dotted_i : PyStr.lower [304%N] = [105; 775]%N.
Proof. reflexivity. Qed.
Example upper_sharp_s : PyStr.upper ("stra" ++ [223%N] ++ "e") = "STRASSE".
Proof. reflexivity. Qed.
Example strip_no_break_space : PyStr.strip ([160%N] ++ "a" ++ [160%N]) = "a".
Proof. reflexivity. Qed.
Example isalpha_cafe :
  PyStr.isalpha ("Caf" ++ [233%N]) = true ∧ PyStr.isalpha ("x" ++ [178%N]) = false.
Proof. split; reflexivity. Qed.

End sample_methods.

(** ** Characters *)

(** Case analysis on the comparisons that the character classes make. *)
Ltac char_cases :=
  unfold PyStr.isalnum, PyStr.isalpha_char, PyStr.isspace, PyStr.lower_char,
    PyStr.upper_char, PyStr.title_char, PyStr.isascii, PyStr.ascii_isspace,
    PyStr.ascii_isupper, PyStr.ascii_islower, PyStr.ascii_isdigit in *;
  repeat match goal with
         | |- context [Literal.chr ?b] =>
             let v := eval vm_compute in (Literal.chr b) in change (Literal.chr b) with v
         | H : context [Literal.chr ?b] |- _ =>
             let v := eval vm_compute in (Literal.chr b) in change (Literal.chr b) with v in H
         end;
  repeat match goal with
         | |- context [(?a <? ?b)%N] => destruct (N.ltb_spec a b)
         | |- context [(?a <=? ?b)%N] => destruct (N.leb_spec a b)
         | |- context [(?a =? ?b)%N] => destruct (N.eqb_spec a b)
         | H : context [(?a <? ?b)%N] |- _ => destruct (N.ltb_spec a b)
         | H : context [(?a <=? ?b)%N] |- _ => destruct (N.leb_spec a b)
         | H : context [(?a =? ?b)%N] |- _ => destruct (N.eqb_spec a b)
         end;
  simpl in *; try done; try lia.

Section characters.
Context `{tables : Unicode}.

Lemma isalnum_not_slash c :
  PyStr.isalnum c || N.eqb c "_"%pychar = true → N.eqb c "/"%pychar = false.
Proof. intros Hc. char_cases. Qed.

Lemma isalnum_not_dot c :
  PyStr.isalnum c || N.eqb c "_"%pychar = true → N.eqb "."%pychar c = false.
Proof. intros Hc. char_cases. Qed.

Lemma isalnum_not_blank c :
  PyStr.isalnum c || N.eqb c "_"%pychar = true → N.eqb " "%pychar c = false.
Proof. intros Hc. char_cases. Qed.

End characters.

(** ** Strings *)

(** Literals as the lists of their characters. *)
Ltac literals := unfold Literal.cons, Literal.empty in *.

Lemma all_filter p s : PyStr.all p (PyStr.filter p s) = true.
Proof.
  induction s as [|c s IH]; simpl; [done|].
  destruct (p c) eqn:Hc; simpl; [rewrite Hc|]; done.
Qed.

Lemma all_impl (p q : char → bool) s :
  (∀ c, p c = true → q c = true) → PyStr.all p s = true → PyStr.all q s = true.
Proof.
  intros Hpq. induction s as [|c s IH]; simpl; [done|].
  intros [Hc Hs]%andb_true_iff. rewrite (Hpq _ Hc), IH; done.
Qed.

Lemma filter_all_id p s : PyStr.all p s = true → PyStr.filter p s = s.
Proof.
  induction s as [|c s IH]; simpl; [done|].
  intros [Hc Hs]%andb_true_iff. rewrite Hc, IH; done.
Qed.

Lemma all_Forall p s : PyStr.all p s = true ↔ Forall (λ c, p c = true) s.
Proof.
  induction s as [|c s IH]; simpl; [by split|].
  rewrite andb_true_iff, Forall_cons, IH. done.
Qed.

Lemma Forall_filter (P : char → Prop) p s : Forall P s → Forall P (PyStr.filter p s).
Proof.
  induction 1 as [|c s Hc _ IH]; simpl; [done|]. destruct (p c); [by constructor|done].
Qed.

Lemma fmap_fixed_id (f : char → char) (s : str) :
  Forall (λ c, f c = c) s → f <$> s = s.
Proof. induction 1 as [|c s Hc _ IH]; [done|]. cbn. by rewrite Hc, IH. Qed.

(** Replacing one character by another is a character-wise map. *)
Lemma replace_char s (a b : char) :
  PyStr.replace s [a] [b] = (λ c, if N.eqb a c then b else c) <$> s.
Proof.
  unfold PyStr.replace. induction s as [|c s IH]; [done|].
  cbn [PyStr.replace_from fmap list_fmap PyStr.startswith length Nat.sub].
  destruct (N.eqb a c) eqn:Hac.
  - destruct s; cbn [PyStr.startswith]; rewrite IH; reflexivity.
  - by rewrite IH.
Qed.

Section strip.
Context `{tables : Unicode}.

Lemma lstrip_no_space s :
  PyStr.all (λ c, negb (PyStr.isspace c)) s = true → PyStr.lstrip s = s.
Proof.
  destruct s as [|c s]; simpl; [done|].
  intros [Hc _]%andb_true_iff. apply negb_true_iff in Hc. by rewrite Hc.
Qed.

Lemma rstrip_no_space s :
  PyStr.all (λ c, negb (PyStr.isspace c)) s = true → PyStr.rstrip s = s.
Proof.
  induction s as [|c s IH]; simpl; [done|].
  intros [Hc Hs]%andb_true_iff. apply negb_true_iff in Hc.
  rewrite (IH Hs), Hc. by destruct s.
Qed.

Lemma strip_no_space s :
  PyStr.all (λ c, negb (PyStr.isspace c)) s = true → PyStr.strip s = s.
Proof.
  intros Hs. unfold PyStr.strip. rewrite (lstrip_no_space _ Hs). by apply rstrip_no_space.
Qed.

End strip.

(** ** Lower case *)

Section lower.
Context `{tables : Unicode}.

(** A character that [lower] leaves as it is, wherever it stands. *)
Definition lowered (c : char) : Prop :=
  ∀ before after, PyStr.lower_char before c after = [c].

Lemma lower_from_lowered s : ∀ before, Forall lowered s → PyStr.lower_from before s = s.
Proof.
  induction s as [|c s IH]; intros before Hs; [done|].
  apply Forall_cons in Hs as [Hc Hs]. cbn [PyStr.lower_from].
  by rewrite (Hc before s), (IH _ Hs).
Qed.

Lemma lower_lowered s : Forall lowered s → PyStr.lower s = s.
Proof. apply lower_from_lowered. Qed.

(** On the ASCII range, the characters other than the capital letters. *)
Lemma ascii_lowered c :
  PyStr.isascii c = true → PyStr.ascii_isupper c = false → lowered c.
Proof. intros Hc Hup before after. unfold PyStr.lower_char. by rewrite Hc, Hup. Qed.

(** What the development takes from the tables about [lower]: the
    characters of the lower case of a character are their own lower
    case. *)
Hypothesis lower_stable : ∀ before c after, Forall lowered (PyStr.lower_char before c after).

Lemma lower_from_stable s : ∀ before, Forall lowered (PyStr.lower_from before s).
Proof.
  induction s as [|c s IH]; intros before; [done|].
  cbn [PyStr.lower_from]. apply Forall_app. split; [apply lower_stable|apply IH].
Qed.

Lemma lower_stable_str s : Forall lowered (PyStr.lower s).
Proof. apply lower_from_stable. Qed.

End lower.

(** ** The cleaning of the names *)

Section clean_name.
Context `{tables : Unicode}.

(** The characters that [clean_name] lets through. *)
Definition clean_char (c : char) : bool := PyStr.isalnum c || N.eqb c "_"%pychar.

Lemma clean_name_chars name : PyStr.all clean_char (clean_name name) = true.
Proof. apply all_filter. Qed.

(** What the development takes from the tables about the classes: an
    alphanumeric character is not white space. *)
Hypothesis alnum_not_space : ∀ c, PyStr.isalnum c = true → PyStr.isspace c = false.
Hypothesis lower_stable : ∀ before c after, Forall lowered (PyStr.lower_char before c after).

Lemma clean_char_not_space c : clean_char c = true → PyStr.isspace c = false.
Proof.
  unfold clean_char. intros [Hc|Hc%N.eqb_eq]%orb_true_iff; [by apply alnum_not_space|].
  by subst c.
Qed.

Lemma clean_name_lowered name : Forall lowered (clean_name name).
Proof.
  unfold clean_name. apply Forall_filter. literals. rewrite replace_char.
  apply Forall_fmap. eapply Forall_impl; [apply (lower_stable_str lower_stable)|].
  intros c Hc. unfold compose. destruct (N.eqb " "%pychar c); [|done].
  by apply ascii_lowered.
Qed.

(** A string of clean characters in lower case is left as it is. *)
Lemma clean_name_fixed s :
  PyStr.all clean_char s = true → Forall lowered s → clean_name s = s.
Proof.
  intros Hs Hlow. unfold clean_name.
  assert (Hsp : PyStr.all (λ c, negb (PyStr.isspace c)) s = true).
  { eapply all_impl; [|exact Hs]. intros c Hc. by rewrite (clean_char_not_space _ Hc). }
  rewrite (strip_no_space _ Hsp), (lower_lowered _ Hlow). literals. rewrite replace_char.
  rewrite fmap_fixed_id.
  - by apply filter_all_id.
  - apply all_Forall in Hs. eapply Forall_impl; [exact Hs|].
    intros c Hc. cbv beta in Hc. by rewrite (isalnum_not_blank _ Hc).
Qed.

(** C10.  The cleaning of the names in the admin upload, the admin rename
    and the mobile upload (strip, lower-case, spaces to underscores, then
    only the alphanumeric characters and the underscores are kept) is
    idempotent on every string: cleaning a cleaned name gives it back.
    Beyond the ASCII range this rests on two facts of the Unicode tables:
    an alphanumeric character is not white space, and the characters of
    the lower case of a character are their own lower case. *)
Theorem clean_name_idempotent (name : str) :
  clean_name (clean_name name) = clean_name name.
Proof.
  apply clean_name_fixed; [apply clean_name_chars|apply clean_name_lowered].
Qed.

End clean_name.

(** The two facts on the sample tables. *)
Lemma sample_alnum_not_space c :
  @PyStr.isalnum sample_tables c = true → @PyStr.isspace sample_tables c = false.
Proof.
  unfold PyStr.isalnum, PyStr.isalpha_char, PyStr.isspace.
  destruct (PyStr.isascii c) eqn:Hascii; [intros Hc; char_cases|].
  cbn. intros [Hc|Hc]%orb_true_iff; apply bool_decide_eq_false; intros ->; done.
Qed.

Lemma sample_lower_stable before c after :
  Forall (@lowered sample_tables) (@PyStr.lower_char sample_tables before c after).
Proof.
  unfold PyStr.lower_char. destruct (PyStr.isascii c) eqn:Hascii.
  - apply Forall_singleton. apply ascii_lowered; char_cases.
  - cbn. repeat case_bool_decide; subst; repeat constructor;
      intros b a; unfold PyStr.lower_char; cbn;
      try done.
    rewrite Hascii. cbn. by rewrite !bool_decide_eq_false_2.
Qed.

Section clean_name_sample.
#[local] Existing Instance sample_tables.

Lemma clean_name_idempotent_sample :
  clean_name (" Caf" ++ [201%N] ++ " au_lait! ") = "caf" ++ [233%N] ++ "_au_lait"
  ∧ clean_name (clean_name (" Caf" ++ [201%N] ++ " au_lait! "))
    = clean_name (" Caf" ++ [201%N] ++ " au_lait! ").
Proof.
  split; [reflexivity|].
  apply (clean_name_idempotent sample_alnum_not_space sample_lower_stable).
Defined.

End clean_name_sample.

(** ** The translate endpoint *)

Section translate_per_word.
Context `{tables : Unicode}.

(** What the claim gives for one character of a word that is not in the
    index: the character's entry, retyped as a letter and renamed to the
    upper-case character, or nothing. *)
Definition letter_video (index : gmap str VideoEntry) (c : char) : list VideoEntry :=
match index !! [c] with
| Some entry =>
    [{| v_word := PyStr.upper [c];
        v_key := v_key entry;
        v_url := v_url entry;
        v_type := "letter" |}]
| None => []
end.

Fixpoint spelled_videos (index : gmap str VideoEntry) (word : str) : list VideoEntry :=
match word with
| [] => []
| c :: rest => letter_video index c ++ spelled_videos index rest
end.

(** What the claim gives for one word. *)
Definition word_videos (index : gmap str VideoEntry) (word : str) : list VideoEntry :=
match index !! word with
| Some entry => [entry]
| None => spelled_videos index word
end.

(** What the claim gives for the words, in order. *)
Definition videos_per_word (index : gmap str VideoEntry) (words : list str)
  : list VideoEntry :=
concat (word_videos index <$> words).

Lemma translate_letters_spelled index word videos :
  translate_letters index word videos = videos ++ spelled_videos index word.
Proof.
  revert videos. induction word as [|c rest IH]; intros videos; simpl.
  - by rewrite app_nil_r.
  - rewrite IH. unfold letter_video.
    destruct (index !! [c]); simpl; [by rewrite <- app_assoc|done].
Qed.

Lemma translate_words_per_word index lower_words videos :
  translate_words index lower_words videos = videos ++ videos_per_word index lower_words.
Proof.
  revert videos. induction lower_words as [|word rest IH]; intros videos.
  - simpl. by rewrite app_nil_r.
  - cbn [translate_words]. rewrite IH. unfold videos_per_word, word_videos at 2.
    cbn [fmap list_fmap concat].
    destruct (index !! word).
    + by rewrite <- app_assoc.
    + by rewrite translate_letters_spelled, <- app_assoc.
Qed.




End translate_per_word.

Section translate_examples.
#[local] Existing Instance sample_tables.

Example translate_hello_ab :
  let entry w k t := {| v_word := w; v_key := k; v_url := "u/" ++ k; v_type := t |} in
  let index : gmap str VideoEntry :=
    <["hello" := entry "hello" "hello.mp4" "word"]>
      (<["a" := entry "a" "a.mp4" "letter"]> ∅) in
  translate_words index ["hello"; "cab"; "a"] []
  = [entry "hello" "hello.mp4" "word"; entry "A" "a.mp4" "letter"; entry "a" "a.mp4" "letter"].
Proof. vm_compute. reflexivity. Qed.

End translate_examples.

(** ** The connection loop of the dataset push *)

Definition is_connect (ev : Event) : bool :=
match ev with Connect _ => true | Wait _ => false end.

(** C7.  [connect_mongo] decides in at most three attempts: with a
    collection already held it answers True without an attempt; otherwise
    it answers True at the first attempt that connects, waits 3 seconds
    after the first and after the second refused attempt, and answers False
    when the third attempt is refused too.  (An exception that is not a
    [PyMongoError] is not caught and ends the loop.) *)
Theorem connect_mongo_three_attempts (server : nat → Attempt) :
  connect_mongo true server = (Ok true, true, [])
  ∧ connect_mongo false server =
    match server 1 with
    | Connected => (Ok true, true, [Connect 1])
    | Crashed e => (Raised e, false, [Connect 1])
    | Refused _ =>
        match server 2 with
        | Connected => (Ok true, true, [Connect 1; Wait 3; Connect 2])
        | Crashed e => (Raised e, false, [Connect 1; Wait 3; Connect 2])
        | Refused _ =>
            match server 3 with
            | Connected =>
                (Ok true, true, [Connect 1; Wait 3; Connect 2; Wait 3; Connect 3])
            | Crashed e =>
                (Raised e, false, [Connect 1; Wait 3; Connect 2; Wait 3; Connect 3])
            | Refused _ =>
                (Ok false, false, [Connect 1; Wait 3; Connect 2; Wait 3; Connect 3])
            end
        end
    end
  ∧ length (List.filter is_connect (connect_mongo false server).2) ≤ 3.
Proof.
  assert (Hrun : connect_mongo false server =
    match server 1 with
    | Connected => (Ok true, true, [Connect 1])
    | Crashed e => (Raised e, false, [Connect 1])
    | Refused _ =>
        match server 2 with
        | Connected => (Ok true, true, [Connect 1; Wait 3; Connect 2])
        | Crashed e => (Raised e, false, [Connect 1; Wait 3; Connect 2])
        | Refused _ =>
            match server 3 with
            | Connected =>
                (Ok true, true, [Connect 1; Wait 3; Connect 2; Wait 3; Connect 3])
            | Crashed e =>
                (Raised e, false, [Connect 1; Wait 3; Connect 2; Wait 3; Connect 3])
            | Refused _ =>
                (Ok false, false, [Connect 1; Wait 3; Connect 2; Wait 3; Connect 3])
            end
        end
    end).
  { unfold connect_mongo. cbn [seq connect_attempts].
    destruct (server 1); [done| |done]. cbn [connect_attempts].
    destruct (server 2); [done| |done]. cbn [connect_attempts].
    destruct (server 3); done. }
  split; [done|]. split; [exact Hrun|]. rewrite Hrun.
  destruct (server 1); [cbn; lia| |cbn; lia].
  destruct (server 2); [cbn; lia| |cbn; lia].
  destruct (server 3); cbn; lia.
Qed.

Example connect_second_attempt :
  connect_mongo false (λ attempt, if attempt <? 2 then Refused "timeout" else Connected)
  = (Ok true, true, [Connect 1; Wait 3; Connect 2]).
Proof. reflexivity. Qed.

(** ** The index refresh *)

(** The objects a listing yields before it ends or raises. *)
Fixpoint listed (pages : PageIter) : list ListedObject :=
match pages with
| PagesEnd => []
| PagesRaise _ => []
| PagesYield page rest => default [] (Contents page) ++ listed rest
end.

Definition listed_keys (pages : PageIter) : list str := omap obj_Key (listed pages).

Section index.
Context `{tables : Unicode} (env : Env).

(** What the two dictionaries are once the keys [keys] have been gone
    through. *)
Definition indexed (keys : list str)
    (idx : gmap str VideoEntry * gmap str PendingEntry) : Prop :=
  (∀ k, is_Some (idx.2 !! k) ↔
     k ∈ keys ∧ PyStr.endswith k ".mp4" = true ∧ PyStr.startswith k "pending/" = true)
  ∧ (∀ k e, idx.2 !! k = Some e →
       p_key e = k ∧ p_filename e = PyStr.last_item (PyStr.split k "/"))
  ∧ (∀ w, is_Some (idx.1 !! w) ↔
       w ≠ "" ∧ ∃ k, k ∈ keys ∧ PyStr.endswith k ".mp4" = true
                     ∧ PyStr.startswith k "pending/" = false ∧ derived_word k = w)
  ∧ (∀ w e, idx.1 !! w = Some e →
       v_word e = w ∧ v_key e ∈ keys ∧ PyStr.endswith (v_key e) ".mp4" = true
       ∧ PyStr.startswith (v_key e) "pending/" = false ∧ derived_word (v_key e) = w
       ∧ v_type e = if 1 <? length w then "word" else "letter").

Lemma indexed_empty : indexed [] (∅, ∅).
Proof.
  unfold indexed. simpl. split_and!.
  - intros k. rewrite lookup_empty. split; [by intros [? ?]|].
    intros [Hk _]. by apply elem_of_nil in Hk.
  - intros k e. by rewrite lookup_empty.
  - intros w. rewrite lookup_empty. split; [by intros [? ?]|].
    intros [_ (k & Hk & _)]. by apply elem_of_nil in Hk.
  - intros w e. by rewrite lookup_empty.
Qed.

Lemma indexed_skip keys key idx :
  PyStr.endswith key ".mp4" = false → indexed keys idx → indexed (keys ++ [key]) idx.
Proof.
  intros Hmp4 (Hp & Hpe & Hv & Hve). unfold indexed. split_and!.
  - intros k. rewrite Hp. split.
    + intros [Hin H]. split; [apply elem_of_app; by left|done].
    + intros (Hin & Hk & Hpre). split_and!; [|done..].
      apply elem_of_app in Hin as [Hin|Hin%list_elem_of_singleton]; [done|congruence].
  - exact Hpe.
  - intros w. rewrite Hv. split.
    + intros [Hw (k & Hin & H)]. split; [done|]. exists k.
      split; [apply elem_of_app; by left|done].
    + intros [Hw (k & Hin & Hk & Hrest)]. split; [done|]. exists k. split; [|done].
      apply elem_of_app in Hin as [Hin|Hin%list_elem_of_singleton]; [done|congruence].
  - intros w e Hwe. destruct (Hve w e Hwe) as (? & Hin & ? & ? & ? & ?).
    split_and!; [done|apply elem_of_app; by left|done..].
Qed.

Lemma elem_of_snoc (keys : list str) key k : k ∈ keys ++ [key] ↔ k ∈ keys ∨ k = key.
Proof. by rewrite elem_of_app, list_elem_of_singleton. Qed.

Lemma indexed_pending keys key v p e :
  PyStr.endswith key ".mp4" = true → PyStr.startswith key "pending/" = true →
  p_key e = key → p_filename e = PyStr.last_item (PyStr.split key "/") →
  indexed keys (v, p) → indexed (keys ++ [key]) (v, <[key := e]> p).
Proof.
  intros Hmp4 Hpre Hkey Hfile (Hp & Hpe & Hv & Hve). unfold indexed. simpl in *.
  split_and!.
  - intros k. rewrite elem_of_snoc. destruct (decide (k = key)) as [->|Hne].
    + rewrite lookup_insert_eq. split; [intros _; auto|by eauto].
    + rewrite lookup_insert_ne by done. rewrite Hp. naive_solver.
  - intros k e'. destruct (decide (k = key)) as [->|Hne].
    + rewrite lookup_insert_eq. by intros [= <-].
    + rewrite lookup_insert_ne by done. apply Hpe.
  - intros w. rewrite Hv. split.
    + intros [Hw (k & Hin & H)]. split; [done|]. exists k. rewrite elem_of_snoc. auto.
    + intros [Hw (k & [Hin| ->]%elem_of_snoc & Hk & Hnp & Hd)]; [by eauto 6|congruence].
  - intros w e' Hwe. destruct (Hve w e' Hwe) as (? & Hin & ? & ? & ? & ?).
    rewrite elem_of_snoc. auto 7.
Qed.

Lemma indexed_approved keys key v p e :
  PyStr.endswith key ".mp4" = true → PyStr.startswith key "pending/" = false →
  derived_word key ≠ "" →
  v_word e = derived_word key → v_key e = key →
  v_type e = (if 1 <? length (derived_word key) then "word" else "letter") →
  indexed keys (v, p) → indexed (keys ++ [key]) (<[derived_word key := e]> v, p).
Proof.
  intros Hmp4 Hpre Hword He1 He2 He3 (Hp & Hpe & Hv & Hve). unfold indexed. simpl in *.
  split_and!.
  - intros k. rewrite Hp, elem_of_snoc. split; [naive_solver|].
    intros ([Hin| ->] & Hk & Hkp); [done|congruence].
  - exact Hpe.
  - intros w. destruct (decide (w = derived_word key)) as [->|Hne].
    + rewrite lookup_insert_eq. split; [intros _|by eauto].
      split; [done|]. exists key. rewrite elem_of_snoc. auto.
    + rewrite lookup_insert_ne by done. rewrite Hv. split.
      * intros [Hw (k & Hin & H)]. split; [done|]. exists k. rewrite elem_of_snoc. auto.
      * intros [Hw (k & [Hin| ->]%elem_of_snoc & Hk & Hnp & Hd)]; [by eauto 6|congruence].
  - intros w e'. rewrite elem_of_snoc. destruct (decide (w = derived_word key)) as [->|Hne].
    + rewrite lookup_insert_eq. intros [= <-]. rewrite He2. auto 7.
    + rewrite lookup_insert_ne by done. intros Hwe.
      destruct (Hve w e' Hwe) as (? & Hin & ? & ? & ? & ?). auto 7.
Qed.

Lemma indexed_unnamed keys key idx :
  PyStr.endswith key ".mp4" = true → PyStr.startswith key "pending/" = false →
  derived_word key = "" →
  indexed keys idx → indexed (keys ++ [key]) idx.
Proof.
  intros Hmp4 Hpre Hword (Hp & Hpe & Hv & Hve). unfold indexed. split_and!.
  - intros k. rewrite Hp, elem_of_snoc. split; [naive_solver|].
    intros ([Hin| ->] & Hk & Hkp); [done|congruence].
  - exact Hpe.
  - intros w. rewrite Hv. split.
    + intros [Hw (k & Hin & H)]. split; [done|]. exists k. rewrite elem_of_snoc. auto.
    + intros [Hw (k & [Hin| ->]%elem_of_snoc & Hk & Hnp & Hd)]; [by eauto 6|congruence].
  - intros w e' Hwe. destruct (Hve w e' Hwe) as (? & Hin & ? & ? & ? & ?).
    rewrite elem_of_snoc. auto 7.
Qed.

Lemma index_object_indexed keys obj idx idx' :
  indexed keys idx → index_object env obj idx = Ok idx' →
  ∃ key, obj_Key obj = Some key ∧ indexed (keys ++ [key]) idx'.
Proof.
  intros Hidx. unfold index_object. destruct idx as [v p].
  destruct (obj_Key obj) as [key|]; [|done]. cbn [getitem mbind result_bind].
  intros Hrun. exists key. split; [done|].
  destruct (PyStr.endswith key ".mp4") eqn:Hmp4; cbn [negb] in Hrun.
  2:{ injection Hrun as <-. by apply indexed_skip. }
  destruct (PyStr.startswith key "pending/") eqn:Hpre.
  - destruct (obj_LastModified obj) as [modified|]; [|done].
    destruct (obj_Size obj) as [size|]; [|done].
    cbn [getitem mbind result_bind mret result_ret] in Hrun. injection Hrun as <-.
    by apply indexed_pending.
  - fold (derived_word key) in Hrun. case_bool_decide as Hword.
    + injection Hrun as <-. by apply indexed_approved.
    + injection Hrun as <-. apply indexed_unnamed; [done..|].
      by destruct (decide (derived_word key = "")).
Qed.

Lemma index_contents_indexed objs : ∀ keys idx idx',
  indexed keys idx → index_contents env objs idx = Ok idx' →
  indexed (keys ++ omap obj_Key objs) idx'.
Proof.
  induction objs as [|obj objs IH]; intros keys idx idx' Hidx Hrun.
  - injection Hrun as <-. by rewrite app_nil_r.
  - cbn [index_contents mbind result_bind] in Hrun.
    destruct (index_object env obj idx) as [idx1|] eqn:Hobj; [|done].
    destruct (index_object_indexed _ _ _ _ Hidx Hobj) as (key & Hkey & Hidx1).
    cbn [omap list_omap]. rewrite Hkey, cons_middle, (assoc_L (++)). eauto.
Qed.

Lemma index_pages_indexed pages : ∀ keys idx idx',
  indexed keys idx → index_pages env pages idx = Ok idx' →
  indexed (keys ++ listed_keys pages) idx'.
Proof.
  unfold listed_keys.
  induction pages as [|page rest IH|e]; intros keys idx idx' Hidx Hrun; [| |done].
  - injection Hrun as <-. by rewrite app_nil_r.
  - cbn [index_pages mbind result_bind] in Hrun. cbn [listed]. rewrite omap_app, (assoc_L (++)).
    destruct (Contents page) as [objs|]; simpl.
    + destruct (index_contents env objs idx) as [idx1|] eqn:Hobjs; [|done].
      apply (IH (keys ++ omap obj_Key objs) idx1 idx'); [|done].
      by apply (index_contents_indexed objs keys idx).
    + rewrite app_nil_r. by apply (IH keys idx idx').
Qed.

(** C2.  After a refresh that went through (the store is available and the
    loop did not raise), the pending index has exactly the listed keys that
    end in '.mp4' and start with 'pending/', each under its own key; the
    approved index has exactly the non-empty words derived from the listed
    '.mp4' keys that do not start with 'pending/', each under that word and
    with an entry made from such a key; a key that does not end in '.mp4'
    is in neither; and the result does not depend on what the indices held
    before. *)
Theorem index_s3_files_exact (st : State) (pages : PageIter) :
  S3_AVAILABLE st = true →
  is_Ok (index_pages env pages (∅, ∅)) →
  let st' := index_s3_files env st pages in
  let keys := listed_keys pages in
  (∀ k, is_Some (pending_index st' !! k) ↔
     k ∈ keys ∧ PyStr.endswith k ".mp4" = true ∧ PyStr.startswith k "pending/" = true)
  ∧ (∀ k e, pending_index st' !! k = Some e → p_key e = k)
  ∧ (∀ w, is_Some (video_index st' !! w) ↔
       w ≠ "" ∧ ∃ k, k ∈ keys ∧ PyStr.endswith k ".mp4" = true
                     ∧ PyStr.startswith k "pending/" = false ∧ derived_word k = w)
  ∧ (∀ w e, video_index st' !! w = Some e →
       v_word e = w ∧ v_key e ∈ keys ∧ PyStr.endswith (v_key e) ".mp4" = true
       ∧ PyStr.startswith (v_key e) "pending/" = false ∧ derived_word (v_key e) = w)
  ∧ (∀ st0, S3_AVAILABLE st0 = true → index_s3_files env st0 pages = st').
Proof.
  intros Havail Hok st' keys. subst st'. unfold index_s3_files. rewrite Havail.
  cbn [negb]. destruct (index_pages env pages (∅, ∅)) as [[v p]|] eqn:Hrun; [|done].
  destruct (index_pages_indexed pages [] (∅, ∅) (v, p) indexed_empty Hrun)
    as (Hp & Hpe & Hv & Hve).
  rewrite app_nil_l in Hp, Hv, Hve. cbn [pending_index video_index].
  split_and!; [exact Hp| |exact Hv| |].
  - intros k e Hke. by destruct (Hpe k e Hke).
  - intros w e Hwe. destruct (Hve w e Hwe) as (? & ? & ? & ? & ? & ?). auto.
  - intros st0 ->. done.
Qed.

(** C9.  A refresh whose loop raises, whether the listing raised or the
    reading of a listed object did, leaves the approved and the pending
    index as they were. *)
Theorem index_s3_files_atomic (st : State) (pages : PageIter) (e : exn) :
  index_pages env pages (∅, ∅) = Raised e →
  index_s3_files env st pages = st.
Proof.
  intros Hraise. unfold index_s3_files. rewrite Hraise. by destruct (S3_AVAILABLE st).
Qed.

(** The listing raises: the loop raises. *)
Fixpoint raises (pages : PageIter) : bool :=
match pages with
| PagesEnd => false
| PagesRaise _ => true
| PagesYield _ rest => raises rest
end.

Lemma index_pages_listing_raises pages : ∀ idx,
  raises pages = true → ¬ is_Ok (index_pages env pages idx).
Proof.
  induction pages as [|page rest IH|e]; intros idx Hr; [done| |by intros []].
  cbn [index_pages mbind result_bind].
  destruct (match Contents page with Some objs => _ | None => _ end) as [idx'|]; [|by intros []].
  by apply IH.
Qed.

(** A listed object without its key raises: the loop raises. *)
Lemma index_contents_no_key objs : ∀ idx,
  None ∈ obj_Key <$> objs → ¬ is_Ok (index_contents env objs idx).
Proof.
  induction objs as [|obj objs IH]; intros idx Hin; [by apply elem_of_nil in Hin|].
  cbn [index_contents mbind result_bind].
  destruct (index_object env obj idx) as [idx'|] eqn:Hobj; [|by intros []].
  apply IH. rewrite fmap_cons in Hin. apply elem_of_cons in Hin as [Hnone|Hin]; [|done].
  unfold index_object in Hobj. destruct idx. by rewrite <- Hnone in Hobj.
Qed.

(** When the store was not reachable at start-up the refresh does nothing. *)
Lemma index_s3_files_offline st pages :
  S3_AVAILABLE st = false → index_s3_files env st pages = st.
Proof. intros Hoff. unfold index_s3_files. by rewrite Hoff. Qed.

End index.

(** ** Keys and their last segment *)

Lemma append_String (c : char) (s t : str) : (c :: s) ++ t = c :: (s ++ t).
Proof. reflexivity. Qed.

Lemma append_empty_l (t : str) : "" ++ t = t.
Proof. reflexivity. Qed.

Lemma append_assoc (s t u : str) : (s ++ t) ++ u = s ++ (t ++ u).
Proof. by rewrite <- (assoc_L (++)). Qed.

Lemma all_append p s t : PyStr.all p (s ++ t) = PyStr.all p s && PyStr.all p t.
Proof.
  induction s as [|c s IH]; [done|].
  rewrite ?append_String. simpl. by rewrite IH, andb_assoc.
Qed.

Lemma startswith_append s pre :
  PyStr.startswith s pre = true → ∃ r, s = pre ++ r.
Proof.
  revert s. induction pre as [|a pre IH]; intros s; [by exists s|].
  destruct s as [|b s]; simpl; [done|].
  destruct (N.eqb a b) eqn:Hab; [|done]. apply N.eqb_eq in Hab as ->.
  intros [r ->]%IH. exists r. by rewrite ?append_String.
Qed.

Lemma startswith_prefix pre r : PyStr.startswith (pre ++ r) pre = true.
Proof.
  induction pre as [|a pre IH]; [by destruct r|].
  rewrite ?append_String. simpl. by rewrite N.eqb_refl.
Qed.

Lemma endswith_refl s : PyStr.endswith s s = true.
Proof. destruct s; cbn [PyStr.endswith]; by rewrite bool_decide_eq_true_2. Qed.

Lemma endswith_suffix q s : PyStr.endswith (q ++ s) s = true.
Proof.
  induction q as [|c q IH]; [apply endswith_refl|].
  rewrite ?append_String. cbn [PyStr.endswith]. rewrite IH.
  by destruct (bool_decide _).
Qed.

Section split.
Context (sep : char).

Definition no_sep (s : str) : bool := PyStr.all (λ c, negb (N.eqb c sep)) s.

Lemma split_not_nil s : PyStr.split s sep ≠ [].
Proof.
  destruct s as [|c s]; simpl; [done|].
  destruct (N.eqb c sep); [done|]. by destruct (PyStr.split s sep).
Qed.

Lemma split_no_sep s : no_sep s = true → PyStr.split s sep = [s].
Proof.
  induction s as [|c s IH]; [done|]. unfold no_sep. simpl.
  intros [Hc Hs]%andb_true_iff. apply negb_true_iff in Hc. rewrite Hc.
  by rewrite (IH Hs).
Qed.

(** Splitting on both sides of a separator. *)
Lemma split_append q s :
  PyStr.split (q ++ sep :: s) sep = PyStr.split q sep ++ PyStr.split s sep.
Proof.
  induction q as [|c q IH].
  - rewrite ?append_empty_l. simpl. by rewrite N.eqb_refl.
  - rewrite ?append_String. simpl. rewrite IH.
    destruct (N.eqb c sep); [done|].
    pose proof (split_not_nil q). by destruct (PyStr.split q sep).
Qed.

Lemma last_item_app l1 l2 : l2 ≠ [] → PyStr.last_item (l1 ++ l2) = PyStr.last_item l2.
Proof.
  intros Hl2. unfold PyStr.last_item. rewrite last_app.
  destruct (last l2) as [x|] eqn:Hlast; [done|].
  by apply last_None in Hlast.
Qed.

Lemma last_item_split_append q s :
  PyStr.last_item (PyStr.split (q ++ sep :: s) sep)
  = PyStr.last_item (PyStr.split s sep).
Proof. rewrite split_append. apply last_item_app, split_not_nil. Qed.

(** The last segment has no separator, and the string is the segment
    itself or ends with a separator followed by the segment. *)
Lemma last_item_split s :
  let segment := PyStr.last_item (PyStr.split s sep) in
  no_sep segment = true
  ∧ ((s = segment) ∨ ∃ q, s = q ++ (sep :: segment)).
Proof.
  induction s as [|c s [IHno IH]]; [by auto|].
  destruct (N.eqb c sep) eqn:Hc.
  - apply N.eqb_eq in Hc as ->.
    change (sep :: s) with ([] ++ sep :: s).
    cbn zeta. rewrite last_item_split_append. split; [done|]. right.
    destruct IH as [Hs|[q Hq]].
    + exists "". by rewrite <- Hs.
    + exists (sep :: q). rewrite ?append_String, <- Hq. done.
  - destruct IH as [Hs|[q Hq]].
    + rewrite <- Hs in IHno. cbn zeta. simpl. rewrite Hc, (split_no_sep _ IHno).
      unfold PyStr.last_item. simpl. split; [|by left].
      unfold no_sep. simpl. by rewrite Hc.
    + assert (Heq : PyStr.last_item (PyStr.split (c :: s) sep)
                    = PyStr.last_item (PyStr.split s sep)).
      { rewrite Hq at 1 2. rewrite <- append_String, !last_item_split_append. done. }
      cbn zeta. rewrite Heq. split; [done|]. right. exists (c :: q).
      by rewrite ?append_String, <- Hq.
Qed.

End split.

(** A key under 'pending/' is not its own last segment, and it ends with
    '/' followed by that segment. *)
Lemma pending_key_segment key :
  PyStr.startswith key "pending/" = true →
  PyStr.last_item (PyStr.split key "/") ≠ key
  ∧ PyStr.endswith key ("/" ++ PyStr.last_item (PyStr.split key "/")) = true.
Proof.
  intros [r Hr]%startswith_append.
  destruct (last_item_split "/" key) as [Hno [Hkey|[q Hq]]].
  - rewrite <- Hkey in Hno. rewrite Hr in Hno. unfold no_sep in Hno.
    rewrite all_append in Hno. discriminate Hno.
  - split.
    + intros Heq. rewrite Heq in Hno. rewrite Hr in Hno. unfold no_sep in Hno.
      rewrite all_append in Hno. discriminate Hno.
    + rewrite Hq at 1. apply endswith_suffix.
Qed.

(** The last segment of 'pending/' followed by a name without '/'. *)
Lemma pending_key_filename filename :
  no_sep "/" filename = true →
  PyStr.last_item (PyStr.split ("pending/" ++ filename) "/") = filename.
Proof.
  intros Hno. change ("pending/" ++ filename) with ("pending" ++ ("/"%pychar :: filename)).
  by rewrite last_item_split_append, (split_no_sep _ _ Hno).
Qed.

Lemma clean_name_no_slash `{tables : Unicode} name :
  no_sep "/" (clean_name name ++ ".mp4") = true.
Proof.
  unfold no_sep. rewrite all_append, andb_true_iff. split; [|done].
  eapply all_impl; [|apply clean_name_chars].
  intros c Hc. by rewrite (isalnum_not_slash _ Hc).
Qed.

(** ** The listing of a bucket *)

Lemma chunks_from_concat {A} size (l : list A) : ∀ room cur,
  concat (chunks_from size room cur l) = cur ++ l.
Proof.
  induction l as [|x l IH]; intros room cur; cbn [chunks_from].
  - destruct cur; [done|]. simpl. by rewrite !app_nil_r.
  - destruct room as [|room]; [|by rewrite IH, <- app_assoc].
    cbn [concat]. by rewrite IH.
Qed.

Lemma listed_pages (pages : list (list ListedObject)) :
  listed (foldr (λ objs rest, PagesYield {| Contents := Some objs |} rest) PagesEnd pages)
  = concat pages.
Proof. induction pages as [|objs pages IH]; [done|]. simpl. by rewrite IH. Qed.

(** The listing yields the objects of the bucket by increasing key. *)
Lemma listed_paginate bucket :
  listed (paginate bucket)
  = omap (listed_object bucket) (merge_sort PyStr.le (fst <$> map_to_list bucket)).
Proof.
  unfold paginate. set (objs := omap _ _).
  pose proof (chunks_from_concat MaxKeys objs MaxKeys []) as Hconcat.
  destruct (chunks_from MaxKeys MaxKeys [] objs) as [|page pages].
  - simpl in *. done.
  - by rewrite listed_pages.
Qed.

Lemma elem_of_sorted_keys (bucket : gmap str StoredObject) k :
  k ∈ merge_sort PyStr.le (fst <$> map_to_list bucket) ↔ is_Some (bucket !! k).
Proof.
  rewrite merge_sort_Permutation, list_elem_of_fmap. split.
  - intros [[k' obj] [-> Hin%elem_of_map_to_list]]. by exists obj.
  - intros [obj Hobj]. exists (k, obj). split; [done|]. by apply elem_of_map_to_list.
Qed.

Lemma listed_object_keys bucket keys :
  Forall (λ k, is_Some (bucket !! k)) keys →
  omap obj_Key (omap (listed_object bucket) keys) = keys.
Proof.
  induction 1 as [|k keys [obj Hk] _ IH]; [done|].
  cbn [omap list_omap]. unfold listed_object at 1. rewrite Hk. simpl.
  f_equal. exact IH.
Qed.

(** The keys of the listing are the keys of the bucket. *)
Lemma paginate_keys bucket k : k ∈ listed_keys (paginate bucket) ↔ is_Some (bucket !! k).
Proof.
  unfold listed_keys. rewrite listed_paginate, listed_object_keys.
  - apply elem_of_sorted_keys.
  - apply Forall_forall. intros k'. apply elem_of_sorted_keys.
Qed.

(** ** The states the server goes through *)

Section server.
Context `{tables : Unicode} (env : Env).

(** The module is loaded with empty indices and the outcome of the bucket
    check; afterwards the globals change in [index_s3_files], which the
    start-up and the admin handlers call on the listing of the moment, and
    in [mobile_upload]. *)
Inductive reachable : State → Prop :=
| reach_load (available : bool) :
    reachable {| S3_AVAILABLE := available; video_index := ∅; pending_index := ∅ |}
| reach_index st pages :
    reachable st → reachable (index_s3_files env st pages)
| reach_upload st file name now bucket :
    reachable st → reachable (mobile_upload env file name now (st, bucket)).2.1.

Definition wf_state (st : State) : Prop :=
  (S3_AVAILABLE st = false → video_index st = ∅ ∧ pending_index st = ∅)
  ∧ (∀ k e, pending_index st !! k = Some e →
       PyStr.startswith k "pending/" = true
       ∧ p_key e = k ∧ p_filename e = PyStr.last_item (PyStr.split k "/")).

Lemma index_s3_files_wf st pages : wf_state st → wf_state (index_s3_files env st pages).
Proof.
  intros Hwf. unfold index_s3_files.
  destruct (S3_AVAILABLE st) eqn:Havail; cbn [negb]; [|done].
  destruct (index_pages env pages (∅, ∅)) as [[v p]|] eqn:Hrun; [|done].
  destruct (index_pages_indexed env pages [] (∅, ∅) (v, p) indexed_empty Hrun)
    as (Hp & Hpe & _).
  split; cbn [S3_AVAILABLE pending_index video_index]; [done|].
  intros k e Hke. destruct (Hpe k e Hke) as [? ?].
  destruct (proj1 (Hp k)) as (_ & _ & ?); [by exists e|]. auto.
Qed.

Lemma mobile_upload_wf st file name now bucket :
  wf_state st → wf_state (mobile_upload env file name now (st, bucket)).2.1.
Proof.
  intros Hwf. unfold mobile_upload.
  destruct (S3_AVAILABLE st) eqn:Havail; cbn [negb]; [|done].
  destruct (check_duplicate st name); [done|].
  unfold s3_bind, s3_upload_file. destruct (read file) as [body|]; [|done].
  cbn [fst snd]. split; cbn [S3_AVAILABLE pending_index video_index]; [done|].
  intros k e. destruct (decide (k = "pending/" ++ clean_name name ++ ".mp4")) as [->|Hne].
  - rewrite lookup_insert_eq. intros [= <-]. cbn [p_key p_filename].
    split_and!; [apply startswith_prefix|done|].
    symmetry. apply pending_key_filename, clean_name_no_slash.
  - rewrite lookup_insert_ne by done. apply Hwf.
Qed.

Lemma reachable_wf st : reachable st → wf_state st.
Proof.
  induction 1 as [available|st pages _ IH|st file name now bucket _ IH].
  - split; [done|]. intros k e. cbn [pending_index]. by rewrite lookup_empty.
  - by apply index_s3_files_wf.
  - by apply mobile_upload_wf.
Qed.

(** An object listed with its three fields is read without an exception. *)
Definition complete (obj : ListedObject) : Prop :=
  is_Some (obj_Key obj) ∧ is_Some (obj_LastModified obj) ∧ is_Some (obj_Size obj).

Lemma index_object_complete obj idx : complete obj → is_Ok (index_object env obj idx).
Proof.
  intros ([key Hkey] & [modified Hmod] & [size Hsize]). unfold index_object.
  destruct idx as [v p]. rewrite Hkey, Hmod, Hsize. cbn [getitem mbind result_bind].
  destruct (negb _); [done|]. destruct (PyStr.startswith _ _); [done|].
  by destruct (bool_decide _).
Qed.

Lemma index_contents_complete objs :
  Forall complete objs → ∀ idx, is_Ok (index_contents env objs idx).
Proof.
  induction 1 as [|obj objs Hobj _ IH]; intros idx; [done|].
  cbn [index_contents mbind result_bind].
  pose proof (index_object_complete obj idx Hobj) as Hok.
  destruct (index_object env obj idx); [apply IH|done].
Qed.

Lemma paginate_complete bucket : Forall complete (listed (paginate bucket)).
Proof.
  rewrite listed_paginate. apply Forall_forall. intros obj.
  rewrite list_elem_of_omap. intros (k & _ & Hobj). unfold listed_object in Hobj.
  destruct (bucket !! k); [|done]. injection Hobj as <-. by repeat split.
Qed.

Lemma index_pages_complete pages :
  raises pages = false → Forall complete (listed pages) →
  ∀ idx, is_Ok (index_pages env pages idx).
Proof.
  induction pages as [|page rest IH|e]; intros Hr Hobjs idx; [done| |done].
  cbn [listed] in Hobjs. apply Forall_app in Hobjs as [Hpage Hrest].
  cbn [index_pages mbind result_bind]. destruct (Contents page) as [objs|]; simpl in *.
  - pose proof (index_contents_complete objs Hpage idx) as Hok.
    destruct (index_contents env objs idx); [by apply IH|done].
  - by apply IH.
Qed.

Lemma paginate_no_raise bucket : raises (paginate bucket) = false.
Proof.
  unfold paginate. destruct (chunks_from _ _ _ _) as [|page pages]; [done|].
  generalize (page :: pages). intros l. by induction l.
Qed.

(** A refresh on the listing of a bucket goes through, and it indexes the
    keys of the bucket. *)
Lemma refresh_from_bucket st bucket :
  S3_AVAILABLE st = true →
  let st' := index_s3_files env st (paginate bucket) in
  (∀ k, is_Some (pending_index st' !! k) ↔
     is_Some (bucket !! k) ∧ PyStr.endswith k ".mp4" = true
     ∧ PyStr.startswith k "pending/" = true)
  ∧ (∀ w, is_Some (video_index st' !! w) ↔
       w ≠ "" ∧ ∃ k, is_Some (bucket !! k) ∧ PyStr.endswith k ".mp4" = true
                     ∧ PyStr.startswith k "pending/" = false ∧ derived_word k = w).
Proof.
  intros Havail. cbv zeta. unfold index_s3_files. rewrite Havail. cbn [negb].
  pose proof (index_pages_complete (paginate bucket) (paginate_no_raise bucket)
                (paginate_complete bucket) (∅, ∅)) as Hok.
  destruct (index_pages env (paginate bucket) (∅, ∅)) as [[v p]|] eqn:Hrun; [|done].
  destruct (index_pages_indexed env _ [] (∅, ∅) (v, p) indexed_empty Hrun)
    as (Hp & _ & Hv & _).
  cbn [pending_index video_index fst snd app] in *. split.
  - intros k. rewrite Hp. by rewrite paginate_keys.
  - intros w. rewrite Hv. split; intros [Hw (k & Hk & H)]; (split; [done|]); exists k;
      (split; [by apply paginate_keys|done]).
Qed.

(** After an approval the key is no longer pending. *)
Lemma approved_key_not_pending st bucket request key e obj now :
  reachable st → check_auth request = true →
  pending_index st !! key = Some e → bucket !! key = Some obj →
  pending_index (admin_action env request key "approve" now (st, bucket)).2.1 !! key = None.
Proof.
  intros Hreach Hauth Hke Hobj.
  destruct (reachable_wf st Hreach) as [Hoff Hpend].
  assert (Havail : S3_AVAILABLE st = true).
  { destruct (S3_AVAILABLE st); [done|]. destruct (Hoff eq_refl) as [_ Hp].
    by rewrite Hp, lookup_empty in Hke. }
  destruct (Hpend key e Hke) as (Hpre & _ & _).
  destruct (pending_key_segment key Hpre) as [Hne _].
  unfold admin_action. rewrite Hauth, Havail. cbn [negb].
  rewrite bool_decide_eq_true_2 by done.
  unfold s3_bind, copy_object, delete_object. rewrite Hobj.
  rewrite bool_decide_eq_false_2 by (intros Heq; by apply Hne). cbn [fst snd].
  apply eq_None_not_Some. intros [Hin _]%(proj1 (refresh_from_bucket st _ Havail)).
  rewrite lookup_delete_eq in Hin. by destruct Hin.
Qed.

(** The loop of [check_duplicate] finds a key that ends with the name. *)
Lemma pending_has_elem keys k target_filename :
  k ∈ keys → PyStr.endswith k ("/" ++ target_filename) = true →
  pending_has keys target_filename = true.
Proof.
  intros Hin Hk. induction keys as [|k' keys IH]; [by apply elem_of_nil in Hin|].
  cbn [pending_has]. apply elem_of_cons in Hin as [<-|Hin]; [by rewrite Hk|].
  destruct (PyStr.endswith k' _); auto.
Qed.

(** C8.  On the server as it can be, an upload whose name, stripped,
    lower-cased and with underscores for spaces, is a word of the approved
    index once its underscores are read as spaces, or gives the file name
    of an entry of the pending index, is refused by the mobile upload with
    status 400; the bucket and the two indices are as before. *)
Theorem mobile_upload_duplicate (st : State) (bucket : gmap str StoredObject)
    (file : UploadFile) (name : str) (now : DateTime) :
  reachable st →
  let base_name := PyStr.replace (PyStr.lower (PyStr.strip name)) " " "_" in
  (is_Some (video_index st !! PyStr.replace base_name "_" " ")
   ∨ ∃ k e, pending_index st !! k = Some e ∧ p_filename e = base_name ++ ".mp4") →
  ∃ detail,
    mobile_upload env file name now (st, bucket) = (HTTPException 400 detail, (st, bucket)).
Proof.
  intros [Hoff Hpend]%reachable_wf base_name Hdup. unfold mobile_upload.
  destruct (S3_AVAILABLE st) eqn:Havail; cbn [negb].
  2:{ destruct (Hoff eq_refl) as [Hv Hp]. rewrite Hv, Hp in Hdup.
      destruct Hdup as [[? Hd]|(k & e & Hd & _)]; by rewrite lookup_empty in Hd. }
  assert (Hcheck : is_Some (check_duplicate st name)); [|by destruct Hcheck as [err ->]; eauto].
  unfold check_duplicate. fold base_name. case_bool_decide as Happroved; [done|].
  destruct Hdup as [Hd|(k & e & Hke & Hfile)]; [done|].
  destruct (Hpend k e Hke) as (Hpre & _ & Hseg).
  rewrite (pending_has_elem _ k); [done| |].
  - apply list_elem_of_fmap. exists (k, e). split; [done|]. by apply elem_of_map_to_list.
  - rewrite <- Hfile, Hseg. by apply pending_key_segment.
Qed.

(** C3.  On the server as it can be, for an authenticated request on a key
    of the pending index: 'approve' copies the object stored under the key
    to the key's last segment and then deletes the key; 'reject' deletes
    the key and does nothing else to the bucket; both then refresh the two
    indices from the listing of the bucket so obtained. *)
Theorem admin_action_moderates (st : State) (bucket : gmap str StoredObject)
    (request : Request) (key : str) (e : PendingEntry) (now : DateTime) :
  reachable st →
  check_auth request = true →
  pending_index st !! key = Some e →
  (∀ obj, bucket !! key = Some obj →
     let filename := PyStr.last_item (PyStr.split key "/") in
     let copied := <[filename := {| Body := Body obj; LastModified := now |}]> bucket in
     admin_action env request key "approve" now (st, bucket)
     = (RedirectResponse "/admin" 303,
        (index_s3_files env st (paginate (delete key copied)), delete key copied)))
  ∧ admin_action env request key "reject" now (st, bucket)
    = (RedirectResponse "/admin" 303,
       (index_s3_files env st (paginate (delete key bucket)), delete key bucket)).
Proof.
  intros [Hoff Hpend]%reachable_wf Hauth Hke.
  assert (Havail : S3_AVAILABLE st = true).
  { destruct (S3_AVAILABLE st); [done|]. destruct (Hoff eq_refl) as [_ Hp].
    by rewrite Hp, lookup_empty in Hke. }
  destruct (Hpend key e Hke) as (Hpre & _ & _).
  destruct (pending_key_segment key Hpre) as [Hne _].
  unfold admin_action. rewrite Hauth, Havail. cbn [negb]. split.
  - intros obj Hobj. rewrite bool_decide_eq_true_2 by done.
    unfold s3_bind, copy_object, delete_object. rewrite Hobj.
    rewrite bool_decide_eq_false_2; [done|]. intros Heq. by apply Hne.
  - rewrite bool_decide_eq_false_2 by done. rewrite bool_decide_eq_true_2 by done. done.
Qed.

End server.


(** ** Records of the two databases *)

Section records.
Context `{tables : Unicode}.

(** The number of records under a word and a language. *)
Definition count_key (word language : str) (rs : list VideoRecord) : nat :=
  length (List.filter (has_key word language) rs).

(** Word and language together identify at most one record. *)
Definition unique_keys (rs : list VideoRecord) : Prop :=
  ∀ word language, count_key word language rs ≤ 1.

(** The record has the word [word] and is typed by its length. *)
Definition typed_by_word (word : str) (r : VideoRecord) : Prop :=
  get_field "word" r = Some (VStr word)
  ∧ get_field "type" r = Some (VStr (if 1 <? length word then "word" else "letter")).

Lemma has_key_inj w l w' l' r :
  has_key w l r = true → has_key w' l' r = true → w = w' ∧ l = l'.
Proof.
  unfold has_key. intros [H1 H2]%andb_true_iff [H3 H4]%andb_true_iff.
  apply bool_decide_eq_true in H1, H2, H3, H4. split; congruence.
Qed.

Lemma count_key_app w l rs1 rs2 :
  count_key w l (rs1 ++ rs2) = count_key w l rs1 + count_key w l rs2.
Proof. unfold count_key. by rewrite List.filter_app, length_app. Qed.

Lemma count_key_cons w l r rs :
  count_key w l (r :: rs) = (if has_key w l r then 1 else 0) + count_key w l rs.
Proof. unfold count_key. simpl. by destruct (has_key w l r). Qed.

(** *** The rows of the populator *)

(** The word of a file name for the populator: the name up to its first
    dot, in lower case. *)
Definition populator_word (name : str) : str :=
  PyStr.lower (PyStr.first_item (PyStr.split name ".")).

(** The row that [populate_file] inserts for a file. *)
Definition video_row (now : DateTime) (language : str) (f : VideoFile) : VideoRecord :=
  let word := populator_word (filename f) in
  [("word", VStr word);
   ("language", VStr language);
   ("file_path", VStr ("/videos/" ++ language ++ "/" ++ filename f));
   ("type", VStr (if 1 <? length word then "word" else "letter"));
   ("duration", from_float (clip_duration <$> clip f));
   ("resolution",
    from_str ((λ c, of_string (pretty (clip_w c)) ++ "x" ++ of_string (pretty (clip_h c)))
                <$> clip f));
   ("updated_at", VTimestamp now)].

Lemma populate_file_row now language f table :
  populate_file now language f table =
  if PyStr.endswith (filename f) ".mp4"
  then insert_or_replace (video_row now language f) table
  else table.
Proof. unfold populate_file, video_row. by destruct (clip f). Qed.

Lemma video_row_key now language f :
  has_key (PyStr.lower (PyStr.first_item (PyStr.split (filename f) "."))) language
          (video_row now language f) = true.
Proof.
  unfold has_key, video_row. simpl get_field.
  apply andb_true_iff. split; by apply bool_decide_eq_true.
Qed.

Lemma conflicts_has_key w l r row :
  has_key w l r = true → has_key w l row = true → conflicts r row = true.
Proof.
  unfold has_key, conflicts, videos_unique.
  intros [H1 H2]%andb_true_iff [H3 H4]%andb_true_iff.
  apply bool_decide_eq_true in H1, H2, H3, H4. cbn [forallb].
  rewrite H1, H2, H3, H4. simpl. by rewrite !bool_decide_eq_true_2 by done.
Qed.

(** After the insertion the row's key has one row; another key has no more
    rows than before. *)
Lemma insert_or_replace_count w l row table :
  has_key w l row = true →
  count_key w l (insert_or_replace row table) = 1
  ∧ ∀ w' l', (w', l') ≠ (w, l) →
      count_key w' l' (insert_or_replace row table) ≤ count_key w' l' table.
Proof.
  intros Hrow. unfold insert_or_replace. split.
  - rewrite count_key_app, count_key_cons, Hrow. unfold count_key at 2. simpl.
    assert (Hnone : count_key w l (List.filter (λ r, negb (conflicts r row)) table) = 0).
    { unfold count_key. induction table as [|r table IH]; [done|]. simpl.
      destruct (conflicts r row) eqn:Hc; simpl; [done|].
      destruct (has_key w l r) eqn:Hr; [|done].
      by rewrite (conflicts_has_key _ _ _ _ Hr Hrow) in Hc. }
    rewrite Hnone. done.
  - intros w' l' Hne. rewrite count_key_app, count_key_cons.
    destruct (has_key w' l' row) eqn:Hrow'.
    { destruct (has_key_inj _ _ _ _ _ Hrow Hrow'). congruence. }
    unfold count_key. simpl. rewrite Nat.add_0_r.
    induction table as [|r table IH]; [done|]. simpl.
    destruct (conflicts r row); simpl; destruct (has_key w' l' r); simpl; lia.
Qed.

Lemma insert_or_replace_unique row table w l :
  has_key w l row = true → unique_keys table → unique_keys (insert_or_replace row table).
Proof.
  intros Hrow Huniq w' l'.
  destruct (insert_or_replace_count w l row table Hrow) as [Hone Hle].
  destruct (decide ((w', l') = (w, l))) as [[= -> ->]|Hne]; [by rewrite Hone|].
  specialize (Hle w' l' Hne). specialize (Huniq w' l'). lia.
Qed.

Lemma populate_file_unique now language f table :
  unique_keys table → unique_keys (populate_file now language f table).
Proof.
  intros Huniq. rewrite populate_file_row. destruct (PyStr.endswith _ _); [|done].
  eapply insert_or_replace_unique; [apply video_row_key|done].
Qed.

(** What holds of the rows before a run and of the rows it inserts, for
    the '.mp4' files of the directories paired with a language, holds of
    the rows after it. *)
Lemma populate_database_rows_from (P : VideoRecord → Prop) now video_dirs languages table :
  (∀ language listing f,
     (language, Some listing) ∈ zip languages video_dirs → f ∈ listing →
     PyStr.endswith (filename f) ".mp4" = true → P (video_row now language f)) →
  Forall P table → Forall P (populate_database now video_dirs languages table).
Proof.
  intros Hrow. unfold populate_database.
  assert (Hfile : ∀ language f t,
            (PyStr.endswith (filename f) ".mp4" = true → P (video_row now language f)) →
            Forall P t → Forall P (populate_file now language f t)).
  { intros language f t Hf Ht. rewrite populate_file_row.
    destruct (PyStr.endswith _ _) eqn:Hmp4; [|done]. unfold insert_or_replace.
    apply Forall_app. split; [|by auto].
    apply Forall_forall. intros r [Hr _]%list_elem_of_In%filter_In.
    apply list_elem_of_In in Hr. by eapply Forall_forall in Ht. }
  assert (Hdir : ∀ language listing t,
            (∀ f, f ∈ listing → PyStr.endswith (filename f) ".mp4" = true →
                  P (video_row now language f)) →
            Forall P t →
            Forall P (foldl (λ table f, populate_file now language f table) t listing)).
  { intros language listing. induction listing as [|f listing IH]; intros t Hfs Ht; [done|].
    simpl. apply IH.
    - intros g Hg. apply Hfs. by apply elem_of_cons; right.
    - apply Hfile; [|done]. apply Hfs. apply list_elem_of_here. }
  assert (Hall : ∀ pairs t,
            (∀ language listing f, (language, Some listing) ∈ pairs → f ∈ listing →
               PyStr.endswith (filename f) ".mp4" = true → P (video_row now language f)) →
            Forall P t →
            Forall P (foldl (λ table '(language, video_dir),
                               match video_dir with
                               | None => table
                               | Some listing =>
                                   foldl (λ table f, populate_file now language f table)
                                         table listing
                               end) t pairs)).
  { intros pairs. induction pairs as [|[language [listing|]] pairs IH]; intros t Hps Ht;
      [done| |]; simpl; apply IH.
    - intros l ls f Hin. apply Hps. by apply elem_of_cons; right.
    - apply Hdir; [|done]. intros f. apply Hps. apply list_elem_of_here.
    - intros l ls f Hin. apply Hps. by apply elem_of_cons; right.
    - done. }
  intros Ht. destruct video_dirs; [done|]. destruct languages; [done|]. by apply Hall.
Qed.

Lemma populate_database_rows (P : VideoRecord → Prop) now video_dirs languages table :
  (∀ language f, PyStr.endswith (filename f) ".mp4" = true → P (video_row now language f)) →
  Forall P table → Forall P (populate_database now video_dirs languages table).
Proof. intros Hrow. apply populate_database_rows_from. intros. by apply Hrow. Qed.

Lemma populate_database_unique now video_dirs languages table :
  unique_keys table → unique_keys (populate_database now video_dirs languages table).
Proof.
  unfold populate_database.
  assert (Hdir : ∀ language listing t, unique_keys t →
            unique_keys (foldl (λ table f, populate_file now language f table) t listing)).
  { intros language listing. induction listing as [|f listing IH]; intros t Ht; [done|].
    simpl. apply IH, populate_file_unique, Ht. }
  assert (Hall : ∀ pairs t, unique_keys t →
            unique_keys (foldl (λ table '(language, video_dir),
                               match video_dir with
                               | None => table
                               | Some listing =>
                                   foldl (λ table f, populate_file now language f table)
                                         table listing
                               end) t pairs)).
  { intros pairs. induction pairs as [|[language [listing|]] pairs IH]; intros t Ht;
      [done| |]; simpl; apply IH; [by apply Hdir|done]. }
  intros Ht. destruct video_dirs; [done|]. destruct languages; [done|]. by apply Hall.
Qed.

(** *** The documents of the dataset push *)

(** The document that [push_file] prepares for a file. *)
Definition video_doc (word language url : str) (duration resolution : PyVal) : VideoRecord :=
  [("word", VStr word);
   ("language", VStr language);
   ("file_path", VStr url);
   ("type", VStr (if 1 <? length word then "word" else "letter"));
   ("duration", duration);
   ("resolution", resolution)].

(** The language, the word and the key of a file for the dataset push
    (lines 166-169): the first folder in upper case (PSL for a file at the
    root), the stem of the file name in lower case, and the two joined. *)
Definition file_language (f : LocalFile) : str :=
  if 1 <? length (parts f) then PyStr.upper (PyStr.first_item (parts f)) else "PSL".

Definition file_word (f : LocalFile) : str :=
  PyStr.lower (stem (PyStr.last_item (parts f))).

Definition file_key (f : LocalFile) : str :=
  file_language f ++ "/" ++ file_word f ++ ".mp4".

(** The files that [rglob("*.mp4")] yields. *)
Definition matching (tree : list LocalFile) : list LocalFile :=
  List.filter (λ f, PyStr.endswith (PyStr.last_item (parts f)) ".mp4") tree.

(** The operations that [push_file] queues for the files [files]: the
    filter is on the word and the language of the document, which are
    those of a file. *)
Inductive pushed (files : list LocalFile) : ReplaceOne → Prop :=
| pushed_doc f url :
    f ∈ files →
    pushed files
      {| filter_word := file_word f; filter_language := file_language f;
         replacement := video_doc (file_word f) (file_language f) url
                          (from_float (metadata f).1) (from_str (metadata f).2) |}.

Lemma upload_file_mongo BUCKET now f key dry_run w :
  mongo (upload_file BUCKET now f key dry_run w).2 = mongo w.
Proof.
  unfold upload_file. destruct (S3_OK w); cbn [negb]; [|done].
  destruct (s3_exists w key); [done|]. destruct dry_run; [done|].
  by destruct (content f).
Qed.

Lemma push_file_pushed BUCKET now dry_run mongo_ok files f loop w :
  f ∈ files →
  Forall (pushed files) (mongo_ops loop) →
  Forall (pushed files) (mongo_ops (push_file BUCKET now dry_run mongo_ok f (loop, w)).1)
  ∧ mongo (push_file BUCKET now dry_run mongo_ok f (loop, w)).2 = mongo w.
Proof.
  intros Hf Hops. unfold push_file. cbv zeta.
  fold (file_language f) (file_word f).
  match goal with
  | |- context [upload_file ?b ?n ?f ?k ?d ?w] =>
      pose proof (upload_file_mongo b n f k d w) as Hmongo;
      destruct (upload_file b n f k d w) as [[url|] w']
  end; cbn [snd] in Hmongo; [|done].
  destruct mongo_ok; [|done].
  destruct (find_one _ _ _); [done|].
  pose proof (pushed_doc files f url Hf) as Hop.
  destruct (metadata f) as [duration resolution]. cbn [fst snd mongo_ops].
  split; [|done]. apply Forall_app. split; [done|]. by apply Forall_singleton.
Qed.

Lemma push_files_pushed BUCKET now dry_run mongo_ok all files : ∀ loop w,
  Forall (λ f, f ∈ all) files →
  Forall (pushed all) (mongo_ops loop) →
  let out := foldl (λ acc file_path, push_file BUCKET now dry_run mongo_ok file_path acc)
                   (loop, w) files in
  Forall (pushed all) (mongo_ops out.1) ∧ mongo out.2 = mongo w.
Proof.
  induction files as [|f files IH]; intros loop w Hfiles Hops; [done|].
  apply Forall_cons in Hfiles as [Hf Hfiles]. cbn [foldl].
  destruct (push_file_pushed BUCKET now dry_run mongo_ok all f loop w Hf Hops)
    as [Hops' Hmongo].
  destruct (push_file _ _ _ _ f (loop, w)) as [loop' w'].
  destruct (IH loop' w' Hfiles Hops') as [? Hm]. split; [done|].
  by rewrite Hm.
Qed.

(** The collection after a run is the collection before it with some
    queued operations applied. *)
Lemma push_dataset_mongo BUCKET now server budget root dry_run w :
  ∃ ops budget',
    Forall (pushed (matching (default [] root))) ops
    ∧ mongo (push_dataset BUCKET now server budget root dry_run w).2
      = bulk_write ops budget' (mongo w).
Proof.
  unfold push_dataset. destruct root as [tree|]; [|by exists [], None].
  destruct (connect_mongo (collection w) server) as [[[mongo_ok|e] held] log];
    [|by exists [], None].
  set (w0 := {| S3_OK := S3_OK w; s3_bucket := s3_bucket w;
                collection := held; mongo := mongo w |}).
  fold (matching tree). cbn [default].
  destruct (push_files_pushed BUCKET now dry_run mongo_ok (matching tree) (matching tree)
              {| mongo_ops := []; total_uploaded := 0; total_skipped := 0 |} w0)
    as [Hops Hmongo].
  { by apply Forall_forall. }
  { done. }
  destruct (foldl _ _ (matching tree)) as [loop w']. cbn [fst snd] in Hops, Hmongo.
  destruct (mongo_ok && bool_decide (mongo_ops loop ≠ [])).
  - exists (mongo_ops loop), budget. split; [done|]. cbn [snd mongo]. by rewrite Hmongo.
  - exists [], None. split; [done|]. cbn [snd bulk_write]. by rewrite Hmongo.
Qed.

Lemma pushed_key files op id :
  pushed files op →
  has_key (filter_word op) (filter_language op) (("_id", id) :: replacement op) = true.
Proof.
  intros [f url _]. unfold has_key, video_doc.
  simpl get_field. apply andb_true_iff. split; by apply bool_decide_eq_true.
Qed.

(** A replacement leaves the number of documents of every key as it was. *)
Lemma replace_first_count files op docs docs' :
  pushed files op → replace_first op docs = Some docs' →
  ∀ w l, count_key w l docs' = count_key w l docs.
Proof.
  intros Hop. revert docs'. induction docs as [|d docs IH]; intros docs' Hrep w l; [done|].
  cbn [replace_first] in Hrep.
  destruct (has_key (filter_word op) (filter_language op) d) eqn:Hd.
  - injection Hrep as <-. rewrite !count_key_cons. f_equal.
    pose proof (pushed_key files op (default VNone (get_field "_id" d)) Hop) as Hnew.
    destruct (has_key w l d) eqn:Hwl.
    + destruct (has_key_inj _ _ _ _ _ Hd Hwl) as [<- <-]. by rewrite Hnew.
    + destruct (has_key w l (_ :: replacement op)) eqn:Hwl'; [|done].
      destruct (has_key_inj _ _ _ _ _ Hnew Hwl') as [<- <-]. congruence.
  - destruct (replace_first op docs) as [docs1|]; [|done]. injection Hrep as <-.
    rewrite !count_key_cons. by rewrite (IH docs1).
Qed.

Lemma replace_first_none op docs :
  replace_first op docs = None →
  count_key (filter_word op) (filter_language op) docs = 0.
Proof.
  induction docs as [|d docs IH]; [done|]. cbn [replace_first].
  destruct (has_key (filter_word op) (filter_language op) d) eqn:Hd; [done|].
  destruct (replace_first op docs); [done|]. intros _.
  rewrite count_key_cons, Hd. by rewrite IH.
Qed.

Lemma replace_one_unique files op c :
  pushed files op → unique_keys (documents c) → unique_keys (documents (replace_one op c)).
Proof.
  intros Hop Huniq w l. unfold replace_one.
  destruct (replace_first op (documents c)) as [docs|] eqn:Hrep; cbn [documents].
  - rewrite (replace_first_count files op _ _ Hop Hrep). apply Huniq.
  - rewrite count_key_app, count_key_cons.
    pose proof (pushed_key files op (VObjectId (next_id c)) Hop) as Hnew.
    destruct (has_key w l (_ :: replacement op)) eqn:Hwl.
    + destruct (has_key_inj _ _ _ _ _ Hnew Hwl) as [<- <-].
      rewrite (replace_first_none _ _ Hrep). done.
    + specialize (Huniq w l). unfold count_key at 2. simpl. lia.
Qed.

Lemma bulk_write_unique files ops : ∀ budget c,
  Forall (pushed files) ops → unique_keys (documents c) →
  unique_keys (documents (bulk_write ops budget c)).
Proof.
  induction ops as [|op ops IH]; intros budget c Hops Huniq; [done|].
  apply Forall_cons in Hops as [Hop Hops]. cbn [bulk_write].
  destruct budget as [[|n]|]; [done| |]; apply IH; eauto using replace_one_unique.
Qed.

(** What holds of the documents before a write and of the replacements
    under any identifier holds of the documents after it. *)
Lemma replace_first_docs (P : VideoRecord → Prop) op docs docs' :
  (∀ id, P (("_id", id) :: replacement op)) → Forall P docs →
  replace_first op docs = Some docs' → Forall P docs'.
Proof.
  intros Hnew. revert docs'. induction docs as [|d docs IH]; intros docs' Hdocs Hrep; [done|].
  apply Forall_cons in Hdocs as [Hd Hdocs]. cbn [replace_first] in Hrep.
  destruct (has_key _ _ d).
  - injection Hrep as <-. by apply Forall_cons.
  - destruct (replace_first op docs) as [docs1|]; [|done]. injection Hrep as <-.
    apply Forall_cons. auto.
Qed.

Lemma bulk_write_docs (P : VideoRecord → Prop) ops : ∀ budget c,
  Forall (λ op, ∀ id, P (("_id", id) :: replacement op)) ops →
  Forall P (documents c) → Forall P (documents (bulk_write ops budget c)).
Proof.
  induction ops as [|op ops IH]; intros budget c Hops Hdocs; [done|].
  apply Forall_cons in Hops as [Hop Hops]. cbn [bulk_write].
  assert (Hone : Forall P (documents (replace_one op c))).
  { unfold replace_one. destruct (replace_first op (documents c)) as [docs|] eqn:Hrep.
    - by eapply replace_first_docs.
    - cbn [documents]. apply Forall_app. split; [done|]. by apply Forall_singleton. }
  destruct budget as [[|n]|]; [done| |]; by apply IH.
Qed.

(** ** The records written by the two scripts *)

(** C5.  The dataset push and the populator keep word and language
    identifying at most one record: a collection in which they do still
    has at most one document for every word and language after the run,
    whether or not the bulk write went through; likewise the table after
    the populator; and after the insertion for a file the table has
    exactly one row for the file's word and language, whatever it held. *)
Theorem word_language_unique :
  (∀ BUCKET now server budget root dry_run w,
     unique_keys (documents (mongo w)) →
     unique_keys (documents (mongo (push_dataset BUCKET now server budget root dry_run w).2)))
  ∧ (∀ now video_dirs languages table,
       unique_keys table →
       unique_keys (populate_database now video_dirs languages table))
  ∧ (∀ now language f table,
       PyStr.endswith (filename f) ".mp4" = true →
       count_key (PyStr.lower (PyStr.first_item (PyStr.split (filename f) "."))) language
                 (populate_file now language f table) = 1).
Proof.
  split_and!.
  - intros BUCKET now server budget root dry_run w Huniq.
    destruct (push_dataset_mongo BUCKET now server budget root dry_run w)
      as (ops & budget' & Hops & ->).
    by eapply bulk_write_unique.
  - intros. by apply populate_database_unique.
  - intros now language f table Hmp4. rewrite populate_file_row, Hmp4.
    by apply insert_or_replace_count, video_row_key.
Qed.

(** C4 (amended).  Each of the three programs types a video by the length
    of the word it derives from the file name: 'word' when that word has
    more than one character, 'letter' otherwise.  An entry of the server's
    approved index is made from a listed key, its word is the one derived
    from the last segment of the key ('.mp4' removed, lower-cased,
    underscores to spaces, stripped) and is not empty, so the entry is a
    'letter' exactly when its word has one character.  A document that the
    dataset push writes has the stem of a '.mp4' file, lower-cased, for
    word, and a row that the populator writes the name of a '.mp4' file up
    to its first dot, lower-cased; both are typed by the length of that
    word. *)
Theorem clip_type_by_word_length :
  (∀ env st pages w e,
     S3_AVAILABLE st = true → is_Ok (index_pages env pages (∅, ∅)) →
     video_index (index_s3_files env st pages) !! w = Some e →
     v_key e ∈ listed_keys pages
     ∧ v_word e
       = PyStr.strip
           (PyStr.replace
              (PyStr.lower
                 (PyStr.replace (PyStr.last_item (PyStr.split (v_key e) "/")) ".mp4" ""))
              "_" " ")
     ∧ (v_type e = "letter" ∧ length (v_word e) = 1
        ∨ v_type e = "word" ∧ 1 < length (v_word e)))
  ∧ (∀ BUCKET now server budget root dry_run w,
       Forall (λ d, d ∈ documents (mongo w)
                    ∨ ∃ f, f ∈ default [] root
                           ∧ PyStr.endswith (PyStr.last_item (parts f)) ".mp4" = true
                           ∧ typed_by_word (PyStr.lower (stem (PyStr.last_item (parts f)))) d)
              (documents (mongo (push_dataset BUCKET now server budget root dry_run w).2)))
  ∧ (∀ now video_dirs languages table,
       Forall (λ r, r ∈ table
                    ∨ ∃ language listing f,
                        (language, Some listing) ∈ zip languages video_dirs ∧ f ∈ listing
                        ∧ PyStr.endswith (filename f) ".mp4" = true
                        ∧ typed_by_word
                            (PyStr.lower (PyStr.first_item (PyStr.split (filename f) "."))) r)
              (populate_database now video_dirs languages table)).
Proof.
  split_and!.
  - intros env st pages w e Havail Hok Hwe. unfold index_s3_files in Hwe.
    rewrite Havail in Hwe. cbn [negb] in Hwe.
    destruct (index_pages env pages (∅, ∅)) as [[v p]|] eqn:Hrun; [|done].
    destruct (index_pages_indexed env pages [] (∅, ∅) (v, p) indexed_empty Hrun)
      as (_ & _ & Hv & Hve).
    cbn [video_index] in Hwe. destruct (Hve w e Hwe) as (Hw & Hkey & _ & _ & Hd & Htype).
    split_and!; [done|by rewrite Hw, <- Hd|]. rewrite Htype, Hw.
    assert (Hne : w ≠ "") by (apply Hv; by exists e).
    destruct (1 <? length w) eqn:Hlen.
    + right. by apply Nat.ltb_lt in Hlen.
    + left. apply Nat.ltb_ge in Hlen.
      destruct w as [|c [|c' w]]; simpl in *; [done|done|lia].
  - intros BUCKET now server budget root dry_run w.
    destruct (push_dataset_mongo BUCKET now server budget root dry_run w)
      as (ops & budget' & Hops & ->).
    apply bulk_write_docs; [|apply Forall_forall; by left].
    eapply Forall_impl; [exact Hops|].
    intros op [f url [Hf Hmp4]%list_elem_of_In%filter_In] id. right.
    exists f. split_and!; [by apply list_elem_of_In|done|by split].
  - intros now video_dirs languages table.
    apply populate_database_rows_from; [|apply Forall_forall; by left].
    intros language listing f Hpair Hf Hmp4. right. by exists language, listing, f.
Qed.

(** C6 (amended).  The populator writes rows of the seven columns word,
    language, file_path, type, duration, resolution and updated_at, and
    only to the relational table; the dataset push writes documents of the
    six fields word, language, file_path, type, duration and resolution
    under the collection's "_id", without a time stamp, and only to the
    document collection. *)
Theorem records_written (s : Stores) :
  (∀ now video_dirs languages,
     mongo_videos (run_populate_database now video_dirs languages s) = mongo_videos s
     ∧ Forall (λ r, r ∈ sql_videos s
                    ∨ fields r = ["word"; "language"; "file_path"; "type"; "duration";
                                  "resolution"; "updated_at"])
              (sql_videos (run_populate_database now video_dirs languages s)))
  ∧ (∀ BUCKET now server budget root dry_run S3_OK bucket,
       sql_videos (run_push_dataset BUCKET now server budget root dry_run S3_OK bucket s)
       = sql_videos s
       ∧ Forall (λ d, d ∈ documents (mongo_videos s)
                      ∨ fields d = ["_id"; "word"; "language"; "file_path"; "type";
                                    "duration"; "resolution"])
                (documents (mongo_videos
                   (run_push_dataset BUCKET now server budget root dry_run S3_OK bucket s)))).
Proof.
  split.
  - intros now video_dirs languages. split; [done|]. cbn [run_populate_database sql_videos].
    apply populate_database_rows; [by right|].
    apply Forall_forall. by left.
  - intros BUCKET now server budget root dry_run S3_OK bucket. split; [done|].
    cbn [run_push_dataset mongo_videos].
    destruct (push_dataset_mongo BUCKET now server budget root dry_run
                {| S3_OK := S3_OK; s3_bucket := bucket; collection := false;
                   mongo := mongo_videos s |})
      as (ops & budget' & Hops & ->).
    apply bulk_write_docs; [|apply Forall_forall; by left].
    eapply Forall_impl; [exact Hops|]. intros op [f url _] id. by right.
Qed.

End records.

(** ** The programs on sample data *)

Section samples.
#[local] Existing Instance sample_tables.

Definition sample_env : Env :=
  {| BUCKET_NAME := "echosignuobs";
     AWS_REGION := "eu-north-1";
     strftime := λ t _, "day " ++ of_string (pretty t);
     round_kb := λ size, of_string (pretty (size `div` 1024)%Z) ++ ".0";
     word_tokenize := λ text, Ok (PyStr.split_whitespace text);
     head_fault := λ _, None |}.

Definition sample_object (key : str) : ListedObject :=
  {| obj_Key := Some key; obj_LastModified := Some 3%Z; obj_Size := Some 2048%Z |}.

Definition sample_pages : PageIter :=
  PagesYield
    {| Contents := Some [sample_object "pending/hi.mp4"; sample_object "Hello_World.mp4";
                         sample_object "notes.txt"; sample_object "a.mp4"] |}
    PagesEnd.

(** The server after its start-up on the sample listing. *)
Definition sample_state : State :=
  index_s3_files sample_env
    {| S3_AVAILABLE := true; video_index := ∅; pending_index := ∅ |} sample_pages.

Definition sample_bucket : gmap str StoredObject :=
  <["pending/hi.mp4" := {| Body := "hi"; LastModified := 3%Z |}]>
    (<["Hello_World.mp4" := {| Body := "hello"; LastModified := 3%Z |}]> ∅).

Definition sample_admin : Request :=
  {| cookies := <["admin_session" := "active"]> ∅ |}.

Example sample_state_indices :
  sample_state =
  {| S3_AVAILABLE := true;
     video_index :=
       <["a" := {| v_word := "a"; v_key := "a.mp4";
                   v_url := "https://echosignuobs.s3.eu-north-1.amazonaws.com/a.mp4";
                   v_type := "letter" |}]>
       (<["hello world" :=
            {| v_word := "hello world"; v_key := "Hello_World.mp4";
               v_url := "https://echosignuobs.s3.eu-north-1.amazonaws.com/Hello_World.mp4";
               v_type := "word" |}]> ∅);
     pending_index :=
       <["pending/hi.mp4" :=
           {| p_key := "pending/hi.mp4"; p_filename := "hi.mp4";
              p_url := "https://echosignuobs.s3.eu-north-1.amazonaws.com/pending/hi.mp4";
              p_date := "day 3"; p_size := "2.0 KB" |}]> ∅ |}.
Proof. vm_compute. reflexivity. Qed.

Lemma sample_state_reachable : reachable sample_env sample_state.
Proof. apply reach_index, reach_load. Qed.

Lemma index_s3_files_exact_sample :
  is_Some (pending_index sample_state !! "pending/hi.mp4")
  ∧ is_Some (video_index sample_state !! "hello world")
  ∧ ¬ is_Some (pending_index sample_state !! "notes.txt").
Proof.
  assert (Hok : is_Ok (index_pages sample_env sample_pages (∅, ∅))) by (vm_compute; exact I).
  destruct (index_s3_files_exact sample_env
              {| S3_AVAILABLE := true; video_index := ∅; pending_index := ∅ |}
              sample_pages eq_refl Hok) as (Hp & _ & Hv & _).
  split_and!.
  - apply Hp. split_and!; [|reflexivity..]. vm_compute. apply list_elem_of_here.
  - apply Hv. split; [done|]. exists "Hello_World.mp4".
    split_and!; [|reflexivity..]. vm_compute. apply list_elem_of_further, list_elem_of_here.
  - intros (_ & Hmp4 & _)%Hp. discriminate Hmp4.
Defined.

Lemma index_s3_files_atomic_sample :
  index_s3_files sample_env sample_state
    (PagesYield {| Contents := Some [sample_object "pending/late.mp4"] |}
       (PagesRaise (ClientError "RequestTimeout" "ListObjectsV2" "timed out")))
  = sample_state.
Proof.
  apply (index_s3_files_atomic sample_env sample_state _
           (ClientError "RequestTimeout" "ListObjectsV2" "timed out")).
  reflexivity.
Defined.

Lemma mobile_upload_duplicate_sample :
  ∃ detail,
    mobile_upload sample_env {| read := Ok "video" |} "  Hello World " 5%Z
                  (sample_state, sample_bucket)
    = (HTTPException 400 detail, (sample_state, sample_bucket)).
Proof.
  apply (mobile_upload_duplicate sample_env sample_state sample_bucket
           {| read := Ok "video" |} "  Hello World " 5%Z sample_state_reachable).
  left. vm_compute. by eexists.
Defined.

Lemma admin_action_moderates_sample :
  admin_action sample_env sample_admin "pending/hi.mp4" "reject" 5%Z
               (sample_state, sample_bucket)
  = (RedirectResponse "/admin" 303,
     (index_s3_files sample_env sample_state (paginate (delete "pending/hi.mp4" sample_bucket)),
      delete "pending/hi.mp4" sample_bucket)).
Proof.
  apply (admin_action_moderates sample_env sample_state sample_bucket sample_admin
           "pending/hi.mp4"
           {| p_key := "pending/hi.mp4"; p_filename := "hi.mp4";
              p_url := "https://echosignuobs.s3.eu-north-1.amazonaws.com/pending/hi.mp4";
              p_date := "day 3"; p_size := "2.0 KB" |} 5%Z sample_state_reachable).
  - reflexivity.
  - vm_compute. reflexivity.
Defined.

Example approve_sample :
  (admin_action sample_env sample_admin "pending/hi.mp4" "approve" 5%Z
                (sample_state, sample_bucket)).2.2
  = <["hi.mp4" := {| Body := "hi"; LastModified := 5%Z |}]>
      (<["Hello_World.mp4" := {| Body := "hello"; LastModified := 3%Z |}]> ∅).
Proof. vm_compute. reflexivity. Qed.

Example approve_sample_indices :
  dom (pending_index (admin_action sample_env sample_admin "pending/hi.mp4" "approve" 5%Z
                        (sample_state, sample_bucket)).2.1) = ∅
  ∧ dom (video_index (admin_action sample_env sample_admin "pending/hi.mp4" "approve" 5%Z
                        (sample_state, sample_bucket)).2.1) = {["hi"; "hello world"]}.
Proof. split; vm_compute; reflexivity. Qed.

Definition sample_world : PushWorld :=
  {| S3_OK := true; s3_bucket := ∅; collection := false;
     mongo := {| documents := []; next_id := 0 |} |}.

Definition sample_file (path : list str) : LocalFile :=
  {| parts := path; content := Ok "video"; metadata := (None, Some "640x480") |}.

Definition sample_stores : Stores :=
  {| sql_videos := []; mongo_videos := {| documents := []; next_id := 0 |} |}.

Example push_two_spellings :
  documents (mongo (push_dataset "echosignuobs" 5%Z (λ _, Connected) None
                      (Some [sample_file ["PSL"; "Hello.mp4"]; sample_file ["psl"; "hello.mp4"];
                             sample_file ["notes.txt"]])
                      false sample_world).2)
  = [[("_id", VObjectId 0); ("word", VStr "hello"); ("language", VStr "PSL");
      ("file_path", VStr "https://echosignuobs.s3.amazonaws.com/PSL/hello.mp4");
      ("type", VStr "word"); ("duration", VNone); ("resolution", VStr "640x480")]].
Proof. vm_compute. reflexivity. Qed.

Lemma word_language_unique_sample :
  unique_keys
    (documents (mongo (push_dataset "echosignuobs" 5%Z (λ _, Connected) None
                         (Some [sample_file ["PSL"; "Hello.mp4"];
                                sample_file ["psl"; "hello.mp4"]])
                         false sample_world).2)).
Proof.
  apply (proj1 word_language_unique "echosignuobs" 5%Z (λ _, Connected) None
           (Some [sample_file ["PSL"; "Hello.mp4"]; sample_file ["psl"; "hello.mp4"]])
           false sample_world).
  intros word language. vm_compute. lia.
Defined.

Lemma clip_type_by_word_length_sample :
  let e := {| v_word := "a"; v_key := "a.mp4";
              v_url := "https://echosignuobs.s3.eu-north-1.amazonaws.com/a.mp4";
              v_type := "letter" |} in
  v_key e ∈ listed_keys sample_pages
  ∧ v_word e
    = PyStr.strip
        (PyStr.replace
           (PyStr.lower
              (PyStr.replace (PyStr.last_item (PyStr.split (v_key e) "/")) ".mp4" ""))
           "_" " ")
  ∧ (v_type e = "letter" ∧ length (v_word e) = 1
     ∨ v_type e = "word" ∧ 1 < length (v_word e)).
Proof.
  assert (Hok : is_Ok (index_pages sample_env sample_pages (∅, ∅))) by (vm_compute; exact I).
  apply (proj1 clip_type_by_word_length sample_env
           {| S3_AVAILABLE := true; video_index := ∅; pending_index := ∅ |}
           sample_pages "a" _ eq_refl Hok).
  vm_compute. reflexivity.
Defined.

(** The type the populator gives to a file name, and the type the dataset
    push gives to it. *)
Definition populator_type (name : str) : list (option PyVal) :=
  get_field "type" <$> populate_file 5%Z "PSL" {| filename := name; clip := None |} [].

Definition push_type (name : str) : list (option PyVal) :=
  (λ op, get_field "type" (replacement op))
    <$> mongo_ops (push_file "echosignuobs" 5%Z false true (sample_file ["PSL"; name])
                     ({| mongo_ops := []; total_uploaded := 0; total_skipped := 0 |},
                      sample_world)).1.

Example types_of_dotted_name :
  populator_type "a.b.mp4" = [Some (VStr "letter")]
  ∧ push_type "a.b.mp4" = [Some (VStr "word")]
  ∧ populator_type ".mp4" = [Some (VStr "letter")]
  ∧ (λ r, get_field "word" r)
      <$> populate_file 5%Z "PSL" {| filename := ".mp4"; clip := None |} []
    = [Some (VStr "")]
  ∧ v_type <$> (index_s3_files sample_env
                  {| S3_AVAILABLE := true; video_index := ∅; pending_index := ∅ |}
                  (PagesYield {| Contents := Some [sample_object "a.b.mp4"] |} PagesEnd)).(video_index)
                !! "a.b"
    = Some "word".
Proof. split_and!; vm_compute; reflexivity. Qed.

(** No length read off the file name types the videos as the claim says in
    both the populator and the dataset push: for 'a.b.mp4' the populator,
    which takes the name up to its first dot, says 'letter', and the
    dataset push, which takes the stem, says 'word'. *)
Lemma clip_type_not_by_filename_length :
  ¬ ∃ len : str → nat,
      ∀ name, PyStr.endswith name ".mp4" = true →
        (populator_type name = [Some (VStr "letter")] ↔ len name = 1)
        ∧ (push_type name = [Some (VStr "letter")] ↔ len name = 1).
Proof.
  intros [len Hlen]. destruct (Hlen "a.b.mp4" eq_refl) as [[Hone _] [_ Hletter]].
  assert (Hpush : push_type "a.b.mp4" = [Some (VStr "letter")]).
  { apply Hletter, Hone. vm_compute. reflexivity. }
  vm_compute in Hpush. discriminate Hpush.
Qed.

(** A run of the dataset push writes a document of six fields under its
    identifier, with no time stamp, and no row: the record is not in the
    relational table.  A run of the populator writes a row and no
    document. *)
Lemma push_record_without_timestamp :
  let pushed_stores :=
    run_push_dataset "echosignuobs" 5%Z (λ _, Connected) None
                     (Some [sample_file ["PSL"; "hello.mp4"]]) false true ∅ sample_stores in
  let populated_stores :=
    run_populate_database 5%Z [Some [{| filename := "hello.mp4"; clip := None |}]] ["PSL"]
                          sample_stores in
  fields <$> documents (mongo_videos pushed_stores)
  = [["_id"; "word"; "language"; "file_path"; "type"; "duration"; "resolution"]]
  ∧ count_key "hello" "PSL" (documents (mongo_videos pushed_stores)) = 1
  ∧ count_key "hello" "PSL" (sql_videos pushed_stores) = 0
  ∧ count_key "hello" "PSL" (sql_videos populated_stores) = 1
  ∧ count_key "hello" "PSL" (documents (mongo_videos populated_stores)) = 0.
Proof. split_and!; vm_compute; reflexivity. Qed.

Example push_and_populate_stores :
  run_push_dataset "echosignuobs" 5%Z (λ _, Connected) None
                   (Some [sample_file ["PSL"; "hello.mp4"]]) false true ∅ sample_stores
  = {| sql_videos := [];
       mongo_videos :=
         {| documents :=
              [[("_id", VObjectId 0); ("word", VStr "hello"); ("language", VStr "PSL");
                ("file_path", VStr "https://echosignuobs.s3.amazonaws.com/PSL/hello.mp4");
                ("type", VStr "word"); ("duration", VNone);
                ("resolution", VStr "640x480")]];
            next_id := 1 |} |}
  ∧ run_populate_database 5%Z [Some [{| filename := "hello.mp4"; clip := None |}]] ["PSL"]
                          sample_stores
    = {| sql_videos :=
           [[("word", VStr "hello"); ("language", VStr "PSL");
             ("file_path", VStr "/videos/PSL/hello.mp4"); ("type", VStr "word");
             ("duration", VNone); ("resolution", VNone); ("updated_at", VTimestamp 5%Z)]];
         mongo_videos := {| documents := []; next_id := 0 |} |}.
Proof. split; vm_compute; reflexivity. Qed.

Example populate_replaces :
  populate_database 9%Z
    [Some [{| filename := "Hello.mp4"; clip := Some {| clip_duration := QArith_base.Qmake 3 2;
                                                        clip_w := 640; clip_h := 480 |} |}]]
    ["PSL"; "GSL"; "ASL"]
    [[("word", VStr "hello"); ("language", VStr "PSL");
      ("file_path", VStr "/videos/PSL/hello.mp4"); ("type", VStr "word");
      ("duration", VNone); ("resolution", VNone); ("updated_at", VTimestamp 5%Z)]]
  = [[("word", VStr "hello"); ("language", VStr "PSL");
      ("file_path", VStr "/videos/PSL/Hello.mp4"); ("type", VStr "word");
      ("duration", VFloat (QArith_base.Qmake 3 2)); ("resolution", VStr "640x480");
      ("updated_at", VTimestamp 9%Z)]].
Proof. vm_compute. reflexivity. Qed.

Example paginate_sample :
  paginate sample_bucket
  = PagesYield
      {| Contents :=
           Some [{| obj_Key := Some "Hello_World.mp4"; obj_LastModified := Some 3%Z;
                    obj_Size := Some 5%Z |};
                 {| obj_Key := Some "pending/hi.mp4"; obj_LastModified := Some 3%Z;
                    obj_Size := Some 2%Z |}] |}
      PagesEnd
  ∧ paginate ∅ = PagesYield {| Contents := None |} PagesEnd.
Proof. split; vm_compute; reflexivity. Qed.

End samples.
(** * The rest of the programs *)

(** ** voice_server.py: the session routes *)

(** What an answer asks the browser to do with its cookies
    ([response.set_cookie], [response.delete_cookie]). *)
Inductive CookieChange :=
| SetCookie (key value : str)
| DeleteCookie (key : str).

(** [login] (lines 151-158) *)
Definition login (username password : str) : Response * list CookieChange :=
  if bool_decide (username = "admin") && bool_decide (password = "admin")
  then (RedirectResponse "/admin" 303, [SetCookie "admin_session" "active"])
  else (RedirectResponse "/login?error=Invalid Credentials" 303, []).

(** [logout] (lines 160-164) *)
Definition logout : Response * list CookieChange :=
  (RedirectResponse "/login" 303, [DeleteCookie "admin_session"]).

(** [home] (lines 314-317) *)
Definition home (request : Request) : Response :=
  if check_auth request then RedirectResponse "/admin" 307
  else RedirectResponse "/login" 307.

(** [health] (lines 414-416): the number of approved entries. *)
Definition health (st : State) : str * nat := ("ok", size (video_index st)).

(** The cookies a browser holds once it has received the answer. *)
Definition received (jar : gmap str str) (changes : list CookieChange)
    : gmap str str :=
  foldl (λ jar change,
           match change with
           | SetCookie key value => <[key := value]> jar
           | DeleteCookie key => delete key jar
           end) jar changes.

(** X1.  A browser passes [check_auth] after a login exactly when the
    credentials were admin/admin or it already held the session cookie; a
    refused login is redirected back to the login page with the error; and
    after a logout the browser no longer passes, so [home] sends it to the
    login page. *)
Theorem login_opens_session (jar : gmap str str) (username password : str) :
  (check_auth {| cookies := received jar (login username password).2 |} = true
   ↔ (username = "admin" ∧ password = "admin") ∨ check_auth {| cookies := jar |} = true)
  ∧ ((username ≠ "admin" ∨ password ≠ "admin") →
     login username password
     = (RedirectResponse "/login?error=Invalid Credentials" 303, []))
  ∧ check_auth {| cookies := received jar logout.2 |} = false
  ∧ home {| cookies := received jar logout.2 |} = RedirectResponse "/login" 307.
Proof.
  assert (Hout : check_auth {| cookies := received jar logout.2 |} = false).
  { unfold check_auth, logout, received. cbn [snd foldl cookies].
    rewrite lookup_delete_eq. by apply bool_decide_eq_false. }
  split_and!.
  - unfold login. destruct (decide (username = "admin")) as [->|Hu];
      [destruct (decide (password = "admin")) as [->|Hp]|].
    + rewrite !bool_decide_eq_true_2 by done. cbn. unfold check_auth. cbn [cookies].
      rewrite lookup_insert_eq. rewrite bool_decide_eq_true_2 by done. naive_solver.
    + rewrite (bool_decide_eq_false_2 (password = "admin")) by done.
      rewrite andb_false_r. cbn. naive_solver.
    + rewrite (bool_decide_eq_false_2 (username = "admin")) by done. cbn. naive_solver.
  - unfold login. intros [Hu|Hp].
    + by rewrite (bool_decide_eq_false_2 (username = "admin")) by done.
    + rewrite (bool_decide_eq_false_2 (password = "admin")) by done.
      by rewrite andb_false_r.
  - exact Hout.
  - unfold home. by rewrite Hout.
Qed.

Section session_samples.
#[local] Existing Instance sample_tables.

Lemma login_opens_session_sample :
  login "admin" "Admin" = (RedirectResponse "/login?error=Invalid Credentials" 303, []).
Proof.
  apply (proj1 (proj2 (login_opens_session ∅ "admin" "Admin"))). right. discriminate.
Defined.

End session_samples.

(** ** voice_server.py: the guards of the handlers *)

(** X2.  Without the session cookie, or with the store found unreachable
    at start-up, no admin handler changes the bucket or the indices: the
    request without the cookie is redirected to the login page, and the
    authenticated one on an unreachable store gets status 500, as does
    every mobile upload then. *)
Theorem admin_handlers_guarded `{tables : Unicode} (env : Env) (request : Request)
    (file : UploadFile)
    (key action old_key new_name name : str) (now : DateTime)
    (st : State) (bucket : gmap str StoredObject) :
  check_auth request = false ∨ S3_AVAILABLE st = false →
  let guarded (answer : Response * (State * gmap str StoredObject)) :=
    answer = (if check_auth request then HTTPException 500 "S3 Offline"
              else RedirectResponse "/login" 307, (st, bucket)) in
  guarded (admin_action env request key action now (st, bucket))
  ∧ guarded (admin_delete env request key (st, bucket))
  ∧ guarded (admin_edit env request old_key new_name now (st, bucket))
  ∧ guarded (admin_upload env request file name now (st, bucket))
  ∧ (S3_AVAILABLE st = false →
     mobile_upload env file name now (st, bucket)
     = (HTTPException 500 "S3 Offline", (st, bucket))).
Proof.
  intros Hguard. cbv zeta.
  unfold admin_action, admin_delete, admin_edit, admin_upload, mobile_upload.
  destruct (check_auth request); cbn [negb].
  - destruct Hguard as [|Hoff]; [done|]. rewrite Hoff. done.
  - split_and!; try done. by intros ->.
Qed.

Section guard_samples.
#[local] Existing Instance sample_tables.

Lemma admin_handlers_guarded_sample :
  admin_delete sample_env {| cookies := ∅ |} "Hello_World.mp4" (sample_state, sample_bucket)
  = (RedirectResponse "/login" 307, (sample_state, sample_bucket)).
Proof.
  assert (Hguard : check_auth {| cookies := ∅ |} = false
                   ∨ S3_AVAILABLE sample_state = false) by (left; reflexivity).
  exact (proj1 (proj2 (admin_handlers_guarded sample_env {| cookies := ∅ |}
                         {| read := Ok "" |} "Hello_World.mp4" "" "" "" "" 0%Z
                         sample_state sample_bucket Hguard))).
Defined.

End guard_samples.

(** ** voice_server.py: the mobile upload *)

Section mobile.
Context `{tables : Unicode} (env : Env).

Lemma pending_upload_key name :
  PyStr.startswith ("pending/" ++ clean_name name ++ ".mp4") "pending/" = true
  ∧ PyStr.endswith ("pending/" ++ clean_name name ++ ".mp4") ".mp4" = true.
Proof.
  split; [apply startswith_prefix|].
  rewrite <- append_assoc. apply endswith_suffix.
Qed.

(** The answer of an upload that went through, with the state and the
    bucket it leaves. *)
Lemma mobile_upload_accepted st bucket file name now body :
  S3_AVAILABLE st = true → check_duplicate st name = None → read file = Ok body →
  let key := "pending/" ++ clean_name name ++ ".mp4" in
  mobile_upload env file name now (st, bucket)
  = (JSONResponse [("message", "Video uploaded for review!"); ("status", "pending")],
     ({| S3_AVAILABLE := true;
         video_index := video_index st;
         pending_index :=
           <[key := {| p_key := key;
                       p_filename := clean_name name ++ ".mp4";
                       p_url := get_public_url env key;
                       p_date := strftime env now "%Y-%m-%d %H:%M";
                       p_size := "New" |}]> (pending_index st) |},
      <[key := {| Body := body; LastModified := now |}]> bucket)).
Proof.
  intros Havail Hcheck Hread. unfold mobile_upload.
  rewrite Havail, Hcheck. cbn [negb]. unfold s3_bind, s3_upload_file. by rewrite Hread.
Qed.

(** The outcomes of an upload that did not go through leave everything as
    it was. *)
Lemma mobile_upload_outcome st bucket file name now :
  (mobile_upload env file name now (st, bucket)).2 = (st, bucket)
  ∨ ∃ body, S3_AVAILABLE st = true ∧ check_duplicate st name = None
            ∧ read file = Ok body.
Proof.
  unfold mobile_upload. destruct (S3_AVAILABLE st) eqn:Havail; cbn [negb]; [|by left].
  destruct (check_duplicate st name) eqn:Hcheck; [by left|].
  unfold s3_bind, s3_upload_file. destruct (read file) as [body|] eqn:Hread; [|by left].
  right. by exists body.
Qed.

(** X3.  Whatever its outcome, a mobile upload leaves the approved index
    as it is, and it changes no object and no index entry under a key that
    does not start with 'pending/'. *)
Theorem mobile_upload_only_pending (st : State) (bucket : gmap str StoredObject)
    (file : UploadFile) (name : str) (now : DateTime) :
  let after := (mobile_upload env file name now (st, bucket)).2 in
  video_index after.1 = video_index st
  ∧ ∀ k, PyStr.startswith k "pending/" = false →
         after.2 !! k = bucket !! k ∧ pending_index after.1 !! k = pending_index st !! k.
Proof.
  cbv zeta. destruct (mobile_upload_outcome st bucket file name now)
    as [->|(body & Havail & Hcheck & Hread)]; [done|].
  rewrite (mobile_upload_accepted st bucket file name now body Havail Hcheck Hread).
  cbn [fst snd video_index pending_index]. split; [done|]. intros k Hk.
  assert (Hne : "pending/" ++ clean_name name ++ ".mp4" ≠ k).
  { intros <-. by rewrite (proj1 (pending_upload_key name)) in Hk. }
  by rewrite !lookup_insert_ne.
Qed.

(** The name as [check_duplicate] reads it. *)
Definition base_name (name : str) : str :=
  PyStr.replace (PyStr.lower (PyStr.strip name)) " " "_".


End mobile.

Section mobile_samples.
#[local] Existing Instance sample_tables.


(** A name with a character that the cleaning drops is not recognised the
    second time: the upload goes through again, onto the same key. *)
Example mobile_upload_twice_missed :
  let after := (mobile_upload sample_env {| read := Ok "video" |} "hi!" 5%Z
                  (sample_state, ∅)).2 in
  (mobile_upload sample_env {| read := Ok "other" |} "hi!" 6%Z after).1
  = JSONResponse [("message", "Video uploaded for review!"); ("status", "pending")]
  ∧ Body <$> (mobile_upload sample_env {| read := Ok "other" |} "hi!" 6%Z after).2.2
             !! "pending/hi.mp4" = Some "other".
Proof. split; vm_compute; reflexivity. Qed.

End mobile_samples.

Section moderation.
Context `{tables : Unicode} (env : Env).




(** A suffix without the separator is a suffix of the last segment. *)
Lemma endswith_segment (sep : char) suf q f :
  no_sep sep suf = true → PyStr.endswith (q ++ sep :: f) suf = true →
  PyStr.endswith f suf = true.
Proof.
  intros Hsuf. induction q as [|c q IH].
  - rewrite ?append_empty_l. cbn [PyStr.endswith].
    case_bool_decide as Heq; [|done].
    subst suf. unfold no_sep in Hsuf. simpl in Hsuf.
    by rewrite N.eqb_refl in Hsuf.
  - rewrite ?append_String. cbn [PyStr.endswith].
    case_bool_decide as Heq; [|done].
    subst suf. unfold no_sep in Hsuf.
    rewrite <- append_String, all_append in Hsuf. simpl in Hsuf.
    rewrite N.eqb_refl in Hsuf. simpl in Hsuf. by rewrite andb_false_r in Hsuf.
Qed.

(** The last segment of a key under 'pending/' that ends in '.mp4': it
    ends in '.mp4', it does not start with 'pending/', and its word is the
    word of the key. *)
Lemma pending_filename key :
  PyStr.startswith key "pending/" = true → PyStr.endswith key ".mp4" = true →
  let filename := PyStr.last_item (PyStr.split key "/") in
  filename ≠ key
  ∧ PyStr.endswith filename ".mp4" = true
  ∧ PyStr.startswith filename "pending/" = false
  ∧ derived_word filename = derived_word key.
Proof.
  intros Hpre Hmp4. cbv zeta.
  destruct (pending_key_segment key Hpre) as [Hne _].
  destruct (last_item_split "/" key) as [Hno [Hkey|[q Hq]]]; [by rewrite <- Hkey in Hne|].
  split_and!; [done| | |].
  - rewrite Hq in Hmp4. by apply (endswith_segment "/" ".mp4") in Hmp4.
  - destruct (PyStr.startswith (PyStr.last_item (PyStr.split key "/")) "pending/")
      eqn:Hf; [|done].
    apply startswith_append in Hf as [r Hr]. rewrite Hr in Hno.
    unfold no_sep in Hno. by rewrite all_append in Hno.
  - unfold derived_word. by rewrite (split_no_sep _ _ Hno).
Qed.

(** The keys of the pending index end in '.mp4'. *)
Lemma reachable_pending_mp4 st k e :
  reachable env st → pending_index st !! k = Some e → PyStr.endswith k ".mp4" = true.
Proof.
  intros Hreach. revert k e.
  induction Hreach as [available|st pages _ IH|st file name now bucket _ IH]; intros k e.
  - cbn [pending_index]. by rewrite lookup_empty.
  - unfold index_s3_files. destruct (S3_AVAILABLE st); cbn [negb]; [|apply IH].
    destruct (index_pages env pages (∅, ∅)) as [[v p]|] eqn:Hrun; [|apply IH].
    destruct (index_pages_indexed env pages [] (∅, ∅) (v, p) indexed_empty Hrun)
      as (Hp & _). cbn [pending_index]. intros Hk.
    destruct (proj1 (Hp k)) as (_ & ? & _); [by exists e|done].
  - destruct (mobile_upload_outcome env st bucket file name now)
      as [->|(body & Havail & Hcheck & Hread)]; [apply IH|].
    rewrite (mobile_upload_accepted env st bucket file name now body Havail Hcheck Hread).
    cbn [fst snd pending_index].
    destruct (decide (k = "pending/" ++ clean_name name ++ ".mp4")) as [->|Hne].
    + intros _. apply pending_upload_key.
    + rewrite lookup_insert_ne by done. apply IH.
Qed.

(** The entries of the approved index a refresh on a bucket gives are made
    from keys of the bucket. *)
Lemma refresh_entries st bucket w e :
  S3_AVAILABLE st = true →
  video_index (index_s3_files env st (paginate bucket)) !! w = Some e →
  is_Some (bucket !! v_key e) ∧ derived_word (v_key e) = w
  ∧ PyStr.startswith (v_key e) "pending/" = false.
Proof.
  intros Havail. unfold index_s3_files. rewrite Havail. cbn [negb].
  pose proof (index_pages_complete env (paginate bucket) (paginate_no_raise bucket)
                (paginate_complete bucket) (∅, ∅)) as Hok.
  destruct (index_pages env (paginate bucket) (∅, ∅)) as [[v p]|] eqn:Hrun; [|done].
  destruct (index_pages_indexed env _ [] (∅, ∅) (v, p) indexed_empty Hrun)
    as (_ & _ & _ & Hve).
  cbn [video_index fst snd app] in *. intros Hwe.
  destruct (Hve w e Hwe) as (_ & Hin & _ & ? & ? & _).
  split_and!; [|done..]. by apply paginate_keys.
Qed.

(** X6.  Approving a key of the pending index whose object is in the
    bucket moves the object, with its content, to the key's last segment,
    takes the key out of the pending index, and puts the word of the key
    (when it is not empty) into the approved index. *)
Theorem approve_publishes (st : State) (bucket : gmap str StoredObject)
    (request : Request) (key : str) (e : PendingEntry) (obj : StoredObject)
    (now : DateTime) :
  reachable env st → check_auth request = true →
  pending_index st !! key = Some e → bucket !! key = Some obj →
  let after := (admin_action env request key "approve" now (st, bucket)).2 in
  after.2 !! key = None
  ∧ after.2 !! PyStr.last_item (PyStr.split key "/")
    = Some {| Body := Body obj; LastModified := now |}
  ∧ pending_index after.1 !! key = None
  ∧ (derived_word key ≠ "" → is_Some (video_index after.1 !! derived_word key)).
Proof.
  intros Hreach Hauth Hke Hobj. cbv zeta.
  pose proof (approved_key_not_pending env st bucket request key e obj now
                Hreach Hauth Hke Hobj) as Hgone.
  destruct (reachable_wf env st Hreach) as [Hoff Hpend].
  assert (Havail : S3_AVAILABLE st = true).
  { destruct (S3_AVAILABLE st); [done|]. destruct (Hoff eq_refl) as [_ Hp].
    by rewrite Hp, lookup_empty in Hke. }
  destruct (Hpend key e Hke) as (Hpre & _ & _).
  pose proof (reachable_pending_mp4 st key e Hreach Hke) as Hmp4.
  destruct (pending_filename key Hpre Hmp4) as (Hne & Hfmp4 & Hfpre & Hword).
  revert Hgone. unfold admin_action. rewrite Hauth, Havail. cbn [negb].
  rewrite bool_decide_eq_true_2 by done.
  unfold s3_bind, copy_object, delete_object. rewrite Hobj.
  rewrite bool_decide_eq_false_2 by (intros Heq; by apply Hne). cbn [fst snd].
  intros Hgone. split_and!; [apply lookup_delete_eq| |done|].
  - rewrite lookup_delete_ne by (intros Heq; by apply Hne). apply lookup_insert_eq.
  - intros Hw. apply (refresh_from_bucket env st _ Havail). split; [done|].
    exists (PyStr.last_item (PyStr.split key "/")). split_and!; [|done..].
    rewrite lookup_delete_ne by (intros Heq; by apply Hne).
    rewrite lookup_insert_eq. by eexists.
Qed.

(** X7.  Deleting a key, by the delete handler or by rejecting it, takes
    the object out of the bucket and leaves the other objects as they are;
    after the refresh no entry of the pending or of the approved index is
    made from the key. *)
Theorem delete_removes (st : State) (bucket : gmap str StoredObject)
    (request : Request) (key : str) (now : DateTime) :
  check_auth request = true → S3_AVAILABLE st = true →
  let removed (after : State * gmap str StoredObject) :=
    after.2 = delete key bucket
    ∧ pending_index after.1 !! key = None
    ∧ ∀ w e, video_index after.1 !! w = Some e → v_key e ≠ key in
  removed (admin_delete env request key (st, bucket)).2
  ∧ removed (admin_action env request key "reject" now (st, bucket)).2.
Proof.
  intros Hauth Havail. cbv zeta.
  assert (Hrefresh :
    pending_index (index_s3_files env st (paginate (delete key bucket))) !! key = None
    ∧ ∀ w e, video_index (index_s3_files env st (paginate (delete key bucket))) !! w
             = Some e → v_key e ≠ key).
  { split.
    - apply eq_None_not_Some.
      intros [Hin _]%(proj1 (refresh_from_bucket env st _ Havail)).
      rewrite lookup_delete_eq in Hin. by destruct Hin.
    - intros w e Hwe Heq. destruct (refresh_entries st _ w e Havail Hwe) as ([? Hin] & _).
      by rewrite Heq, lookup_delete_eq in Hin. }
  unfold admin_delete, admin_action. rewrite Hauth, Havail. cbn [negb].
  rewrite bool_decide_eq_false_2 by done. rewrite bool_decide_eq_true_2 by done.
  unfold delete_object. cbn [fst snd]. done.
Qed.

End moderation.

Section moderation_samples.
#[local] Existing Instance sample_tables.

Definition sample_pending_entry : PendingEntry :=
  {| p_key := "pending/hi.mp4"; p_filename := "hi.mp4";
     p_url := "https://echosignuobs.s3.eu-north-1.amazonaws.com/pending/hi.mp4";
     p_date := "day 3"; p_size := "2.0 KB" |}.



Lemma approve_publishes_sample :
  let after := (admin_action sample_env sample_admin "pending/hi.mp4" "approve" 5%Z
                  (sample_state, sample_bucket)).2 in
  after.2 !! "pending/hi.mp4" = None
  ∧ after.2 !! "hi.mp4" = Some {| Body := "hi"; LastModified := 5%Z |}
  ∧ pending_index after.1 !! "pending/hi.mp4" = None
  ∧ (derived_word "pending/hi.mp4" ≠ "" →
     is_Some (video_index after.1 !! derived_word "pending/hi.mp4")).
Proof.
  apply (approve_publishes sample_env sample_state sample_bucket sample_admin
           "pending/hi.mp4" sample_pending_entry
           {| Body := "hi"; LastModified := 3%Z |} 5%Z sample_state_reachable);
    vm_compute; reflexivity.
Defined.

Lemma delete_removes_sample :
  (admin_delete sample_env sample_admin "Hello_World.mp4" (sample_state, sample_bucket)).2.2
  = delete "Hello_World.mp4" sample_bucket.
Proof.
  exact (proj1 (proj1 (delete_removes sample_env sample_state sample_bucket sample_admin
                         "Hello_World.mp4" 5%Z eq_refl eq_refl))).
Defined.

End moderation_samples.

(** ** voice_server.py: renaming and the admin upload *)

(** Removing '.mp4' from a name without a dot followed by '.mp4'. *)
Lemma replace_mp4_suffix s :
  PyStr.all (λ c, negb (N.eqb "."%pychar c)) s = true →
  PyStr.replace (s ++ ".mp4") ".mp4" "" = s.
Proof.
  literals. unfold PyStr.replace. induction s as [|c s IH]; [done|].
  intros [Hc Hs]%andb_true_iff. apply negb_true_iff in Hc.
  rewrite ?append_String. cbn [PyStr.replace_from PyStr.startswith]. rewrite Hc.
  by rewrite (IH Hs).
Qed.

Section rename.
Context `{tables : Unicode} (env : Env).

Lemma cleaned_filename name :
  PyStr.endswith (clean_name name ++ ".mp4") ".mp4" = true
  ∧ PyStr.startswith (clean_name name ++ ".mp4") "pending/" = false.
Proof.
  split; [apply endswith_suffix|].
  destruct (PyStr.startswith (clean_name name ++ ".mp4") "pending/") eqn:Hf; [|done].
  apply startswith_append in Hf as [r Hr].
  pose proof (clean_name_no_slash name) as Hno. rewrite Hr in Hno.
  unfold no_sep in Hno. by rewrite all_append in Hno.
Qed.

(** X8.  Whatever the request and its outcome, a rename leaves the
    objects under the keys other than the old and the new one as they
    are; and it leaves the object under the new key as it is when the HEAD
    request on that key does not fail for another reason than the absence
    of the key: the name is then reported as taken.  (The handler takes
    every failure of that request for a free name; see
    [admin_edit_overwrites].) *)
Theorem admin_edit_keeps_others (request : Request) (old_key new_name : str)
    (now : DateTime) (st : State) (bucket : gmap str StoredObject)
    (k : str) (obj : StoredObject) :
  k ≠ old_key → bucket !! k = Some obj →
  k ≠ clean_name new_name ++ ".mp4" ∨ head_fault env k = None →
  (admin_edit env request old_key new_name now (st, bucket)).2.2 !! k = Some obj.
Proof.
  intros Hne Hk Hnew. unfold admin_edit.
  destruct (check_auth request); cbn [negb]; [|done].
  destruct (S3_AVAILABLE st); cbn [negb]; [|done].
  case_bool_decide as Hsame; [done|].
  assert (Hcopy :
    (match s3_bind (copy_object now old_key (clean_name new_name ++ ".mp4"))
                   (λ _, delete_object old_key) bucket with
     | (Ok _, bucket') =>
         (RedirectResponse "/admin?success=Renamed" 303,
          (index_s3_files env st (paginate bucket'), bucket'))
     | (Raised e, bucket') =>
         (RedirectResponse ("/admin?error=" ++ str_exn e) 303, (st, bucket'))
     end).2.2 !! k = Some obj
    ∨ k = clean_name new_name ++ ".mp4").
  { unfold s3_bind, copy_object, delete_object.
    destruct (bucket !! old_key) as [old|]; [|by left].
    rewrite bool_decide_eq_false_2 by done. cbn [fst snd].
    destruct (decide (k = clean_name new_name ++ ".mp4")) as [->|Hother]; [by right|].
    left. rewrite lookup_delete_ne by done. by rewrite lookup_insert_ne. }
  unfold head_object.
  destruct (head_fault env (clean_name new_name ++ ".mp4")) as [e|] eqn:Hfault.
  - destruct Hcopy as [Hkept| ->]; [done|].
    destruct Hnew as [Hnew|Hnew]; [done|]. by rewrite Hnew in Hfault.
  - destruct (bucket !! (clean_name new_name ++ ".mp4")) as [taken|] eqn:Htaken; [done|].
    destruct Hcopy as [Hkept| ->]; [done|]. by rewrite Htaken in Hk.
Qed.

Hypothesis lower_stable : ∀ before c after, Forall lowered (PyStr.lower_char before c after).

(** The word the indexer derives from the key of a cleaned name. *)
Lemma derived_word_clean name :
  derived_word (clean_name name ++ ".mp4")
  = PyStr.strip (PyStr.replace (clean_name name) "_" " ").
Proof.
  unfold derived_word. rewrite (split_no_sep "/" _ (clean_name_no_slash name)).
  change (PyStr.last_item [clean_name name ++ ".mp4"]) with (clean_name name ++ ".mp4").
  pose proof (clean_name_chars name) as Hclean.
  rewrite replace_mp4_suffix.
  2:{ eapply all_impl; [|exact Hclean]. intros c Hc. by rewrite (isalnum_not_dot _ Hc). }
  by rewrite (lower_lowered _ (clean_name_lowered lower_stable name)).
Qed.

(** X9.  Renaming an object to a free name moves its content to the
    cleaned name followed by '.mp4' and removes the old key; after the
    refresh no index entry is made from the old key, and the approved
    index has the word of the new name (its underscores read as spaces,
    stripped) when that word is not empty.  Beyond the ASCII range this
    rests on the fact that the characters of the lower case of a character
    are their own lower case. *)
Theorem admin_edit_renames (request : Request) (old_key new_name : str)
    (now : DateTime) (st : State) (bucket : gmap str StoredObject) (obj : StoredObject) :
  check_auth request = true → S3_AVAILABLE st = true →
  bucket !! old_key = Some obj →
  bucket !! (clean_name new_name ++ ".mp4") = None →
  let answer := admin_edit env request old_key new_name now (st, bucket) in
  let word := PyStr.strip (PyStr.replace (clean_name new_name) "_" " ") in
  answer.1 = RedirectResponse "/admin?success=Renamed" 303
  ∧ answer.2.2 !! (clean_name new_name ++ ".mp4")
    = Some {| Body := Body obj; LastModified := now |}
  ∧ answer.2.2 !! old_key = None
  ∧ pending_index answer.2.1 !! old_key = None
  ∧ (∀ w e, video_index answer.2.1 !! w = Some e → v_key e ≠ old_key)
  ∧ (word ≠ "" → is_Some (video_index answer.2.1 !! word)).
Proof.
  intros Hauth Havail Hold Hnew. cbv zeta.
  assert (Hne : clean_name new_name ++ ".mp4" ≠ old_key).
  { intros Heq. by rewrite Heq, Hold in Hnew. }
  unfold admin_edit. rewrite Hauth, Havail. cbn [negb].
  rewrite bool_decide_eq_false_2 by done.
  assert (Hhead : ∃ e, head_object env (clean_name new_name ++ ".mp4") bucket
                       = (Raised e, bucket)).
  { unfold head_object. rewrite Hnew. destruct (head_fault env _); by eexists. }
  destruct Hhead as [err ->].
  unfold s3_bind, copy_object, delete_object. rewrite Hold.
  rewrite bool_decide_eq_false_2 by done. cbn [fst snd].
  set (bucket' := delete old_key _).
  assert (Hmoved : bucket' !! (clean_name new_name ++ ".mp4")
                   = Some {| Body := Body obj; LastModified := now |}).
  { subst bucket'. rewrite lookup_delete_ne by done. apply lookup_insert_eq. }
  assert (Hgone : bucket' !! old_key = None) by apply lookup_delete_eq.
  split_and!; [done..| | |].
  - apply eq_None_not_Some.
    intros [Hin _]%(proj1 (refresh_from_bucket env st _ Havail)).
    rewrite Hgone in Hin. by destruct Hin.
  - intros w e Hwe Heq. destruct (refresh_entries env st _ w e Havail Hwe) as ([? Hin] & _).
    by rewrite Heq, Hgone in Hin.
  - intros Hword. apply (refresh_from_bucket env st _ Havail). split; [done|].
    exists (clean_name new_name ++ ".mp4"). destruct (cleaned_filename new_name).
    split_and!; [by rewrite Hmoved|done..|apply derived_word_clean].
Qed.

(** X10.  After an admin upload that went through, of a name that the
    cleaning leaves whole and whose word (the name with spaces for
    underscores) has no space at its ends and is not empty, the object is
    stored under the cleaned name followed by '.mp4' and [check_duplicate]
    finds the name in the approved index: uploading it again is refused.
    Beyond the ASCII range this rests on the fact that the characters of
    the lower case of a character are their own lower case. *)
Theorem admin_upload_then_duplicate (request : Request) (file : UploadFile)
    (name body : str) (now : DateTime) (st : State)
    (bucket : gmap str StoredObject) :
  check_auth request = true → S3_AVAILABLE st = true →
  check_duplicate st name = None → read file = Ok body →
  clean_name name = base_name name →
  let search_word := PyStr.replace (base_name name) "_" " " in
  PyStr.strip search_word = search_word → search_word ≠ "" →
  let answer := admin_upload env request file name now (st, bucket) in
  answer.1 = RedirectResponse "/admin?success=Uploaded" 303
  ∧ answer.2.2 !! (clean_name name ++ ".mp4")
    = Some {| Body := body; LastModified := now |}
  ∧ check_duplicate answer.2.1 name
    = Some ("Video '" ++ search_word ++ "' already exists in Approved.").
Proof.
  intros Hauth Havail Hcheck Hread Hclean search_word Hstrip Hword. cbv zeta.
  unfold admin_upload. rewrite Hauth, Havail, Hcheck. cbn [negb].
  unfold s3_bind, s3_upload_file. rewrite Hread. cbn [fst snd].
  split_and!; [done|apply lookup_insert_eq|].
  unfold check_duplicate. fold (base_name name). fold search_word.
  rewrite bool_decide_eq_true_2; [done|].
  apply (refresh_from_bucket env st _ Havail). split; [done|].
  exists (clean_name name ++ ".mp4"). destruct (cleaned_filename name).
  split_and!; [by rewrite lookup_insert_eq|done..|].
  rewrite derived_word_clean, Hclean. exact Hstrip.
Qed.

End rename.

Section rename_samples.
#[local] Existing Instance sample_tables.

Lemma admin_edit_keeps_others_sample :
  (admin_edit sample_env sample_admin "pending/hi.mp4" "Hello World" 5%Z
              (sample_state,
               <["hello_world.mp4" := {| Body := "older"; LastModified := 1%Z |}]>
                 sample_bucket)).2.2 !! "hello_world.mp4"
  = Some {| Body := "older"; LastModified := 1%Z |}.
Proof.
  apply (admin_edit_keeps_others sample_env sample_admin "pending/hi.mp4" "Hello World" 5%Z
           sample_state _ "hello_world.mp4").
  - discriminate.
  - vm_compute. reflexivity.
  - right. reflexivity.
Defined.

(** A store that refuses the HEAD requests: the rename takes the refusal
    for a free name, and the copy replaces the object that had the name. *)
Example admin_edit_overwrites :
  let refusing :=
    {| BUCKET_NAME := BUCKET_NAME sample_env; AWS_REGION := AWS_REGION sample_env;
       strftime := strftime sample_env; round_kb := round_kb sample_env;
       word_tokenize := word_tokenize sample_env;
       head_fault := λ _, Some (ClientError "403" "HeadObject" "Forbidden") |} in
  let answer :=
    admin_edit refusing sample_admin "pending/hi.mp4" "Hello World" 5%Z
               (sample_state,
                <["hello_world.mp4" := {| Body := "older"; LastModified := 1%Z |}]>
                  sample_bucket) in
  answer.1 = RedirectResponse "/admin?success=Renamed" 303
  ∧ answer.2.2 !! "hello_world.mp4" = Some {| Body := "hi"; LastModified := 5%Z |}.
Proof. split; vm_compute; reflexivity. Qed.

Lemma admin_edit_renames_sample :
  (admin_edit sample_env sample_admin "Hello_World.mp4" "Good Morning" 5%Z
              (sample_state, sample_bucket)).1
  = RedirectResponse "/admin?success=Renamed" 303.
Proof.
  apply (admin_edit_renames sample_env sample_lower_stable sample_admin "Hello_World.mp4"
           "Good Morning" 5%Z sample_state sample_bucket
           {| Body := "hello"; LastModified := 3%Z |});
    vm_compute; reflexivity.
Defined.

Lemma admin_upload_then_duplicate_sample :
  check_duplicate
    (admin_upload sample_env sample_admin {| read := Ok "video" |} "Thank You" 5%Z
                  (sample_state, sample_bucket)).2.1 "Thank You"
  = Some "Video 'thank you' already exists in Approved.".
Proof.
  apply (admin_upload_then_duplicate sample_env sample_lower_stable sample_admin
           {| read := Ok "video" |} "Thank You" "video" 5%Z sample_state sample_bucket);
    try (vm_compute; reflexivity). discriminate.
Defined.

(** The admin upload of a name that starts with an underscore is not found
    again: the word of the index is stripped, the word looked up is not. *)
Example admin_upload_underscore_missed :
  check_duplicate
    (admin_upload sample_env sample_admin {| read := Ok "video" |} "_a" 5%Z
                  (sample_state, ∅)).2.1 "_a"
  = None.
Proof. vm_compute. reflexivity. Qed.

End rename_samples.

(** ** voice_server.py: the translate endpoint on its inputs *)

Section translate_inputs.
Context `{tables : Unicode} (env : Env).

(** The transcription gave no text. *)
Definition nothing_heard (audio : option Transcription) : bool :=
  match audio with
  | None | Some NoRecognizer | Some UnknownValueError | Some (RequestError _)
  | Some (TranscriptionFailed [] _) => true
  | _ => false
  end.

(** X11.  A request with a non-empty sentence is never answered with an
    error, whatever happened to its audio; and when the audio gave no text
    (none sent, no recognizer, speech not understood, service down, or a
    failure before anything was recognized) the answer is the one for the
    sentence alone. *)
Theorem translate_falls_back_on_sentence (st : State) (sentence : str)
    (audio : option Transcription) :
  sentence ≠ "" →
  (∃ text keywords videos,
     translate env st (Some sentence) audio = Translated text keywords videos)
  ∧ (nothing_heard audio = true →
     translate env st (Some sentence) audio = translate env st (Some sentence) None).
Proof.
  intros Hs. destruct sentence as [|c s]; [done|].
  assert (Htext : ∀ text, ∃ t k v, translate_text env st text = Translated t k v).
  { intros [|c' text]; cbn [translate_text]; eauto. }
  split.
  - unfold translate. cbn [truthy negb].
    destruct audio as [[text| | |e|heard e]|]; apply Htext.
  - unfold translate, nothing_heard. cbn [truthy negb].
    destruct audio as [[text| | |e|[|c' heard] e]|]; done.
Qed.

Lemma lstrip_blank s : PyStr.all PyStr.isspace s = true → PyStr.lstrip s = "".
Proof.
  induction s as [|c s IH]; [done|]. simpl. intros [Hc Hs]%andb_true_iff.
  rewrite Hc. auto.
Qed.

(** X12.  A request without audio whose sentence is missing, empty or made
    of white space only is answered with the empty text, no key word and
    no video, whatever the index holds. *)
Theorem translate_blank (st : State) (sentence : option str) :
  (∀ s, sentence = Some s → PyStr.all PyStr.isspace s = true) →
  translate env st sentence None = Translated "" [] [].
Proof.
  intros Hblank. unfold translate. destruct sentence as [[|c s]|]; [done| |done].
  unfold PyStr.strip. by rewrite (lstrip_blank _ (Hblank _ eq_refl)).
Qed.

Lemma mobile_upload_video_index st bucket file name now :
  video_index (mobile_upload env file name now (st, bucket)).2.1 = video_index st.
Proof.
  destruct (mobile_upload_outcome env st bucket file name now)
    as [->|(body & Havail & Hcheck & Hread)]; [done|].
  by rewrite (mobile_upload_accepted env st bucket file name now body Havail Hcheck Hread).
Qed.

(** The approved index holds no entry made from a key under 'pending/'. *)
Lemma reachable_approved st w e :
  reachable env st → video_index st !! w = Some e →
  PyStr.endswith (v_key e) ".mp4" = true ∧ PyStr.startswith (v_key e) "pending/" = false.
Proof.
  intros Hreach. revert w e.
  induction Hreach as [available|st pages _ IH|st file name now bucket _ IH]; intros w e.
  - cbn [video_index]. by rewrite lookup_empty.
  - unfold index_s3_files. destruct (S3_AVAILABLE st); cbn [negb]; [|apply IH].
    destruct (index_pages env pages (∅, ∅)) as [[v p]|] eqn:Hrun; [|apply IH].
    destruct (index_pages_indexed env pages [] (∅, ∅) (v, p) indexed_empty Hrun)
      as (_ & _ & _ & Hve). cbn [video_index]. intros Hwe.
    by destruct (Hve w e Hwe) as (_ & _ & ? & ? & _).
  - rewrite mobile_upload_video_index. apply IH.
Qed.

End translate_inputs.

Section translate_videos.
Context `{tables : Unicode} (env : Env).

(** The video has the key and the address of an entry of the index. *)
Definition from_index (index : gmap str VideoEntry) (v : VideoEntry) : Prop :=
  ∃ w e, index !! w = Some e ∧ v_key v = v_key e ∧ v_url v = v_url e.

Lemma spelled_videos_from_index index word :
  Forall (from_index index) (spelled_videos index word).
Proof.
  induction word as [|c rest IH]; [done|]. cbn [spelled_videos].
  apply Forall_app. split; [|done]. unfold letter_video.
  destruct (index !! [c]) as [e|] eqn:Hc; [|done].
  apply Forall_singleton. by exists [c], e.
Qed.

Lemma videos_per_word_from_index index words :
  Forall (from_index index) (videos_per_word index words).
Proof.
  unfold videos_per_word. induction words as [|word rest IH]; [done|].
  cbn [fmap list_fmap concat]. apply Forall_app. split; [|exact IH].
  unfold word_videos. destruct (index !! word) as [e|] eqn:Hw.
  - apply Forall_singleton. by exists word, e.
  - apply spelled_videos_from_index.
Qed.




(** What holds of the videos per word of the key words holds of the videos
    of every answer. *)
Lemma translate_answer (P : list str → list VideoEntry → Prop) st sentence audio :
  P [] [] →
  (∀ processed,
     P (keywords_of env processed)
       (videos_per_word (video_index st) (PyStr.lower <$> keywords_of env processed))) →
  match translate env st sentence audio with
  | Translated _ keywords videos => P keywords videos
  | TranslateError _ videos => videos = []
  end.
Proof.
  intros Hnil Hwords. unfold translate.
  assert (Htext : ∀ text,
    match translate_text env st text with
    | Translated _ keywords videos => P keywords videos
    | TranslateError _ videos => videos = []
    end).
  { intros [|c text]; [done|]. cbn [translate_text].
    rewrite translate_words_per_word. apply Hwords. }
  destruct audio as [[text| | |e|heard e]|]; try apply Htext;
    destruct (negb (truthy sentence)); try done; apply Htext.
Qed.

(** X13.  On the server as it can be, every video of a translate answer
    has the key and the address of an entry of the approved index, a key
    that ends in '.mp4' and is not under 'pending/': an upload that was not
    approved is never served. *)
Theorem translate_only_approved (st : State) (sentence : option str)
    (audio : option Transcription) :
  reachable env st →
  match translate env st sentence audio with
  | Translated _ _ videos =>
      Forall (λ v, from_index (video_index st) v
                   ∧ PyStr.endswith (v_key v) ".mp4" = true
                   ∧ PyStr.startswith (v_key v) "pending/" = false) videos
  | TranslateError _ videos => videos = []
  end.
Proof.
  intros Hreach.
  apply (translate_answer
           (λ _ videos,
              Forall (λ v, from_index (video_index st) v
                           ∧ PyStr.endswith (v_key v) ".mp4" = true
                           ∧ PyStr.startswith (v_key v) "pending/" = false) videos));
    [done|].
  intros processed. eapply Forall_impl; [apply videos_per_word_from_index|].
  intros v Hv. split; [done|]. destruct Hv as (w & e & Hwe & -> & _).
  by apply (reachable_approved env st w e).
Qed.


End translate_videos.

Section translate_samples.
#[local] Existing Instance sample_tables.

Lemma translate_only_approved_sample :
  match translate sample_env sample_state (Some "hello world a b") None with
  | Translated _ _ videos =>
      Forall (λ v, from_index (video_index sample_state) v
                   ∧ PyStr.endswith (v_key v) ".mp4" = true
                   ∧ PyStr.startswith (v_key v) "pending/" = false) videos
  | TranslateError _ videos => videos = []
  end.
Proof.
  apply (translate_only_approved sample_env sample_state (Some "hello world a b") None
           sample_state_reachable).
Defined.


Lemma translate_falls_back_on_sentence_sample :
  translate sample_env sample_state (Some "a") (Some UnknownValueError)
  = translate sample_env sample_state (Some "a") None.
Proof.
  apply (translate_falls_back_on_sentence sample_env sample_state "a"
           (Some UnknownValueError)); [discriminate|reflexivity].
Defined.

Lemma translate_blank_sample :
  translate sample_env sample_state (Some "   ") None = Translated "" [] [].
Proof.
  apply (translate_blank sample_env sample_state (Some "   ")).
  intros s [= <-]. reflexivity.
Defined.

(** A word with a non-ASCII letter is a key word, and it is looked up by
    its lower case. *)
Example translate_cafe :
  let entry := {| v_word := "caf" ++ [233%N]; v_key := "caf" ++ [233%N] ++ ".mp4";
                  v_url := "u"; v_type := "word" |} in
  translate sample_env
    {| S3_AVAILABLE := true; video_index := <["caf" ++ [233%N] := entry]> ∅;
       pending_index := ∅ |}
    (Some ("un CAF" ++ [201%N] ++ " !")) None
  = Translated ("Un caf" ++ [233%N] ++ " !") ["Un"; "caf" ++ [233%N]] [entry].
Proof. vm_compute. reflexivity. Qed.

(** The lower case of the dotted capital I has two characters, so that
    one key word of one character can give two videos. *)
Example translate_dotted_capital_i :
  let entry w := {| v_word := w; v_key := w ++ ".mp4"; v_url := "u"; v_type := "letter" |} in
  translate sample_env
    {| S3_AVAILABLE := true;
       video_index := <["i" := entry "i"]> (<[[775%N] := entry [775%N]]> ∅);
       pending_index := ∅ |}
    (Some [304%N]) None
  = Translated [304%N] [[304%N]]
      [{| v_word := "I"; v_key := "i.mp4"; v_url := "u"; v_type := "letter" |};
       {| v_word := [775%N]; v_key := [775%N] ++ ".mp4"; v_url := "u";
          v_type := "letter" |}].
Proof. vm_compute. reflexivity. Qed.

Example translate_sample :
  translate sample_env sample_state (Some "a Cab") None
  = Translated "A cab" ["A"; "cab"]
      [{| v_word := "a"; v_key := "a.mp4";
          v_url := "https://echosignuobs.s3.eu-north-1.amazonaws.com/a.mp4";
          v_type := "letter" |};
       {| v_word := "A"; v_key := "a.mp4";
          v_url := "https://echosignuobs.s3.eu-north-1.amazonaws.com/a.mp4";
          v_type := "letter" |}].
Proof. vm_compute. reflexivity. Qed.

End translate_samples.

(** ** voice_server.py: more on the index refresh *)

Section listing.
Context `{tables : Unicode} (env : Env).

Lemma index_contents_app objs1 objs2 : ∀ idx,
  index_contents env (objs1 ++ objs2) idx
  = idx' ← index_contents env objs1 idx; index_contents env objs2 idx'.
Proof.
  induction objs1 as [|obj objs1 IH]; intros idx; [done|].
  cbn [app index_contents mbind result_bind].
  destruct (index_object env obj idx) as [idx1|]; [apply IH|done].
Qed.

(** A listing that does not raise is gone through as the sequence of its
    objects. *)
Lemma index_pages_listed pages : ∀ idx,
  raises pages = false →
  index_pages env pages idx = index_contents env (listed pages) idx.
Proof.
  induction pages as [|page rest IH|e]; intros idx Hr; [done| |done].
  cbn [index_pages listed]. rewrite index_contents_app.
  destruct (Contents page) as [objs|]; cbn [default from_option id].
  - destruct (index_contents env objs idx) as [idx1|]; cbn [mbind result_bind];
      [by apply IH|done].
  - cbn [index_contents mbind result_bind mret result_ret]. by apply IH.
Qed.

(** X15.  The refresh does not depend on how the listing is cut into
    pages: two listings that do not raise and yield the same objects in
    the same order leave the same indices. *)
Theorem index_s3_files_any_paging (st : State) (pages1 pages2 : PageIter) :
  raises pages1 = false → raises pages2 = false →
  listed pages1 = listed pages2 →
  index_s3_files env st pages1 = index_s3_files env st pages2.
Proof.
  intros Hr1 Hr2 Hlisted. unfold index_s3_files.
  by rewrite (index_pages_listed pages1 _ Hr1), (index_pages_listed pages2 _ Hr2), Hlisted.
Qed.

(** The object has a key from which the indexer derives the word [w] for
    the approved index. *)
Definition derives (w : str) (obj : ListedObject) : Prop :=
  ∃ k, obj_Key obj = Some k ∧ PyStr.endswith k ".mp4" = true
       ∧ PyStr.startswith k "pending/" = false ∧ derived_word k = w.

Lemma index_object_keeps w obj v p v' p' :
  ¬ derives w obj → index_object env obj (v, p) = Ok (v', p') → v' !! w = v !! w.
Proof.
  intros Hnot. unfold index_object.
  destruct (obj_Key obj) as [key|] eqn:Hkey; [|done]. cbn [getitem mbind result_bind].
  destruct (PyStr.endswith key ".mp4") eqn:Hmp4; cbn [negb]; [|by intros [= <- <-]].
  destruct (PyStr.startswith key "pending/") eqn:Hpre.
  - destruct (obj_LastModified obj); [|done]. destruct (obj_Size obj); [|done].
    by intros [= <- <-].
  - fold (derived_word key). case_bool_decide; intros [= <- <-]; [|done].
    apply lookup_insert_ne. intros Hw. apply Hnot. by exists key.
Qed.

Lemma index_contents_keeps w objs : ∀ v p v' p',
  Forall (λ obj, ¬ derives w obj) objs →
  index_contents env objs (v, p) = Ok (v', p') → v' !! w = v !! w.
Proof.
  induction objs as [|obj objs IH]; intros v p v' p' Hobjs; [by intros [= <- <-]|].
  apply Forall_cons in Hobjs as [Hobj Hobjs]. cbn [index_contents mbind result_bind].
  destruct (index_object env obj (v, p)) as [[v1 p1]|] eqn:Hone; [|done].
  intros Hrest. rewrite (IH _ _ _ _ Hobjs Hrest). by eapply index_object_keeps.
Qed.

(** X16.  When several listed keys derive the same word, the approved
    index serves the last one listed: after a refresh that went through,
    the entry under the word of an approved key is made from that key,
    provided no object listed after it derives the same word. *)
Theorem index_last_key_wins (st : State) (pages : PageIter)
    (objs1 objs2 : list ListedObject) (obj : ListedObject) (key : str) :
  S3_AVAILABLE st = true → raises pages = false →
  is_Ok (index_pages env pages (∅, ∅)) →
  listed pages = objs1 ++ obj :: objs2 →
  obj_Key obj = Some key → PyStr.endswith key ".mp4" = true →
  PyStr.startswith key "pending/" = false → derived_word key ≠ "" →
  Forall (λ later, ¬ derives (derived_word key) later) objs2 →
  v_key <$> video_index (index_s3_files env st pages) !! derived_word key = Some key.
Proof.
  intros Havail Hr Hok Hlisted Hkey Hmp4 Hpre Hword Hlater.
  unfold index_s3_files. rewrite Havail. cbn [negb].
  rewrite (index_pages_listed pages _ Hr), Hlisted in Hok |- *.
  rewrite index_contents_app in Hok |- *.
  destruct (index_contents env objs1 (∅, ∅)) as [[v1 p1]|]; [|done].
  cbn [mbind result_bind index_contents] in Hok |- *.
  assert (Hone : index_object env obj (v1, p1)
                 = Ok (<[derived_word key :=
                           {| v_word := derived_word key; v_key := key;
                              v_url := get_public_url env key;
                              v_type := if 1 <? length (derived_word key)
                                        then "word" else "letter" |}]> v1, p1)).
  { unfold index_object. rewrite Hkey. cbn [getitem mbind result_bind].
    rewrite Hmp4, Hpre. cbn [negb]. fold (derived_word key).
    by rewrite bool_decide_eq_true_2. }
  rewrite Hone in Hok |- *. cbn [mbind result_bind] in Hok |- *.
  match type of Hok with
  | is_Ok ?run => destruct run as [[v2 p2]|] eqn:Hrest; [|done]
  end.
  cbn [video_index]. rewrite (index_contents_keeps _ _ _ _ _ _ Hlater Hrest).
  by rewrite lookup_insert_eq.
Qed.

End listing.

Section listing_samples.
#[local] Existing Instance sample_tables.

Lemma index_s3_files_any_paging_sample :
  index_s3_files sample_env sample_state sample_pages
  = index_s3_files sample_env sample_state
      (PagesYield {| Contents := Some [sample_object "pending/hi.mp4";
                                       sample_object "Hello_World.mp4"] |}
         (PagesYield {| Contents := None |}
            (PagesYield {| Contents := Some [sample_object "notes.txt";
                                             sample_object "a.mp4"] |} PagesEnd))).
Proof.
  apply (index_s3_files_any_paging sample_env sample_state); reflexivity.
Defined.

Lemma index_last_key_wins_sample :
  v_key <$> video_index
              (index_s3_files sample_env sample_state
                 (PagesYield {| Contents := Some [sample_object "HELLO.mp4";
                                                  sample_object "hello.mp4";
                                                  sample_object "pending/hello.mp4"] |}
                    PagesEnd)) !! derived_word "hello.mp4"
  = Some "hello.mp4".
Proof.
  apply (index_last_key_wins sample_env sample_state _ [sample_object "HELLO.mp4"]
           [sample_object "pending/hello.mp4"] (sample_object "hello.mp4") "hello.mp4");
    try reflexivity; try (vm_compute; try exact I; done).
  apply Forall_singleton. intros (k & [= <-] & _ & Hpre & _). discriminate Hpre.
Defined.

End listing_samples.

(** ** push_dataset_to_s3.py: the uploads *)

Section uploads.
Context `{tables : Unicode} (BUCKET : str).

Lemma push_file_world now dry_run mongo_ok f loop w :
  (push_file BUCKET now dry_run mongo_ok f (loop, w)).2
  = (upload_file BUCKET now f (file_key f) dry_run w).2.
Proof.
  unfold push_file. cbv zeta. fold (file_language f) (file_word f) (file_key f).
  destruct (upload_file BUCKET now f (file_key f) dry_run w) as [[url|] w']; [|done].
  destruct mongo_ok; [|done]. destruct (find_one _ _ _); [done|].
  by destruct (metadata f).
Qed.

(** An upload changes the bucket at most at its key, which was free, and
    nothing else of the world. *)
Lemma upload_file_world now f key dry_run w :
  let w' := (upload_file BUCKET now f key dry_run w).2 in
  S3_OK w' = S3_OK w ∧ collection w' = collection w ∧ mongo w' = mongo w
  ∧ (s3_bucket w' = s3_bucket w
     ∨ S3_OK w = true ∧ dry_run = false ∧ s3_bucket w !! key = None
       ∧ ∃ body, content f = Ok body
                 ∧ s3_bucket w' = <[key := {| Body := body; LastModified := now |}]>
                                    (s3_bucket w)).
Proof.
  cbv zeta. unfold upload_file, s3_exists.
  destruct (S3_OK w) eqn:Hok; cbn [negb]; [|by auto].
  case_bool_decide as Hin; [by auto|]. destruct dry_run; [by auto|].
  destruct (content f) as [body|] eqn:Hbody; cbn [snd S3_OK collection mongo s3_bucket];
    [|by auto].
  split_and!; [done..|]. right. split_and!; [done..| |by exists body].
  by apply eq_None_not_Some.
Qed.

(** The world after the loop over the files. *)
Lemma push_files_world now dry_run mongo_ok files : ∀ loop w,
  let w' := (foldl (λ acc file_path, push_file BUCKET now dry_run mongo_ok file_path acc)
                   (loop, w) files).2 in
  S3_OK w' = S3_OK w ∧ collection w' = collection w ∧ mongo w' = mongo w
  ∧ (∀ k obj, s3_bucket w !! k = Some obj → s3_bucket w' !! k = Some obj)
  ∧ (dry_run = true ∨ S3_OK w = false → s3_bucket w' = s3_bucket w).
Proof.
  induction files as [|f files IH]; intros loop w; [done|]. cbn [foldl].
  pose proof (push_file_world now dry_run mongo_ok f loop w) as Hworld.
  destruct (push_file BUCKET now dry_run mongo_ok f (loop, w)) as [loop1 w1].
  cbn [snd] in Hworld. subst w1.
  destruct (upload_file_world now f (file_key f) dry_run w) as (H1 & H2 & H3 & Hb).
  destruct (IH loop1 (upload_file BUCKET now f (file_key f) dry_run w).2)
    as (I1 & I2 & I3 & Ikeep & Isame).
  cbv zeta. split_and!; [congruence..| |].
  - intros k obj Hk. apply Ikeep.
    destruct Hb as [->|(_ & _ & Hfree & body & _ & ->)]; [done|].
    rewrite lookup_insert_ne; [done|]. intros <-. by rewrite Hfree in Hk.
  - intros Hdry. rewrite Isame by (rewrite H1; done).
    destruct Hb as [->|(Hok & Hnot & _)]; [done|].
    destruct Hdry as [->|Hoff]; [done|]. by rewrite Hoff in Hok.
Qed.

(** The world the script starts its loop with and what it returns. *)
Lemma push_dataset_run now server budget tree dry_run w :
  let '(connected, held, _) := connect_mongo (collection w) server in
  let w0 := {| S3_OK := S3_OK w; s3_bucket := s3_bucket w;
               collection := held; mongo := mongo w |} in
  match connected with
  | Raised e => push_dataset BUCKET now server budget (Some tree) dry_run w = (Raised e, w0)
  | Ok mongo_ok =>
      let out := foldl (λ acc file_path, push_file BUCKET now dry_run mongo_ok file_path acc)
                       ({| mongo_ops := []; total_uploaded := 0; total_skipped := 0 |}, w0)
                       (matching tree) in
      push_dataset BUCKET now server budget (Some tree) dry_run w
      = (Ok out.1,
         if mongo_ok && bool_decide (mongo_ops out.1 ≠ [])
         then {| S3_OK := S3_OK out.2; s3_bucket := s3_bucket out.2;
                 collection := collection out.2;
                 mongo := bulk_write (mongo_ops out.1) budget (mongo out.2) |}
         else out.2)
  end.
Proof.
  unfold push_dataset, matching.
  destruct (connect_mongo (collection w) server) as [[[mongo_ok|e] held] log]; [|done].
  cbv zeta. destruct (foldl _ _ _) as [loop w']. cbn [fst snd].
  by destruct (mongo_ok && bool_decide (mongo_ops loop ≠ [])).
Qed.

(** X17.  The dataset push never replaces or removes an object of the
    bucket: an object that is there before a run is there, unchanged, after
    it; and a dry run, or a run without the store, leaves the whole bucket
    as it is. *)
Theorem push_dataset_keeps_bucket (now : DateTime) (server : nat → Attempt)
    (budget : option nat) (root : option (list LocalFile)) (dry_run : bool)
    (w : PushWorld) :
  let w' := (push_dataset BUCKET now server budget root dry_run w).2 in
  (∀ k obj, s3_bucket w !! k = Some obj → s3_bucket w' !! k = Some obj)
  ∧ (dry_run = true ∨ S3_OK w = false → s3_bucket w' = s3_bucket w).
Proof.
  cbv zeta. destruct root as [tree|]; [|done].
  pose proof (push_dataset_run now server budget tree dry_run w) as Hrun.
  destruct (connect_mongo (collection w) server) as [[[mongo_ok|e] held] log];
    [|by rewrite Hrun].
  cbv zeta in Hrun. rewrite Hrun. cbn [snd].
  match goal with
  | |- context [foldl ?step (?loop, ?w0) (matching tree)] =>
      destruct (push_files_world now dry_run mongo_ok (matching tree) loop w0)
        as (_ & _ & _ & Hkeep & Hsame)
  end.
  cbv zeta in Hkeep, Hsame. cbn [s3_bucket S3_OK] in Hkeep, Hsame.
  by destruct (mongo_ok && _).
Qed.

End uploads.

Section push_mongo.
Context `{tables : Unicode} (BUCKET : str).

(** What an upload answers and does to the bucket depends on the store
    only. *)
Lemma upload_file_store now f key dry_run w1 w2 :
  S3_OK w1 = S3_OK w2 → s3_bucket w1 = s3_bucket w2 →
  (upload_file BUCKET now f key dry_run w1).1 = (upload_file BUCKET now f key dry_run w2).1
  ∧ S3_OK (upload_file BUCKET now f key dry_run w1).2
    = S3_OK (upload_file BUCKET now f key dry_run w2).2
  ∧ s3_bucket (upload_file BUCKET now f key dry_run w1).2
    = s3_bucket (upload_file BUCKET now f key dry_run w2).2.
Proof.
  intros Hok Hbucket. unfold upload_file, s3_exists. rewrite Hok, Hbucket.
  destruct (S3_OK w2) eqn:Hok2; cbn [negb fst snd]; [|by rewrite Hok2].
  case_bool_decide; cbn [fst snd]; [by rewrite Hok2|].
  destruct dry_run; cbn [fst snd]; [by rewrite Hok2|].
  destruct (content f); cbn [fst snd S3_OK s3_bucket]; [done|by rewrite Hok2].
Qed.

Lemma push_files_store now dry_run files : ∀ mongo_ok1 mongo_ok2 loop1 loop2 w1 w2,
  S3_OK w1 = S3_OK w2 → s3_bucket w1 = s3_bucket w2 →
  s3_bucket (foldl (λ acc file_path, push_file BUCKET now dry_run mongo_ok1 file_path acc)
                   (loop1, w1) files).2
  = s3_bucket (foldl (λ acc file_path, push_file BUCKET now dry_run mongo_ok2 file_path acc)
                     (loop2, w2) files).2.
Proof.
  induction files as [|f files IH]; intros mongo_ok1 mongo_ok2 loop1 loop2 w1 w2 Hok Hbucket;
    [done|].
  cbn [foldl].
  pose proof (push_file_world BUCKET now dry_run mongo_ok1 f loop1 w1) as H1.
  pose proof (push_file_world BUCKET now dry_run mongo_ok2 f loop2 w2) as H2.
  destruct (push_file BUCKET now dry_run mongo_ok1 f (loop1, w1)) as [l1 u1].
  destruct (push_file BUCKET now dry_run mongo_ok2 f (loop2, w2)) as [l2 u2].
  cbn [snd] in H1, H2. subst u1 u2.
  destruct (upload_file_store now f (file_key f) dry_run w1 w2 Hok Hbucket) as (_ & ? & ?).
  by apply IH.
Qed.

(** X18.  What the dataset push uploads does not depend on the database:
    two runs on the same files and the same store that do not crash on the
    connection end with the same bucket, whether MongoDB answered or not
    and whatever the collection held. *)
Theorem push_dataset_uploads_same (now : DateTime) (server1 server2 : nat → Attempt)
    (budget1 budget2 : option nat) (root : option (list LocalFile)) (dry_run : bool)
    (w1 w2 : PushWorld) :
  S3_OK w1 = S3_OK w2 → s3_bucket w1 = s3_bucket w2 →
  is_Ok (push_dataset BUCKET now server1 budget1 root dry_run w1).1 →
  is_Ok (push_dataset BUCKET now server2 budget2 root dry_run w2).1 →
  s3_bucket (push_dataset BUCKET now server1 budget1 root dry_run w1).2
  = s3_bucket (push_dataset BUCKET now server2 budget2 root dry_run w2).2.
Proof.
  intros Hok Hbucket. destruct root as [tree|]; [|done].
  pose proof (push_dataset_run BUCKET now server1 budget1 tree dry_run w1) as Hrun1.
  pose proof (push_dataset_run BUCKET now server2 budget2 tree dry_run w2) as Hrun2.
  destruct (connect_mongo (collection w1) server1) as [[[ok1|e1] held1] log1];
    [|by rewrite Hrun1].
  destruct (connect_mongo (collection w2) server2) as [[[ok2|e2] held2] log2];
    [|by rewrite Hrun2].
  cbv zeta in Hrun1, Hrun2. rewrite Hrun1, Hrun2. intros _ _. cbn [snd].
  match goal with
  | |- s3_bucket ?a = s3_bucket ?b =>
      transitivity (s3_bucket (foldl (λ acc file_path,
                                        push_file BUCKET now dry_run ok1 file_path acc)
                                     ({| mongo_ops := []; total_uploaded := 0;
                                         total_skipped := 0 |},
                                      {| S3_OK := S3_OK w1; s3_bucket := s3_bucket w1;
                                         collection := held1; mongo := mongo w1 |})
                                     (matching tree)).2);
      [by destruct (ok1 && _)|]
  end.
  rewrite (push_files_store now dry_run (matching tree) ok1 ok2 _
             {| mongo_ops := []; total_uploaded := 0; total_skipped := 0 |} _
             {| S3_OK := S3_OK w2; s3_bucket := s3_bucket w2;
                collection := held2; mongo := mongo w2 |}) by done.
  by destruct (ok2 && _).
Qed.

(** The counters and the queue of the loop, step by step. *)
Lemma push_file_counts now dry_run mongo_ok f loop w :
  let loop' := (push_file BUCKET now dry_run mongo_ok f (loop, w)).1 in
  total_uploaded loop' + total_skipped loop' ≤ total_uploaded loop + total_skipped loop + 1
  ∧ (mongo_ok = false →
     mongo_ops loop' = mongo_ops loop ∧ total_skipped loop' = total_skipped loop)
  ∧ (length (mongo_ops loop) = total_uploaded loop →
     mongo_ok = true → length (mongo_ops loop') = total_uploaded loop').
Proof.
  cbv zeta. unfold push_file. cbv zeta.
  destruct (upload_file _ _ _ _ _ _) as [[url|] w']; cbn [fst]; [|by repeat split; lia].
  destruct mongo_ok; [|cbn; by repeat split; lia].
  destruct (find_one _ _ _); [cbn; by repeat split; lia|].
  destruct (metadata f). cbn [fst mongo_ops total_uploaded total_skipped].
  rewrite length_app. cbn. repeat split; try done; lia.
Qed.

Lemma push_files_counts now dry_run mongo_ok files : ∀ loop w,
  let loop' := (foldl (λ acc file_path, push_file BUCKET now dry_run mongo_ok file_path acc)
                      (loop, w) files).1 in
  total_uploaded loop' + total_skipped loop'
  ≤ total_uploaded loop + total_skipped loop + length files
  ∧ (mongo_ok = false →
     mongo_ops loop' = mongo_ops loop ∧ total_skipped loop' = total_skipped loop)
  ∧ (length (mongo_ops loop) = total_uploaded loop →
     mongo_ok = true → length (mongo_ops loop') = total_uploaded loop').
Proof.
  induction files as [|f files IH]; intros loop w; [cbn; by repeat split; lia|].
  cbn [foldl length].
  destruct (push_file_counts now dry_run mongo_ok f loop w) as (H1 & H2 & H3).
  destruct (push_file BUCKET now dry_run mongo_ok f (loop, w)) as [loop1 w1].
  cbn [fst] in H1, H2, H3. destruct (IH loop1 w1) as (I1 & I2 & I3). cbv zeta.
  split_and!; [lia| |by auto].
  intros Hoff. destruct (H2 Hoff) as [<- <-]. by apply I2.
Qed.

(** X19.  The counters of a run that did not crash: the files counted as
    uploaded or as skipped are at most the '.mp4' files under the root,
    and with MongoDB connected one operation is queued for every file
    counted as uploaded; without it none is queued. *)
Theorem push_dataset_counts (now : DateTime) (server : nat → Attempt)
    (budget : option nat) (root : option (list LocalFile)) (dry_run : bool)
    (w : PushWorld) :
  match (push_dataset BUCKET now server budget root dry_run w).1 with
  | Ok loop =>
      total_uploaded loop + total_skipped loop ≤ length (matching (default [] root))
      ∧ (mongo_ops loop = [] ∨ length (mongo_ops loop) = total_uploaded loop)
  | Raised _ => True
  end.
Proof.
  destruct root as [tree|]; [|cbn; auto with lia].
  pose proof (push_dataset_run BUCKET now server budget tree dry_run w) as Hrun.
  destruct (connect_mongo (collection w) server) as [[[mongo_ok|e] held] log];
    [|by rewrite Hrun].
  cbv zeta in Hrun. rewrite Hrun. cbn [fst default from_option id].
  match goal with
  | |- context [foldl ?step (?loop, ?w0) (matching tree)] =>
      destruct (push_files_counts now dry_run mongo_ok (matching tree) loop w0)
        as (Hle & Hoff & Hon)
  end.
  cbv zeta in Hle, Hoff, Hon. cbn [total_uploaded total_skipped mongo_ops] in Hle, Hoff, Hon.
  split; [lia|]. destruct mongo_ok; [right; by apply Hon|left; by apply Hoff].
Qed.

(** X20.  When MongoDB refuses the three connection attempts, the run goes
    on without the database: it does not crash, it queues no operation,
    counts no file as skipped, and leaves the collection as it is. *)
Theorem push_dataset_without_mongo (now : DateTime) (server : nat → Attempt)
    (budget : option nat) (root : option (list LocalFile)) (dry_run : bool)
    (w : PushWorld) :
  collection w = false →
  (∀ attempt, 1 ≤ attempt ≤ 3 → ∃ e, server attempt = Refused e) →
  mongo (push_dataset BUCKET now server budget root dry_run w).2 = mongo w
  ∧ ∃ loop, (push_dataset BUCKET now server budget root dry_run w).1 = Ok loop
            ∧ mongo_ops loop = [] ∧ total_skipped loop = 0.
Proof.
  intros Hheld Hrefused. destruct root as [tree|]; [|cbn; by eauto].
  pose proof (push_dataset_run BUCKET now server budget tree dry_run w) as Hrun.
  assert (Hconnect : ∃ log, connect_mongo (collection w) server = (Ok false, false, log)).
  { rewrite Hheld. unfold connect_mongo. cbn [seq connect_attempts].
    destruct (Hrefused 1) as [e1 ->]; [lia|]. cbn [connect_attempts].
    destruct (Hrefused 2) as [e2 ->]; [lia|]. cbn [connect_attempts].
    destruct (Hrefused 3) as [e3 ->]; [lia|]. by eexists. }
  destruct Hconnect as [log Hconnect]. rewrite Hconnect in Hrun. cbv zeta in Hrun.
  rewrite Hrun. cbn [andb fst snd].
  match goal with
  | |- context [foldl ?step (?loop, ?w0) (matching tree)] =>
      destruct (push_files_counts now dry_run false (matching tree) loop w0)
        as (_ & Hoff & _);
      destruct (push_files_world BUCKET now dry_run false (matching tree) loop w0)
        as (_ & _ & Hmongo & _)
  end.
  cbv zeta in Hoff, Hmongo. destruct (Hoff eq_refl) as [Hops Hskipped].
  split; [exact Hmongo|]. eexists. split; [done|]. by split.
Qed.

End push_mongo.

Section push_records.
Context `{tables : Unicode} (BUCKET : str).

Lemma find_one_count w l c :
  is_Some (find_one w l c) ↔ 0 < count_key w l (documents c).
Proof.
  unfold find_one, count_key. induction (documents c) as [|d docs IH]; simpl.
  - split; [by intros [? ?]|lia].
  - destruct (has_key w l d); simpl; [|done]. split; [lia|by eauto].
Qed.

(** An operation leaves no key with fewer documents, and its own key with
    one at least. *)
Lemma replace_one_grows files op c :
  pushed files op →
  (∀ w l, count_key w l (documents c) ≤ count_key w l (documents (replace_one op c)))
  ∧ 0 < count_key (filter_word op) (filter_language op) (documents (replace_one op c)).
Proof.
  intros Hop. unfold replace_one.
  destruct (replace_first op (documents c)) as [docs|] eqn:Hrep; cbn [documents].
  - pose proof (replace_first_count files op _ _ Hop Hrep) as Hsame. split.
    + intros w l. by rewrite Hsame.
    + rewrite Hsame. clear Hsame. revert docs Hrep.
      induction (documents c) as [|d ds IH]; intros docs Hrep; [done|].
      cbn [replace_first] in Hrep. rewrite count_key_cons.
      destruct (has_key _ _ d); [lia|].
      destruct (replace_first op ds) as [ds'|]; [|done]. specialize (IH ds' eq_refl). lia.
  - split.
    + intros w l. rewrite count_key_app. lia.
    + rewrite count_key_app, count_key_cons.
      rewrite (pushed_key files op (VObjectId (next_id c)) Hop). lia.
Qed.

Lemma bulk_write_grows files ops : ∀ c,
  Forall (pushed files) ops →
  (∀ w l, count_key w l (documents c)
          ≤ count_key w l (documents (bulk_write ops None c)))
  ∧ Forall (λ op, 0 < count_key (filter_word op) (filter_language op)
                                (documents (bulk_write ops None c))) ops.
Proof.
  induction ops as [|op ops IH]; intros c Hops; [by split|].
  apply Forall_cons in Hops as [Hop Hops]. cbn [bulk_write].
  destruct (replace_one_grows files op c Hop) as [Hle Hown].
  destruct (IH (replace_one op c) Hops) as [Hle' Hown']. split.
  - intros w l. specialize (Hle w l). specialize (Hle' w l). lia.
  - apply Forall_cons. split; [|done].
    specialize (Hle' (filter_word op) (filter_language op)). lia.
Qed.

(** The file has a document in the collection or an operation in the
    queue. *)
Definition found_or_queued (c : Collection) (ops : list ReplaceOne) (f : LocalFile) : Prop :=
  is_Some (find_one (file_word f) (file_language f) c)
  ∨ ∃ op, op ∈ ops ∧ filter_word op = file_word f ∧ filter_language op = file_language f.

(** An upload answers with an address unless the file cannot be read; in
    a run that is not dry the key is then in the bucket. *)
Lemma upload_file_answer now f key dry_run w :
  S3_OK w = true →
  match (upload_file BUCKET now f key dry_run w).1 with
  | Some _ => dry_run = false → is_Some (s3_bucket (upload_file BUCKET now f key dry_run w).2 !! key)
  | None => dry_run = false ∧ ¬ is_Ok (content f)
  end.
Proof.
  intros Hok. unfold upload_file, s3_exists. rewrite Hok. cbn [negb].
  case_bool_decide as Hin; cbn [fst snd]; [done|].
  destruct dry_run; cbn [fst snd]; [done|].
  destruct (content f) as [body|]; cbn [fst snd s3_bucket]; [|by auto].
  intros _. rewrite lookup_insert_eq. by eexists.
Qed.

Lemma push_file_recorded now dry_run f loop w :
  S3_OK w = true →
  let out := push_file BUCKET now dry_run true f (loop, w) in
  (∀ op, op ∈ mongo_ops loop → op ∈ mongo_ops out.1)
  ∧ (dry_run = true ∨ is_Ok (content f) →
     found_or_queued (mongo w) (mongo_ops out.1) f
     ∧ (dry_run = false → is_Some (s3_bucket out.2 !! file_key f))).
Proof.
  intros Hok. cbv zeta. unfold push_file. cbv zeta.
  fold (file_language f) (file_word f) (file_key f).
  pose proof (upload_file_mongo BUCKET now f (file_key f) dry_run w) as Hmongo.
  pose proof (upload_file_answer now f (file_key f) dry_run w Hok) as Hanswer.
  destruct (upload_file BUCKET now f (file_key f) dry_run w) as [[url|] w'];
    cbn [fst snd] in Hmongo, Hanswer.
  - rewrite Hmongo. unfold found_or_queued.
    destruct (find_one (file_word f) (file_language f) (mongo w)) as [d|].
    + cbn [fst snd mongo_ops]. split; [done|]. intros _.
      split; [left; by eexists|exact Hanswer].
    + destruct (metadata f). cbn [fst snd mongo_ops]. split.
      * intros op Hop. apply elem_of_app. by left.
      * intros _. split; [|exact Hanswer]. right. eexists.
        split; [apply elem_of_app; right; apply list_elem_of_here|done].
  - cbn [fst snd]. split; [done|]. destruct Hanswer as [-> Hnot]. by intros [|].
Qed.

Lemma push_files_recorded now dry_run files : ∀ loop w,
  S3_OK w = true →
  let out := foldl (λ acc file_path, push_file BUCKET now dry_run true file_path acc)
                   (loop, w) files in
  (∀ op, op ∈ mongo_ops loop → op ∈ mongo_ops out.1)
  ∧ Forall (λ f, dry_run = true ∨ is_Ok (content f) →
                 found_or_queued (mongo w) (mongo_ops out.1) f
                 ∧ (dry_run = false → is_Some (s3_bucket out.2 !! file_key f))) files.
Proof.
  induction files as [|f files IH]; intros loop w Hok; [done|]. cbn [foldl].
  destruct (push_file_recorded now dry_run f loop w Hok) as [Hgrow Hf].
  pose proof (push_file_world BUCKET now dry_run true f loop w) as Hworld.
  destruct (upload_file_world BUCKET now f (file_key f) dry_run w) as (Hok1 & _ & Hmongo & _).
  cbv zeta in Hgrow, Hf, Hok1, Hmongo.
  destruct (push_file BUCKET now dry_run true f (loop, w)) as [loop1 w1].
  cbn [fst snd] in *. subst w1.
  set (w1 := (upload_file BUCKET now f (file_key f) dry_run w).2) in *.
  assert (Hok' : S3_OK w1 = true) by congruence.
  destruct (IH loop1 w1 Hok') as [Hgrow' Hrest].
  destruct (push_files_world BUCKET now dry_run true files loop1 w1) as (_ & _ & _ & Hkeep & _).
  cbv zeta in *. split; [by auto|]. apply Forall_cons. split.
  - intros Hf'. destruct (Hf Hf') as [Hq Hb]. split.
    + destruct Hq as [Hfound|(op & Hop & ?)]; [by left|]. right. exists op. auto.
    + intros Hdry. destruct (Hb Hdry) as [obj Hobj]. exists obj. by apply Hkeep.
  - rewrite Hmongo in Hrest. exact Hrest.
Qed.

(** After a run with the store and MongoDB available and a bulk write
    that does not fail. *)
Lemma push_dataset_after now server tree dry_run w :
  S3_OK w = true →
  (connect_mongo (collection w) server).1.1 = Ok true →
  let w1 := (push_dataset BUCKET now server None (Some tree) dry_run w).2 in
  S3_OK w1 = true
  ∧ collection w1 = (connect_mongo (collection w) server).1.2
  ∧ Forall (λ f, dry_run = true ∨ is_Ok (content f) →
                 is_Some (find_one (file_word f) (file_language f) (mongo w1))
                 ∧ (dry_run = false → is_Some (s3_bucket w1 !! file_key f)))
           (matching tree).
Proof.
  intros Hok Hconnect. cbv zeta.
  pose proof (push_dataset_run BUCKET now server None tree dry_run w) as Hrun.
  destruct (connect_mongo (collection w) server) as [[connected held] log].
  cbn [fst snd] in Hconnect |- *. subst connected. cbv zeta in Hrun. rewrite Hrun.
  cbn [snd andb].
  match goal with
  | |- context [foldl ?step (?loop, ?w0) (matching tree)] =>
      destruct (push_files_recorded now dry_run (matching tree) loop w0 Hok)
        as [_ Hall];
      destruct (push_files_world BUCKET now dry_run true (matching tree) loop w0)
        as (Hok' & Hheld & Hmongo & _);
      destruct (push_files_pushed BUCKET now dry_run true (matching tree)
                  (matching tree) loop w0)
        as [Hpushed _]
  end.
  { by apply Forall_forall. }
  { done. }
  cbv zeta in Hall, Hmongo, Hpushed, Hok', Hheld.
  cbn [mongo S3_OK collection] in Hall, Hmongo, Hok', Hheld.
  destruct (foldl _ _ (matching tree)) as [loop w'] eqn:Hfold. cbn [fst snd] in *.
  destruct (bulk_write_grows (matching tree) (mongo_ops loop) (mongo w') Hpushed)
    as [Hle Hown].
  assert (Hfound : Forall (λ f, dry_run = true ∨ is_Ok (content f) →
            is_Some (find_one (file_word f) (file_language f)
                       (if bool_decide (mongo_ops loop ≠ [])
                        then bulk_write (mongo_ops loop) None (mongo w') else mongo w'))
            ∧ (dry_run = false → is_Some (s3_bucket w' !! file_key f)))
          (matching tree)).
  { eapply Forall_impl; [exact Hall|]. intros f Hf Hread.
    destruct (Hf Hread) as [Hq Hb]. split; [|done]. case_bool_decide as Hops.
    - apply find_one_count. destruct Hq as [Hq|(op & Hop & <- & <-)].
      + apply find_one_count in Hq. rewrite <- Hmongo in Hq.
        specialize (Hle (file_word f) (file_language f)). lia.
      + rewrite Forall_forall in Hown. by apply Hown.
    - rewrite Hmongo. destruct Hq as [Hq|(op & Hop & _)]; [done|].
      assert (mongo_ops loop = []) as Hnil.
      { destruct (decide (mongo_ops loop = [])); [done|]. by destruct Hops. }
      rewrite Hnil in Hop. by apply elem_of_nil in Hop. }
  destruct (bool_decide (mongo_ops loop ≠ [])); cbn [S3_OK collection mongo s3_bucket];
    (split_and!; [congruence|done|exact Hfound]).
Qed.

(** X21.  With the store and MongoDB available and a bulk write that does
    not fail, every '.mp4' file under the root that can be read has a
    document under its word and language after the run.  The same holds of
    every '.mp4' file in a dry run, readable or not: a dry run still
    writes the documents of the files it would upload. *)
Theorem push_dataset_records (now : DateTime) (server : nat → Attempt)
    (tree : list LocalFile) (dry_run : bool) (w : PushWorld) (f : LocalFile) :
  S3_OK w = true →
  (connect_mongo (collection w) server).1.1 = Ok true →
  f ∈ matching tree →
  dry_run = true ∨ is_Ok (content f) →
  is_Some (find_one (file_word f) (file_language f)
             (mongo (push_dataset BUCKET now server None (Some tree) dry_run w).2)).
Proof.
  intros Hok Hconnect Hf Hread.
  destruct (push_dataset_after now server tree dry_run w Hok Hconnect) as (_ & _ & Hall).
  rewrite Forall_forall in Hall. by destruct (Hall f Hf Hread).
Qed.

Lemma world_held (u : PushWorld) :
  collection u = true →
  {| S3_OK := S3_OK u; s3_bucket := s3_bucket u; collection := true; mongo := mongo u |} = u.
Proof. destruct u. cbn. by intros ->. Qed.

Lemma push_file_skip now dry_run f loop w :
  S3_OK w = true →
  dry_run = true ∨ is_Some (s3_bucket w !! file_key f) →
  is_Some (find_one (file_word f) (file_language f) (mongo w)) →
  push_file BUCKET now dry_run true f (loop, w)
  = ({| mongo_ops := mongo_ops loop; total_uploaded := total_uploaded loop;
        total_skipped := total_skipped loop + 1 |}, w).
Proof.
  intros Hok Hurl [d Hfound]. unfold push_file. cbv zeta.
  fold (file_language f) (file_word f) (file_key f).
  assert (Hup : ∃ url, upload_file BUCKET now f (file_key f) dry_run w = (Some url, w)).
  { unfold upload_file, s3_exists. rewrite Hok. cbn [negb].
    case_bool_decide as Hin; [by eexists|]. destruct Hurl as [->|?]; [by eexists|done]. }
  destruct Hup as [url ->]. by rewrite Hfound.
Qed.

Lemma push_files_skip now dry_run files : ∀ loop w,
  S3_OK w = true →
  Forall (λ f, (dry_run = true ∨ is_Some (s3_bucket w !! file_key f))
               ∧ is_Some (find_one (file_word f) (file_language f) (mongo w))) files →
  foldl (λ acc file_path, push_file BUCKET now dry_run true file_path acc) (loop, w) files
  = ({| mongo_ops := mongo_ops loop; total_uploaded := total_uploaded loop;
        total_skipped := total_skipped loop + length files |}, w).
Proof.
  induction files as [|f files IH]; intros loop w Hok Hall.
  - cbn. destruct loop. cbn. by rewrite Nat.add_0_r.
  - apply Forall_cons in Hall as [[Hurl Hfound] Hall]. cbn [foldl length].
    rewrite (push_file_skip now dry_run f loop w Hok Hurl Hfound).
    rewrite (IH _ w Hok Hall). cbn [mongo_ops total_uploaded total_skipped].
    do 2 f_equal. lia.
Qed.

(** X22.  Running the dataset push again on the same files does nothing:
    after a run with the store and MongoDB available, a bulk write that did
    not fail, and files that can all be read (or a dry run), a further run
    that reaches MongoDB (by the connection it holds, in the same process,
    or by a new one) counts every '.mp4' file as skipped, queues no
    operation and leaves the bucket and the collection as they are. *)
Theorem push_dataset_rerun (now now' : DateTime) (server server' : nat → Attempt)
    (budget' : option nat) (tree : list LocalFile) (dry_run : bool) (w : PushWorld)
    (held' : bool) :
  S3_OK w = true →
  (connect_mongo (collection w) server).1.1 = Ok true →
  dry_run = true ∨ Forall (λ f, is_Ok (content f)) (matching tree) →
  (connect_mongo held' server').1 = (Ok true, true) →
  let w1 := (push_dataset BUCKET now server None (Some tree) dry_run w).2 in
  push_dataset BUCKET now' server' budget' (Some tree) dry_run
    {| S3_OK := S3_OK w1; s3_bucket := s3_bucket w1; collection := held'; mongo := mongo w1 |}
  = (Ok {| mongo_ops := []; total_uploaded := 0;
           total_skipped := length (matching tree) |},
     {| S3_OK := S3_OK w1; s3_bucket := s3_bucket w1; collection := true;
        mongo := mongo w1 |}).
Proof.
  intros Hok Hc1 Hread Hconnect'. cbv zeta.
  destruct (push_dataset_after now server tree dry_run w Hok Hc1) as (Hok1 & _ & Hall).
  set (w1 := (push_dataset BUCKET now server None (Some tree) dry_run w).2) in *.
  set (w2 := {| S3_OK := S3_OK w1; s3_bucket := s3_bucket w1; collection := true;
                mongo := mongo w1 |}).
  pose proof (push_dataset_run BUCKET now' server' budget' tree dry_run
                {| S3_OK := S3_OK w1; s3_bucket := s3_bucket w1; collection := held';
                   mongo := mongo w1 |}) as Hrun.
  cbn [S3_OK s3_bucket collection mongo] in Hrun.
  destruct (connect_mongo held' server') as [[connected held] events].
  cbn [fst] in Hconnect'. injection Hconnect' as -> ->. cbv zeta in Hrun. fold w2 in Hrun.
  rewrite (push_files_skip now' dry_run (matching tree) _ w2 Hok1) in Hrun.
  - rewrite Hrun. cbn [fst snd mongo_ops total_uploaded total_skipped].
    by rewrite bool_decide_eq_false_2 by (intros Hne; by apply Hne).
  - rewrite Forall_forall in Hall |- *. intros f Hf.
    assert (Hreadable : dry_run = true ∨ is_Ok (content f)).
    { destruct Hread as [->|Hread]; [by left|]. right.
      rewrite Forall_forall in Hread. by apply Hread. }
    destruct (Hall f Hf Hreadable) as [Hfound Hkey]. split; [|done].
    destruct dry_run; [by left|right; by apply Hkey].
Qed.

End push_records.

(** ** populate_database.py: the rows of a run *)

Section populate_rows.
Context `{tables : Unicode}.

(** What every insertion keeps, a run keeps. *)
Lemma populate_database_keeps (Q : list VideoRecord → Prop) now video_dirs languages table :
  (∀ language f t, Q t → Q (populate_file now language f t)) →
  Q table → Q (populate_database now video_dirs languages table).
Proof.
  intros Hfile. unfold populate_database.
  assert (Hdir : ∀ language listing t, Q t →
            Q (foldl (λ table f, populate_file now language f table) t listing)).
  { intros language listing. induction listing as [|f listing IH]; intros t Ht; [done|].
    simpl. apply IH, Hfile, Ht. }
  assert (Hall : ∀ pairs t, Q t →
            Q (foldl (λ table '(language, video_dir),
                        match video_dir with
                        | None => table
                        | Some listing =>
                            foldl (λ table f, populate_file now language f table)
                                  table listing
                        end) t pairs)).
  { intros pairs. induction pairs as [|[language [listing|]] pairs IH]; intros t Ht;
      [done| |]; simpl; apply IH; [by apply Hdir|done]. }
  intros Ht. destruct video_dirs; [done|]. destruct languages; [done|]. by apply Hall.
Qed.

(** A row in conflict with a row that has a word and a language has them
    too. *)
Lemma conflicts_key w l r row :
  has_key w l row = true → conflicts r row = true → has_key w l r = true.
Proof.
  unfold has_key, conflicts, videos_unique. cbn [forallb].
  intros [H1 H2]%andb_true_iff. apply bool_decide_eq_true in H1, H2. rewrite H1, H2.
  destruct (get_field "word" r) as [v1|]; [|done].
  destruct (get_field "language" r) as [v2|]; [|by rewrite andb_false_r].
  intros [[_ Hv1]%andb_true_iff [[_ Hv2]%andb_true_iff _]%andb_true_iff]%andb_true_iff.
  apply bool_decide_eq_true in Hv1, Hv2.
  apply andb_true_iff. split; apply bool_decide_eq_true; congruence.
Qed.

(** An insertion leaves the rows of the other keys as many as they were. *)
Lemma insert_or_replace_others w l row table w' l' :
  has_key w l row = true → (w', l') ≠ (w, l) →
  count_key w' l' (insert_or_replace row table) = count_key w' l' table.
Proof.
  intros Hrow Hne. unfold insert_or_replace. rewrite count_key_app, count_key_cons.
  destruct (has_key w' l' row) eqn:Hrow'.
  { destruct (has_key_inj _ _ _ _ _ Hrow Hrow'). congruence. }
  unfold count_key. simpl. rewrite Nat.add_0_r.
  induction table as [|r table IH]; [done|]. simpl.
  destruct (conflicts r row) eqn:Hc; simpl.
  - pose proof (conflicts_key _ _ _ _ Hrow Hc) as Hr.
    destruct (has_key w' l' r) eqn:Hr'; [|done].
    destruct (has_key_inj _ _ _ _ _ Hr Hr'). congruence.
  - destruct (has_key w' l' r); simpl; by rewrite IH.
Qed.

Lemma populate_file_count now language f table w l :
  count_key w l (populate_file now language f table) = count_key w l table
  ∨ count_key w l (populate_file now language f table) = 1.
Proof.
  rewrite populate_file_row. destruct (PyStr.endswith _ _); [|by left].
  pose proof (video_row_key now language f) as Hkey.
  destruct (decide ((w, l)
                    = (PyStr.lower (PyStr.first_item (PyStr.split (filename f) ".")),
                       language))) as [[= -> ->]|Hne].
  - right. by apply insert_or_replace_count.
  - left. by eapply insert_or_replace_others.
Qed.

(** X23.  The populator loses no record: a word and language that have a
    row before a run have one after it, and a word and language with
    exactly one row still have exactly one. *)
Theorem populate_database_keeps_records (now : DateTime)
    (video_dirs : list (option (list VideoFile))) (languages : list str)
    (table : list VideoRecord) (word language : str) :
  (0 < count_key word language table →
   0 < count_key word language (populate_database now video_dirs languages table))
  ∧ (count_key word language table = 1 →
     count_key word language (populate_database now video_dirs languages table) = 1).
Proof.
  split.
  - apply (populate_database_keeps (λ t, 0 < count_key word language t)).
    intros lang f t Ht. destruct (populate_file_count now lang f t word language); lia.
  - apply (populate_database_keeps (λ t, count_key word language t = 1)).
    intros lang f t Ht. destruct (populate_file_count now lang f t word language); lia.
Qed.

(** The word the populator gives a file name. *)
Lemma populate_listing_records now language listing f : ∀ table,
  f ∈ listing → PyStr.endswith (filename f) ".mp4" = true →
  count_key (populator_word (filename f)) language
            (foldl (λ table f, populate_file now language f table) table listing) = 1.
Proof.
  induction listing as [|g listing IH]; intros table Hin Hmp4; [by apply elem_of_nil in Hin|].
  cbn [foldl]. apply elem_of_cons in Hin as [->|Hin]; [|by apply IH].
  assert (Hone : count_key (populator_word (filename g)) language
                           (populate_file now language g table) = 1).
  { rewrite populate_file_row, Hmp4. by apply insert_or_replace_count, video_row_key. }
  revert Hone. generalize (populate_file now language g table). clear.
  induction listing as [|h listing IH]; intros t Ht; [done|]. cbn [foldl]. apply IH.
  destruct (populate_file_count now language h t (populator_word (filename g)) language); lia.
Qed.

(** X24.  After a run, every '.mp4' file of a directory that exists and is
    paired with a language has exactly one row under its word (the file
    name up to its first dot, in lower case) and that language, whatever
    the table held before. *)
Theorem populate_database_records (now : DateTime)
    (video_dirs : list (option (list VideoFile))) (languages : list str)
    (table : list VideoRecord) (language : str) (listing : list VideoFile)
    (f : VideoFile) :
  (language, Some listing) ∈ zip languages video_dirs →
  f ∈ listing → PyStr.endswith (filename f) ".mp4" = true →
  count_key (populator_word (filename f)) language
            (populate_database now video_dirs languages table) = 1.
Proof.
  intros Hpair Hf Hmp4. unfold populate_database.
  assert (Hall : ∀ pairs t, (language, Some listing) ∈ pairs →
            count_key (populator_word (filename f)) language
              (foldl (λ table '(language, video_dir),
                        match video_dir with
                        | None => table
                        | Some listing =>
                            foldl (λ table f, populate_file now language f table)
                                  table listing
                        end) t pairs) = 1).
  { intros pairs. induction pairs as [|[lang dir] pairs IH]; intros t Hin;
      [by apply elem_of_nil in Hin|].
    cbn [foldl]. apply elem_of_cons in Hin as [[= <- <-]|Hin]; [|by apply IH].
    pose proof (populate_listing_records now language listing f t Hf Hmp4) as Hone.
    revert Hone. generalize (foldl (λ table f, populate_file now language f table) t listing).
    clear -pairs. induction pairs as [|[lang [dir|]] pairs IH]; intros t Ht; [done| |];
      cbn [foldl]; apply IH; [|done].
    revert t Ht. induction dir as [|h dir IHd]; intros t Ht; [done|]. cbn [foldl].
    apply IHd.
    destruct (populate_file_count now lang h t (populator_word (filename f)) language); lia. }
  destruct languages as [|l ls]; [by apply elem_of_nil in Hpair|].
  destruct video_dirs as [|d ds]; [by apply elem_of_nil in Hpair|]. by apply Hall.
Qed.

(** X25.  The populator pairs the languages with the directories in order
    and ignores what is left of the longer list: a run on the lists is a
    run on the lists cut to the length of the shorter one. *)
Theorem populate_database_pairs (now : DateTime)
    (video_dirs : list (option (list VideoFile))) (languages : list str)
    (table : list VideoRecord) :
  let n := length video_dirs `min` length languages in
  populate_database now video_dirs languages table
  = populate_database now (take n video_dirs) (take n languages) table.
Proof.
  cbv zeta. unfold populate_database.
  assert (Hzip : ∀ (ls : list str) (ds : list (option (list VideoFile))),
            zip (take (length ds `min` length ls) ls) (take (length ds `min` length ls) ds)
            = zip ls ds).
  { induction ls as [|l ls IH]; intros [|d ds]; cbn; try done. f_equal. apply IH. }
  destruct video_dirs as [|d ds]; [done|]. destruct languages as [|l ls]; [done|].
  rewrite <- (Hzip (l :: ls) (d :: ds)). cbn [length Nat.min take]. done.
Qed.

End populate_rows.

Section populate_samples.
#[local] Existing Instance sample_tables.

Lemma populate_database_keeps_records_sample :
  0 < count_key "hello" "GSL"
        (populate_database 9%Z [Some [{| filename := "Hello.mp4"; clip := None |}]] ["PSL"]
           [[("word", VStr "hello"); ("language", VStr "GSL")]]).
Proof.
  apply (proj1 (populate_database_keeps_records 9%Z _ _ _ "hello" "GSL")).
  vm_compute. lia.
Defined.

Lemma populate_database_records_sample :
  count_key (populator_word "Hello.There.mp4") "PSL"
    (populate_database 9%Z
       [Some [{| filename := "Hello.There.mp4"; clip := None |};
              {| filename := "hello.mp4"; clip := None |}]]
       ["PSL"; "GSL"; "ASL"] []) = 1.
Proof.
  apply (populate_database_records 9%Z _ _ _ "PSL"
           [{| filename := "Hello.There.mp4"; clip := None |};
            {| filename := "hello.mp4"; clip := None |}]
           {| filename := "Hello.There.mp4"; clip := None |}).
  - cbn. apply list_elem_of_here.
  - apply list_elem_of_here.
  - reflexivity.
Defined.

End populate_samples.

(** ** The word of a plain file name in the three programs *)

Section plain_names.
Context `{tables : Unicode}.

(** The ASCII letters and digits. *)
Definition plain_char (c : char) : bool :=
  PyStr.ascii_isupper c || PyStr.ascii_islower c || PyStr.ascii_isdigit c.

Definition ascii_lower (c : char) : char :=
  if PyStr.ascii_isupper c then (c + 32)%N else c.

Lemma plain_char_facts c :
  plain_char c = true →
  PyStr.isascii c = true
  ∧ N.eqb c "/"%pychar = false ∧ N.eqb "."%pychar c = false ∧ N.eqb c "."%pychar = false
  ∧ N.eqb "_"%pychar (ascii_lower c) = false
  ∧ PyStr.isspace (ascii_lower c) = false.
Proof. unfold plain_char, ascii_lower. intros Hc. split_and!; char_cases. Qed.

(** On such characters [lower] reads no table. *)
Lemma lower_plain s : ∀ before,
  PyStr.all plain_char s = true → PyStr.lower_from before s = ascii_lower <$> s.
Proof.
  induction s as [|c s IH]; intros before; [done|].
  cbn [PyStr.all]. intros [Hc Hs]%andb_true_iff. cbn [PyStr.lower_from].
  rewrite (IH _ Hs). unfold PyStr.lower_char.
  by rewrite (proj1 (plain_char_facts c Hc)).
Qed.

Lemma rfind_mp4 (s : str) : rfind (s ++ ".mp4") "." = Some (length s).
Proof.
  induction s as [|c s IH]; [done|]. rewrite ?append_String. cbn [rfind length].
  by rewrite IH.
Qed.

Lemma slice_to_append (s t : str) : slice_to (length s) (s ++ t) = s.
Proof.
  induction s as [|c s IH]; [by destruct t|].
  rewrite ?append_String. cbn [length slice_to]. by rewrite IH.
Qed.

Lemma length_append (s t : str) : length (s ++ t) = length s + length t.
Proof. induction s as [|c s IH]; [done|]. rewrite ?append_String. cbn. by rewrite IH. Qed.

(** The stem of a name that ends in '.mp4' is the name without it. *)
Lemma stem_mp4 (s : str) : s ≠ "" → stem (s ++ ".mp4") = s.
Proof.
  intros Hs. unfold stem. rewrite rfind_mp4, length_append.
  assert (0 < length s) by (destruct s; [done|cbn; lia]).
  rewrite (proj2 (andb_true_iff _ _)).
  - apply slice_to_append.
  - split; apply Nat.ltb_lt; cbn; lia.
Qed.

(** X26.  For a file name made of a non-empty run of ASCII letters and
    digits followed by '.mp4', the three programs derive the same word,
    the run in lower case: the indexer from the key, the dataset push from
    the stem, the populator from the name up to its first dot. *)
Theorem plain_name_same_word (s : str) :
  PyStr.all plain_char s = true → s ≠ "" →
  derived_word (s ++ ".mp4") = PyStr.lower s
  ∧ PyStr.lower (stem (s ++ ".mp4")) = PyStr.lower s
  ∧ populator_word (s ++ ".mp4") = PyStr.lower s.
Proof.
  intros Hs Hne. pose proof (proj1 (all_Forall _ _) Hs) as Hall. split_and!.
  - unfold derived_word.
    assert (Hslash : no_sep "/" (s ++ ".mp4") = true).
    { unfold no_sep. rewrite all_append, andb_true_iff. split; [|done].
      eapply all_impl; [|exact Hs]. intros c Hc.
      destruct (plain_char_facts c Hc) as (_ & -> & _). done. }
    rewrite (split_no_sep "/" _ Hslash).
    change (PyStr.last_item [s ++ ".mp4"]) with (s ++ ".mp4").
    rewrite replace_mp4_suffix.
    2:{ eapply all_impl; [|exact Hs]. intros c Hc.
        destruct (plain_char_facts c Hc) as (_ & _ & -> & _). done. }
    unfold PyStr.lower. rewrite (lower_plain s [] Hs). literals. rewrite replace_char.
    rewrite fmap_fixed_id.
    + apply strip_no_space. apply all_Forall, Forall_fmap.
      eapply Forall_impl; [exact Hall|]. intros c Hc. unfold compose.
      destruct (plain_char_facts c Hc) as (_ & _ & _ & _ & _ & ->). done.
    + apply Forall_fmap. eapply Forall_impl; [exact Hall|]. intros c Hc. unfold compose.
      destruct (plain_char_facts c Hc) as (_ & _ & _ & _ & -> & _). done.
  - by rewrite stem_mp4.
  - unfold populator_word.
    change (s ++ ".mp4") with (s ++ ("."%pychar :: "mp4")). rewrite split_append.
    rewrite (split_no_sep "." s); [done|].
    unfold no_sep. eapply all_impl; [|exact Hs]. intros c Hc.
    destruct (plain_char_facts c Hc) as (_ & _ & _ & -> & _). done.
Qed.

End plain_names.

Section plain_name_samples.
#[local] Existing Instance sample_tables.

Lemma plain_name_same_word_sample :
  derived_word "Hello2.mp4" = "hello2"
  ∧ PyStr.lower (stem "Hello2.mp4") = "hello2"
  ∧ populator_word "Hello2.mp4" = "hello2".
Proof. apply (plain_name_same_word "Hello2"); [reflexivity|discriminate]. Defined.

End plain_name_samples.

(** ** The dataset push on sample data *)

Section push_samples.
#[local] Existing Instance sample_tables.

Definition sample_tree : list LocalFile :=
  [sample_file ["PSL"; "Hello.mp4"]; sample_file ["GSL"; "a.mp4"]; sample_file ["notes.txt"]].

Lemma push_dataset_keeps_bucket_sample :
  s3_bucket (push_dataset "echosignuobs" 5%Z (λ _, Connected) None (Some sample_tree) true
               sample_world).2
  = s3_bucket sample_world.
Proof.
  apply (proj2 (push_dataset_keeps_bucket "echosignuobs" 5%Z (λ _, Connected) None
                  (Some sample_tree) true sample_world)).
  left. reflexivity.
Defined.

Lemma push_dataset_uploads_same_sample :
  s3_bucket (push_dataset "echosignuobs" 5%Z (λ _, Connected) None (Some sample_tree) false
               sample_world).2
  = s3_bucket (push_dataset "echosignuobs" 5%Z (λ _, Refused "down") (Some 0)
                 (Some sample_tree) false sample_world).2.
Proof.
  apply (push_dataset_uploads_same "echosignuobs" 5%Z (λ _, Connected) (λ _, Refused "down")
           None (Some 0) (Some sample_tree) false sample_world sample_world);
    try reflexivity; vm_compute; exact I.
Defined.

Lemma push_dataset_without_mongo_sample :
  mongo (push_dataset "echosignuobs" 5%Z (λ _, Refused "down") None (Some sample_tree) false
           sample_world).2
  = mongo sample_world.
Proof.
  apply (push_dataset_without_mongo "echosignuobs" 5%Z (λ _, Refused "down") None
           (Some sample_tree) false sample_world); [reflexivity|].
  intros attempt _. by eexists.
Defined.

Lemma push_dataset_records_sample :
  is_Some (find_one (file_word (sample_file ["PSL"; "Hello.mp4"]))
             (file_language (sample_file ["PSL"; "Hello.mp4"]))
             (mongo (push_dataset "echosignuobs" 5%Z (λ _, Connected) None (Some sample_tree)
                       true sample_world).2)).
Proof.
  apply (push_dataset_records "echosignuobs" 5%Z (λ _, Connected) sample_tree true
           sample_world (sample_file ["PSL"; "Hello.mp4"])).
  - reflexivity.
  - reflexivity.
  - vm_compute. apply list_elem_of_here.
  - left. reflexivity.
Defined.

Lemma push_dataset_rerun_sample :
  let w1 := (push_dataset "echosignuobs" 5%Z (λ _, Connected) None (Some sample_tree) false
               sample_world).2 in
  push_dataset "echosignuobs" 6%Z (λ _, Connected) (Some 0) (Some sample_tree) false
    {| S3_OK := S3_OK w1; s3_bucket := s3_bucket w1; collection := false; mongo := mongo w1 |}
  = (Ok {| mongo_ops := []; total_uploaded := 0;
           total_skipped := length (matching sample_tree) |},
     {| S3_OK := S3_OK w1; s3_bucket := s3_bucket w1; collection := true;
        mongo := mongo w1 |}).
Proof.
  apply (push_dataset_rerun "echosignuobs" 5%Z 6%Z (λ _, Connected) (λ _, Connected)
           (Some 0) sample_tree false sample_world false).
  - reflexivity.
  - reflexivity.
  - right. vm_compute. repeat constructor.
  - reflexivity.
Defined.

(** A dry run leaves the bucket as it is and writes the documents. *)
Example dry_run_writes_documents :
  let w1 := (push_dataset "echosignuobs" 5%Z (λ _, Connected) None (Some sample_tree) true
               sample_world).2 in
  s3_bucket w1 = ∅ ∧ length (documents (mongo w1)) = 2.
Proof. split; vm_compute; reflexivity. Qed.

End push_samples.

(** ** A mobile upload on sample data *)

Section upload_samples.
#[local] Existing Instance sample_tables.

Lemma mobile_upload_only_pending_sample :
  let after := (mobile_upload sample_env {| read := Ok "video" |} "Thank You" 5%Z
                  (sample_state, sample_bucket)).2 in
  after.2 !! "Hello_World.mp4" = sample_bucket !! "Hello_World.mp4"
  ∧ pending_index after.1 !! "Hello_World.mp4" = pending_index sample_state !! "Hello_World.mp4".
Proof.
  apply (proj2 (mobile_upload_only_pending sample_env sample_state sample_bucket
                  {| read := Ok "video" |} "Thank You" 5%Z) "Hello_World.mp4").
  reflexivity.
Defined.

End upload_samples.
